(** * Histogram split finding of the SYCL tree updater

    A shallow embedding of [plugin/sycl/tree/hist_updater.cc]
    (sampling, node statistics, split enumeration) and the properties
    of it that the design document states.

    Numbers.  Gradients, Hessians, gains and cut values are floating
    point numbers in the source.  The file embeds them twice.

    - In the first part they are exact integers ([Z]): additions,
      subtractions and comparisons are those of the source, without
      rounding, infinities or NaN.  This part carries the control
      flow: the checks and the sampling of [InitData], the frame of
      [InitNewNode], the merging of split candidates.  A statement
      about this part that speaks of a sum speaks of the exact sum.

    - In the second part ([Arithmetic], [GradStatsT], [EnumerateSplitT],
      [root_sum_denseT], ...) the sums are taken in the arithmetic of
      [GradientSumT], about which nothing is assumed; [binary32] is
      IEEE 754 single precision as the standard library specifies it.
      The statements about the values of sums live here, and the first
      part serves as the exact reference when no addition rounds
      ([exact_embedding]).

    Bin indices, lane ids, row ids and node ids are [nat]; the
    [uint32_t] difference of two cut pointers is taken modulo [2^32]
    ([nbins_of]).  Feature ids are [Z] because the source compares
    them with the constant [(1U << 31) - 1U].

    Device.  Kernels and copies are taken to complete: the exceptions
    that [wait_and_throw] may raise are outside the embedding, and so
    are the scratch buffers of [EvaluateSplits], which are represented
    by the values they carry. *)

From Stdlib Require Import QArith Qcanon SpecFloat.
From stdpp Require Import base numbers functions list.

Local Open Scope Z_scope.

(** ** Data model *)

(** A row's gradient pair, as produced by the loss. *)
Record GradientPair := MkGradientPair {
  gp_grad : Z;
  gp_hess : Z
}.

(** Modelled from the spec: [GradStats] is declared in a header outside
    [src/]; the spec describes it as an accumulating (sum-gradient,
    sum-Hessian) pair.  A fresh accumulator is zero. *)
Record GradStats := MkGradStats {
  GetGrad : Z;
  GetHess : Z
}.

Definition GradStats_zero : GradStats := MkGradStats 0 0.

(** [sum.Add(grad, hess)] *)
Definition GradStats_Add (s : GradStats) (grad hess : Z) : GradStats :=
  MkGradStats (GetGrad s + grad) (GetHess s + hess).

(** [a += b] *)
Definition GradStats_plus (a b : GradStats) : GradStats :=
  GradStats_Add a (GetGrad b) (GetHess b).

(** [a - b] *)
Definition GradStats_minus (a b : GradStats) : GradStats :=
  MkGradStats (GetGrad a - GetGrad b) (GetHess a - GetHess b).

(** [sum += GradStats(gpair.GetGrad(), gpair.GetHess())] *)
Definition GradStats_of_pair (p : GradientPair) : GradStats :=
  MkGradStats (gp_grad p) (gp_hess p).

(** Modelled from the spec: [SplitEntry] is declared in a header outside
    [src/].  The spec lists its fields: loss gain, feature id, split
    threshold, default direction of missing values, left and right
    sums. *)
Record SplitEntry := MkSplitEntry {
  loss_chg : Z;
  SplitIndex : Z;
  DefaultLeft : bool;
  split_value : Z;
  left_sum : GradStats;
  right_sum : GradStats
}.

(** Modelled from the spec: [SplitEntry::NeedReplace] is in the same
    header.  Spec: strictly greater loss gain wins; on an exact tie the
    candidate with the smaller feature id wins.  Otherwise the
    incumbent stays. *)
Definition NeedReplace (this : SplitEntry) (new_loss_chg : Z) (split_index : Z) : bool :=
  (loss_chg this <? new_loss_chg)
  || ((loss_chg this =? new_loss_chg) && (split_index <? SplitIndex this)).

(** Modelled from the spec: [SplitEntry::Update(const SplitEntry&)],
    the merge of a candidate into the incumbent under [NeedReplace]. *)
Definition Update (this e : SplitEntry) : SplitEntry :=
  if NeedReplace this (loss_chg e) (SplitIndex e) then e else this.

(** Modelled from the spec: the six-argument overload
    [Update(loss_chg, fid, split_pt, default_left, left, right)],
    which builds the candidate from its parts. *)
Definition Update_args (this : SplitEntry) (new_loss_chg : Z) (split_index : Z)
    (new_split_value : Z) (default_left : bool) (l r : GradStats) : SplitEntry :=
  Update this (MkSplitEntry new_loss_chg split_index default_left new_split_value l r).

(** Per-node statistics entry. *)
Record NodeEntry := MkNodeEntry {
  stats : GradStats;
  root_gain : Z;
  weight : Z;
  best : SplitEntry
}.

(** The evaluator obtained from [tree_evaluator_.GetEvaluator()]; its
    three functions are supplied from outside and are pure. *)
Record SplitEvaluator := MkSplitEvaluator {
  CalcSplitGain : nat -> Z -> GradStats -> GradStats -> Z;
  CalcWeight : nat -> GradStats -> Z;
  CalcGain : nat -> GradStats -> Z
}.

(** Array reads [a[i]]; a read outside the array, which the source never
    performs on well-formed cuts, yields the given default. *)
Definition cut_at (cut_ptr : list nat) (f : nat) : nat := default 0%nat (cut_ptr !! f).
Definition val_at (cut_val : list Z) (i : nat) : Z := default 0 (cut_val !! i).
Definition hist_at (hist_data : list GradStats) (i : nat) : GradStats :=
  default GradStats_zero (hist_data !! i).

(** ** EnumerateSplit: one sub-group scanning one feature of one node *)

(** A work-item of the sub-group inside the loop of [EnumerateSplit]:
    its [local_id], loop index [i], running [sum] and private [best].
    [lane_offers] is a ghost history: the bin index and candidate of
    every [best.Update(...)] call the work-item made, oldest first. *)
Record Lane := MkLane {
  local_id : nat;
  lane_i : nat;
  lane_sum : GradStats;
  lane_best : SplitEntry;
  lane_offers : list (nat * SplitEntry)
}.

(** [inclusive_scan_over_group(sg, x, plus)]: the work-item with local
    id [l] receives the sum of the operands of the work-items [0..l].
    [ops] lists the operand of every work-item of the group in local-id
    order; a work-item that has left the loop contributes nothing. *)
Definition inclusive_scan_over_group (ops : list (option Z)) (l : nat) : Z :=
  foldr (fun o acc => default 0 o + acc) 0 (take (S l) ops).

(** The serial catch-up [for (j = i + 1; j < end; ++j) sum.Add(hist[j])]. *)
Definition catch_up (hist_data : list GradStats) (i end_ : nat) (sum : GradStats) : GradStats :=
  foldl (fun s j => GradStats_Add s (GetGrad (hist_at hist_data j)) (GetHess (hist_at hist_data j)))
        sum (seq (S i) (end_ - S i)).

(** The candidate handed to [best.Update] at bin [i] with left sum
    [sum], if both children meet [min_child_weight]. *)
Definition offer (cut_val : list Z) (snode : NodeEntry) (fid : Z) (nodeID : nat)
    (evaluator : SplitEvaluator) (min_child_weight : Z) (i : nat) (sum : GradStats)
    : option SplitEntry :=
  if min_child_weight <=? GetHess sum then
    let c := GradStats_minus (stats snode) sum in
    if min_child_weight <=? GetHess c then
      let loss := CalcSplitGain evaluator nodeID fid sum c - root_gain snode in
      let split_pt := val_at cut_val i in
      Some (MkSplitEntry loss fid false split_pt sum c)
    else None
  else None.

(** One pass through the loop body for a work-item that is inside the
    loop ([i < iend]); [scan_grad] and [scan_hess] are what the two
    scans returned to it. *)
Definition lane_iteration (sub_group_size iend : nat) (cut_val : list Z)
    (hist_data : list GradStats) (snode : NodeEntry) (fid : Z) (nodeID : nat)
    (evaluator : SplitEvaluator) (min_child_weight : Z)
    (scan_grad scan_hess : Z) (ln : Lane) : Lane :=
  let i := lane_i ln in
  let sum := GradStats_Add (lane_sum ln) scan_grad scan_hess in
  let cand := offer cut_val snode fid nodeID evaluator min_child_weight i sum in
  let best' := match cand with
               | Some e => Update_args (lane_best ln) (loss_chg e) fid (split_value e) false
                                       (left_sum e) (right_sum e)
               | None => lane_best ln
               end in
  let offers' := match cand with
                 | Some e => lane_offers ln ++ [(i, e)]
                 | None => lane_offers ln
                 end in
  let last_iter := bool_decide (iend <= i + sub_group_size)%nat in
  let sum' := if last_iter then sum
              else
                let end0 := (i - local_id ln + sub_group_size)%nat in
                let end_ := if bool_decide (iend < end0)%nat then iend else end0 in
                catch_up hist_data i end_ sum in
  MkLane (local_id ln) (i + sub_group_size) sum' best' offers'.

(** The operand a work-item passes to a scan: present while it is in
    the loop. *)
Definition scan_operand (iend : nat) (hist_data : list GradStats)
    (proj : GradStats -> Z) (ln : Lane) : option Z :=
  if bool_decide (lane_i ln < iend)%nat then Some (proj (hist_at hist_data (lane_i ln)))
  else None.

(** One loop iteration of the whole sub-group, in lock step: every
    work-item that is inside the loop passes its operands to the two
    scans, receives its results and runs the rest of the body.  (A
    work-item outside the loop takes no part; it can only be one with
    a larger local id than those inside.) *)
Definition group_iteration (sub_group_size iend : nat) (cut_val : list Z)
    (hist_data : list GradStats) (snode : NodeEntry) (fid : Z) (nodeID : nat)
    (evaluator : SplitEvaluator) (min_child_weight : Z) (lanes : list Lane) : list Lane :=
  let ops_grad := map (scan_operand iend hist_data GetGrad) lanes in
  let ops_hess := map (scan_operand iend hist_data GetHess) lanes in
  map (fun ln =>
         if bool_decide (lane_i ln < iend)%nat then
           lane_iteration sub_group_size iend cut_val hist_data snode fid nodeID
             evaluator min_child_weight
             (inclusive_scan_over_group ops_grad (local_id ln))
             (inclusive_scan_over_group ops_hess (local_id ln)) ln
         else ln) lanes.

(** The loop: iterate while some work-item is still inside it. *)
Fixpoint group_loop (fuel : nat) (sub_group_size iend : nat) (cut_val : list Z)
    (hist_data : list GradStats) (snode : NodeEntry) (fid : Z) (nodeID : nat)
    (evaluator : SplitEvaluator) (min_child_weight : Z) (lanes : list Lane) : list Lane :=
  match fuel with
  | O => lanes
  | S fuel' =>
      if existsb (fun ln => bool_decide (lane_i ln < iend)%nat) lanes then
        group_loop fuel' sub_group_size iend cut_val hist_data snode fid nodeID evaluator
          min_child_weight
          (group_iteration sub_group_size iend cut_val hist_data snode fid nodeID evaluator
             min_child_weight lanes)
      else lanes
  end.

(** The work-items on entry to the loop.  [best0] is a default
    constructed [SplitEntry]; the constructor is declared outside
    [src/] and is a parameter here. *)
Definition initial_lanes (best0 : SplitEntry) (sub_group_size ibegin : nat) : list Lane :=
  map (fun l => MkLane l (ibegin + l) GradStats_zero best0 []) (seq 0 sub_group_size).

(** The state of every work-item when it leaves the loop.  Each
    iteration advances every index by [sub_group_size >= 1], so
    [iend - ibegin] iterations always suffice. *)
Definition scan_lanes (best0 : SplitEntry) (sub_group_size : nat) (cut_ptr : list nat)
    (cut_val : list Z) (hist_data : list GradStats) (snode : NodeEntry) (fid : Z)
    (nodeID : nat) (evaluator : SplitEvaluator) (min_child_weight : Z) : list Lane :=
  let ibegin := cut_at cut_ptr (Z.to_nat fid) in
  let iend := cut_at cut_ptr (Z.to_nat fid + 1) in
  group_loop (iend - ibegin) sub_group_size iend cut_val hist_data snode fid nodeID
    evaluator min_child_weight (initial_lanes best0 sub_group_size ibegin).

(** [reduce_over_group(sg, x, maximum<>())] and [... minimum<>()]. *)
Definition reduce_over_group_max (xs : list Z) : Z :=
  match xs with
  | [] => 0
  | x :: xs' => foldl Z.max x xs'
  end.

Definition reduce_over_group_min (xs : list Z) : Z :=
  match xs with
  | [] => 0
  | x :: xs' => foldl Z.min x xs'
  end.

Definition total_loss_chg (lanes : list Lane) : Z :=
  reduce_over_group_max (map (fun ln => loss_chg (lane_best ln)) lanes).

Definition total_split_index (lanes : list Lane) : Z :=
  let total := total_loss_chg lanes in
  reduce_over_group_min
    (map (fun ln => if loss_chg (lane_best ln) =? total
                    then SplitIndex (lane_best ln) else 2 ^ 31 - 1) lanes).

(** The final test of a work-item:
    [best.loss_chg == total_loss_chg && best.SplitIndex() == total_split_index]. *)
Definition is_group_winner (lanes : list Lane) (ln : Lane) : bool :=
  (loss_chg (lane_best ln) =? total_loss_chg lanes)
  && (SplitIndex (lane_best ln) =? total_split_index lanes).

(** The last statement: every winning work-item runs
    [p_best->Update(best)] on the shared entry.  The source leaves the
    relative order of these calls to the device; [order] lists the
    local ids in the order in which the calls take effect. *)
Definition group_commit (order : list nat) (lanes : list Lane) (p_best : SplitEntry)
    : SplitEntry :=
  foldl (fun pb l =>
           match lanes !! l with
           | Some ln => if is_group_winner lanes ln then Update pb (lane_best ln) else pb
           | None => pb
           end) p_best order.

Definition EnumerateSplit_ordered (order : list nat) (best0 : SplitEntry)
    (sub_group_size : nat) (cut_ptr : list nat) (cut_val : list Z)
    (hist_data : list GradStats) (snode : NodeEntry) (p_best : SplitEntry) (fid : Z)
    (nodeID : nat) (evaluator : SplitEvaluator) (min_child_weight : Z) : SplitEntry :=
  group_commit order
    (scan_lanes best0 sub_group_size cut_ptr cut_val hist_data snode fid nodeID evaluator
       min_child_weight) p_best.

(** [EnumerateSplit] with the winning work-items committing in
    local-id order. *)
Definition EnumerateSplit (best0 : SplitEntry) (sub_group_size : nat) (cut_ptr : list nat)
    (cut_val : list Z) (hist_data : list GradStats) (snode : NodeEntry)
    (p_best : SplitEntry) (fid : Z) (nodeID : nat) (evaluator : SplitEvaluator)
    (min_child_weight : Z) : SplitEntry :=
  EnumerateSplit_ordered (seq 0 sub_group_size) best0 sub_group_size cut_ptr cut_val
    hist_data snode p_best fid nodeID evaluator min_child_weight.

(** ** Outcomes of the host functions *)

(** The fatal errors raised by the [CHECK] macros and by [SafeColl]. *)
Inductive Error :=
  | ErrDepthAndLeaves   (* max_depth or max_leaves cannot be both 0 *)
  | ErrDepthWise        (* max_depth cannot be 0 when grow_policy is depthwise *)
  | ErrSamplingMethod   (* Only uniform sampling is supported *)
  | ErrNoBins           (* CHECK_GT(min_nbins_per_feature, 0U) *)
  | ErrCollective       (* the all-reduce reported a failure *)
  | ErrOutOfRange.      (* the row partition has no extent for the node id *)

(** A host function returns, aborts with a fatal error, or indexes an
    array outside its bounds (no defined behaviour in the source). *)
Inductive outcome (A : Type) :=
  | Ok (a : A)
  | Fatal (e : Error)
  | Undefined.
Arguments Ok {A} a.
Arguments Fatal {A} e.
Arguments Undefined {A}.

#[global] Instance outcome_ret : MRet outcome := fun A a => Ok a.
#[global] Instance outcome_bind : MBind outcome := fun A B f m =>
  match m with
  | Ok a => f a
  | Fatal e => Fatal e
  | Undefined => Undefined
  end.

(** [CHECK(cond) << msg] *)
Definition CHECK (cond : bool) (e : Error) : outcome unit :=
  if cond then Ok tt else Fatal e.

(** A checked array read. *)
Definition read {A} (l : list A) (i : nat) : outcome A :=
  match l !! i with
  | Some a => Ok a
  | None => Undefined
  end.

Fixpoint mapM_outcome {A B} (f : A -> outcome B) (l : list A) : outcome (list B) :=
  match l with
  | [] => Ok []
  | a :: l' => b ← f a; bs ← mapM_outcome f l'; Ok (b :: bs)
  end.

(** ** Collaborators outside this file *)

(** The tree, seen through the queries the updater makes. *)
Record RegTree := MkRegTree {
  NumNodes : nat;
  IsRoot : nat -> bool;
  Parent : nat -> nat;
  IsLeftChild : nat -> bool;
  GetDepth : nat -> nat
}.

(** The quantised matrix: cut pointers, cut values, and for every row
    the global bin ids of its present features. *)
Record GHistIndexMatrix := MkGHistIndexMatrix {
  cut_Ptrs : list nat;
  cut_Values : list Z;
  row_bins : nat -> list nat
}.

Record MetaInfo := MkMetaInfo {
  num_row_ : nat;
  num_col_ : nat;
  num_nonzero_ : nat
}.

Inductive GrowPolicy := kDepthWise | kLossGuide.
Inductive SamplingMethod := kUniform | kGradientBased.

#[global] Instance SamplingMethod_eq_dec : EqDecision SamplingMethod.
Proof. solve_decision. Defined.
#[global] Instance GrowPolicy_eq_dec : EqDecision GrowPolicy.
Proof. solve_decision. Defined.

Record TrainParam := MkTrainParam {
  max_depth : Z;
  max_leaves : Z;
  grow_policy : GrowPolicy;
  subsample : Qc;
  sampling_method : SamplingMethod;
  min_child_weight : Z
}.

Record ExpandEntry := MkExpandEntry {
  nid : nat;
  depth : nat
}.

Inductive DataLayout := kDenseDataZeroBased | kDenseDataOneBased | kSparseData.

(** The device kernels and collective calls the host functions issue;
    kept in a ghost log to state which passes ran. *)
Inductive Kernel :=
  | KSampling        (* the Bernoulli compaction of InitSampling *)
  | KFillRows        (* row_indices[idx] = idx, with negative-Hessian detection *)
  | KCompactRows     (* the compaction of InitData for subsample = 1 *)
  | KCopyHist        (* copy of a bin range of the root histogram to the host *)
  | KReduceRows      (* reduction over the gradient pairs of a row extent *)
  | KAllreduce.      (* collective::Allreduce *)

(** What the device contributes: the Bernoulli draw of the engine
    [minstd_rand(seed, i)] at rate [subsample], and, for a launch of
    [n] work-items of a kernel, the order in which their atomic
    increments take effect. *)
Record Device := MkDevice {
  coin_flip : Z -> nat -> Qc -> bool;
  work_item_order : Kernel -> nat -> list nat
}.

(** The row partition: the buffer of row indices and, per node id, the
    extent [(begin, end)] of the buffer that belongs to the node. *)
Record RowSetCollection := MkRowSetCollection {
  rsc_Data : list nat;
  elem_of_each_node_ : list (nat * nat)
}.

(** The rows of an extent. *)
Definition Elem_rows (data : list nat) (e : nat * nat) : list nat :=
  take (e.2 - e.1) (drop e.1 data).

(** Modelled from the spec: [RowSetCollection::Init] is outside [src/].
    Spec: the extents partition the sampled row set; at initialisation
    the only node is the root, whose extent is the whole buffer. *)
Definition RowSetCollection_Init (data : list nat) : RowSetCollection :=
  MkRowSetCollection data [(0, length data)%nat].

(** Modelled from the spec: [row_set_collection_[nid]] is an operator
    declared outside [src/].  Spec: if a node id is unknown the
    operation fails with an out-of-range condition. *)
Definition RowSetCollection_at (r : RowSetCollection) (nid : nat) : outcome (nat * nat) :=
  match elem_of_each_node_ r !! nid with
  | Some e => Ok e
  | None => Fatal ErrOutOfRange
  end.

(** The members of [HistUpdater] that the functions below read or
    write. *)
Record HistUpdater := MkHistUpdater {
  param_ : TrainParam;
  seed_ : Z;
  sub_group_size_ : nat;
  row_set_collection_ : RowSetCollection;
  data_layout_ : DataLayout;
  fid_least_bins_ : nat;
  hist_ : nat -> list GradStats;
  snode_host_ : list NodeEntry;
  submitted_ : list Kernel
}.

Definition set_row_set (hu : HistUpdater) (r : RowSetCollection) (sd : Z) (ks : list Kernel) :=
  MkHistUpdater (param_ hu) sd (sub_group_size_ hu) r (data_layout_ hu)
    (fid_least_bins_ hu) (hist_ hu) (snode_host_ hu) (submitted_ hu ++ ks).

Definition set_layout (hu : HistUpdater) (d : DataLayout) (f : nat) :=
  MkHistUpdater (param_ hu) (seed_ hu) (sub_group_size_ hu) (row_set_collection_ hu) d
    f (hist_ hu) (snode_host_ hu) (submitted_ hu).

Definition set_hist (hu : HistUpdater) (h : nat -> list GradStats) :=
  MkHistUpdater (param_ hu) (seed_ hu) (sub_group_size_ hu) (row_set_collection_ hu)
    (data_layout_ hu) (fid_least_bins_ hu) h (snode_host_ hu) (submitted_ hu).

Definition set_snode (hu : HistUpdater) (s : list NodeEntry) (ks : list Kernel) :=
  MkHistUpdater (param_ hu) (seed_ hu) (sub_group_size_ hu) (row_set_collection_ hu)
    (data_layout_ hu) (fid_least_bins_ hu) (hist_ hu) s (submitted_ hu ++ ks).

Definition gpair_at (gpair : list GradientPair) (i : nat) : GradientPair :=
  default (MkGradientPair 0 0) (gpair !! i).

(** ** Histograms *)

(** Modelled from the spec: [BuildHist] and [InitHist] are outside
    [src/].  Spec: the histogram of a node is zeroed, then every row of
    the node is scanned once and its gradient pair is added into the
    bin of each of its features. *)
Definition InitHist (nbins : nat) : list GradStats := replicate nbins GradStats_zero.

Definition add_row (gpair : list GradientPair) (row_bins : nat -> list nat)
    (h : list GradStats) (row : nat) : list GradStats :=
  foldl (fun h bin => alter (fun s => GradStats_plus s (GradStats_of_pair (gpair_at gpair row)))
                            bin h) h (row_bins row).

Definition BuildHist (gpair : list GradientPair) (rows : list nat)
    (gmat : GHistIndexMatrix) (nbins : nat) : list GradStats :=
  foldl (add_row gpair (row_bins gmat)) (InitHist nbins) rows.

(** [BuildLocalHistograms]: every node of the explicit-build list gets
    its histogram built from its rows, or zeroed when it has none. *)
Definition BuildLocalHistograms (hu : HistUpdater)
    (nodes_for_explicit_hist_build_ : list ExpandEntry) (gmat : GHistIndexMatrix)
    (gpair : list GradientPair) : outcome HistUpdater :=
  let nbins := default 0%nat (last (cut_Ptrs gmat)) in
  h ← foldl (fun acc e =>
               h ← acc;
               ext ← RowSetCollection_at (row_set_collection_ hu) (nid e);
               let rows := Elem_rows (rsc_Data (row_set_collection_ hu)) ext in
               if bool_decide (0 < length rows)%nat
               then Ok (<[nid e := BuildHist gpair rows gmat nbins]> h)
               else Ok (<[nid e := InitHist nbins]> h))
            (Ok (hist_ hu)) nodes_for_explicit_hist_build_;
  Ok (set_hist hu h).

(** ** InitSampling *)

(** One work-item of the sampling kernel, at the moment its atomic
    increment of [num_samples] takes effect.  The state is the row
    buffer and the counter. *)
Definition sampling_item (dev : Device) (gpair : list GradientPair) (rate : Qc) (seed : Z)
    (st : list nat * nat) (i : nat) : list nat * nat :=
  let rnd := coin_flip dev seed i rate in
  if (0 <=? gp_hess (gpair_at gpair i)) && rnd
  then (<[st.2 := i]> st.1, S st.2)
  else st.

(** [InitSampling]: returns the resized row buffer and the new seed. *)
Definition InitSampling (dev : Device) (hu : HistUpdater) (gpair : list GradientPair)
    (row_indices : list nat) : list nat * Z :=
  let num_rows := length row_indices in
  let seed := seed_ hu in
  let st := foldl (sampling_item dev gpair (subsample (param_ hu)) seed) (row_indices, 0%nat)
                  (work_item_order dev KSampling num_rows) in
  (resize st.2 0%nat st.1, (seed + Z.of_nat num_rows) mod 2 ^ 64).

(** ** InitData *)

(** One work-item of the first kernel of the [subsample = 1] path. *)
Definition fill_item (gpair : list GradientPair) (st : list nat * bool) (idx : nat)
    : list nat * bool :=
  (<[idx := idx]> st.1, st.2 || (gp_hess (gpair_at gpair idx) <? 0)).

(** One work-item of the compaction kernel of the same path. *)
Definition compact_item (gpair : list GradientPair) (st : list nat * nat) (idx : nat)
    : list nat * nat :=
  if 0 <=? gp_hess (gpair_at gpair idx)
  then (<[st.2 := idx]> st.1, S st.2)
  else st.

(** The row-set block of [InitData]: the row buffer, the seed and the
    kernels that ran. *)
Definition init_row_set (dev : Device) (hu : HistUpdater) (gpair : list GradientPair)
    (info : MetaInfo) : outcome (list nat * Z * list Kernel) :=
  let p := param_ hu in
  let row_indices := resize (num_row_ info) 0%nat (rsc_Data (row_set_collection_ hu)) in
  if bool_decide (subsample p < 1)%Qc then
    _ ← CHECK (bool_decide (sampling_method p = kUniform)) ErrSamplingMethod;
    let r := InitSampling dev hu gpair row_indices in
    Ok (r.1, r.2, [KSampling])
  else
    let st := foldl (fill_item gpair) (row_indices, false)
                    (work_item_order dev KFillRows (num_row_ info)) in
    if st.2 then
      let st' := foldl (compact_item gpair) (st.1, 0%nat)
                       (work_item_order dev KCompactRows (num_row_ info)) in
      Ok (resize st'.2 0%nat st'.1, seed_ hu, [KFillRows; KCompactRows])
    else Ok (st.1, seed_ hu, [KFillRows]).

(** [size_t] product. *)
Definition size_t_mul (a b : Z) : Z := (a * b) mod 2 ^ 64.

(** The layout block of [InitData]. *)
Definition determine_layout (gmat : GHistIndexMatrix) (info : MetaInfo) : DataLayout :=
  let nrow := Z.of_nat (num_row_ info) in
  let ncol := Z.of_nat (num_col_ info) in
  let nnz := Z.of_nat (num_nonzero_ info) in
  let nbins_f0 :=
    (Z.of_nat (cut_at (cut_Ptrs gmat) 1) - Z.of_nat (cut_at (cut_Ptrs gmat) 0)) mod 2 ^ 32 in
  if size_t_mul nrow ncol =? nnz then kDenseDataZeroBased
  else if (nbins_f0 =? 0) && (size_t_mul nrow ((ncol - 1) mod 2 ^ 64) =? nnz)
       then kDenseDataOneBased
       else kSparseData.

Definition is_dense (d : DataLayout) : bool :=
  match d with
  | kDenseDataZeroBased | kDenseDataOneBased => true
  | kSparseData => false
  end.

(** The number of bins of feature [i], [row_ptr[i + 1] - row_ptr[i]]:
    a [uint32_t] difference, which wraps around when the pointers
    descend. *)
Definition nbins_of (row_ptr : list nat) (i : nat) : nat :=
  Z.to_nat ((Z.of_nat (cut_at row_ptr (i + 1)) - Z.of_nat (cut_at row_ptr i)) mod 2 ^ 32).

(** One step of the search for the feature with the least positive
    number of bins; the state is [(min_nbins_per_feature, fid_least_bins_)]. *)
Definition least_bins_step (row_ptr : list nat) (st : nat * nat) (i : nat) : nat * nat :=
  let nbins := nbins_of row_ptr i in
  if bool_decide (0 < nbins)%nat then
    if bool_decide (st.1 = 0%nat) || bool_decide (nbins < st.1)%nat
    then (nbins, i)
    else st
  else st.

Definition least_bins (row_ptr : list nat) (fid0 : nat) : nat * nat :=
  foldl (least_bins_step row_ptr) (0%nat, fid0) (seq 0 (length row_ptr - 1)).

(** [InitData].  [entry0] is [NodeEntry(param_)], whose constructor is
    declared outside [src/].  [HistCollection_Init] is [hist_.Init(qu_,
    nbins)], also declared outside [src/]: it maps the histogram
    collection and the number of bins to the re-initialised collection.
    The set-up of the histogram buffer, the builder and the column
    sampler are calls into collaborators and write none of the members
    modelled here. *)
Definition InitData (entry0 : NodeEntry)
    (HistCollection_Init : (nat -> list GradStats) -> nat -> nat -> list GradStats)
    (dev : Device) (hu : HistUpdater)
    (gmat : GHistIndexMatrix) (gpair : list GradientPair) (info : MetaInfo)
    : outcome HistUpdater :=
  let p := param_ hu in
  _ ← CHECK ((0 <? max_depth p) || (0 <? max_leaves p)) ErrDepthAndLeaves;
  _ ← (if bool_decide (grow_policy p = kDepthWise)
       then CHECK (0 <? max_depth p) ErrDepthWise
       else Ok tt);
  let nbins := default 0%nat (last (cut_Ptrs gmat)) in
  let hu0 := set_hist hu (HistCollection_Init (hist_ hu) nbins) in
  rs ← init_row_set dev hu0 gpair info;
  let hu1 := set_row_set hu0 (RowSetCollection_Init rs.1.1) rs.1.2 rs.2 in
  let layout := determine_layout gmat info in
  hu2 ← (if is_dense layout then
           let lb := least_bins (cut_Ptrs gmat) (fid_least_bins_ hu1) in
           _ ← CHECK (bool_decide (0 < lb.1)%nat) ErrNoBins;
           Ok (set_layout hu1 layout lb.2)
         else Ok (set_layout hu1 layout (fid_least_bins_ hu1)));
  Ok (set_snode hu2 (replicate (length (snode_host_ hu2)) entry0) []).

(** ** InitNewNode *)

Definition set_stats (ne : NodeEntry) (s : GradStats) : NodeEntry :=
  MkNodeEntry s (root_gain ne) (weight ne) (best ne).

Definition set_weight_gain (ne : NodeEntry) (w g : Z) : NodeEntry :=
  MkNodeEntry (stats ne) g w (best ne).

Definition set_best (ne : NodeEntry) (b : SplitEntry) : NodeEntry :=
  MkNodeEntry (stats ne) (root_gain ne) (weight ne) b.

(** The dense branch for the root: sum of the histogram over the bin
    range of [fid_least_bins_]; the number of entries copied is the
    [uint32_t] difference [iend - ibegin]. *)
Definition root_sum_dense (hu : HistUpdater) (nid : nat) (gmat : GHistIndexMatrix)
    : GradStats :=
  let row_ptr := cut_Ptrs gmat in
  let ibegin := cut_at row_ptr (fid_least_bins_ hu) in
  let ets := map (hist_at (hist_ hu nid))
                 (seq ibegin (nbins_of row_ptr (fid_least_bins_ hu))) in
  foldl GradStats_plus GradStats_zero ets.

(** The sparse branch for the root: reduction over the gradient pairs
    of the rows of an extent. *)
Definition root_sum_rows (gpair : list GradientPair) (rows : list nat) : GradStats :=
  foldl (fun sum row_idx => GradStats_plus sum (GradStats_of_pair (gpair_at gpair row_idx)))
        GradStats_zero rows.

(** The local aggregate of the root, with the kernel that produced it. *)
Definition root_local_sum (hu : HistUpdater) (nid : nat) (gmat : GHistIndexMatrix)
    (gpair : list GradientPair) : outcome (GradStats * Kernel) :=
  if is_dense (data_layout_ hu) then Ok (root_sum_dense hu nid gmat, KCopyHist)
  else
    e ← RowSetCollection_at (row_set_collection_ hu) nid;
    Ok (root_sum_rows gpair (Elem_rows (rsc_Data (row_set_collection_ hu)) e), KReduceRows).

(** [InitNewNode].  [Allreduce] is the collective sum over the workers;
    [None] is a failure status, which [SafeColl] turns into a fatal
    error. *)
Definition InitNewNode (entry0 : NodeEntry) (Allreduce : GradStats -> option GradStats)
    (evaluator : SplitEvaluator) (hu : HistUpdater) (nid : nat) (gmat : GHistIndexMatrix)
    (gpair : list GradientPair) (tree : RegTree) : outcome HistUpdater :=
  let snode := resize (NumNodes tree) entry0 (snode_host_ hu) in
  sk ← (if IsRoot tree nid then
          lk ← root_local_sum hu nid gmat gpair;
          match Allreduce lk.1 with
          | Some g => Ok (g, [lk.2; KAllreduce])
          | None => Fatal ErrCollective
          end
        else
          let parent_id := Parent tree nid in
          p ← read snode parent_id;
          if IsLeftChild tree nid
          then Ok (left_sum (best p), [])
          else Ok (right_sum (best p), []));
  ne ← read snode nid;
  let ne1 := set_stats ne sk.1 in
  let parentid := Parent tree nid in
  let ne2 := set_weight_gain ne1 (CalcWeight evaluator parentid (stats ne1))
                                 (CalcGain evaluator parentid (stats ne1)) in
  Ok (set_snode hu (<[nid := ne2]> snode) sk.2).

(** ** EvaluateSplits *)

Record SplitQuery := MkSplitQuery {
  q_nid : nat;
  q_fid : Z;
  q_hist : list GradStats
}.

(** The column sampler and the interaction constraints, seen through
    the two queries made here. *)
Record FeatureFilter := MkFeatureFilter {
  GetFeatureSet : nat -> list Z;
  Query : nat -> Z -> bool
}.

(** The first loop: one query per admitted (node, feature) pair. *)
Definition split_queries (ff : FeatureFilter) (hu : HistUpdater)
    (nodes_set : list ExpandEntry) (tree : RegTree) : list SplitQuery :=
  List.flat_map
    (fun e =>
       map (fun fid => MkSplitQuery (nid e) fid (hist_ hu (nid e)))
           (List.filter (Query ff (nid e)) (GetFeatureSet ff (GetDepth tree (nid e)))))
    nodes_set.

(** The kernel body for one query: [best_splits[i] = snode[nid].best]
    followed by [EnumerateSplit]. *)
Definition evaluate_query (order : list nat) (best0 : SplitEntry) (evaluator : SplitEvaluator)
    (hu : HistUpdater) (gmat : GHistIndexMatrix) (snode : list NodeEntry) (q : SplitQuery)
    : outcome SplitEntry :=
  ne ← read snode (q_nid q);
  Ok (EnumerateSplit_ordered order best0 (sub_group_size_ hu) (cut_Ptrs gmat)
        (cut_Values gmat) (q_hist q) ne (best ne) (q_fid q) (q_nid q) evaluator
        (min_child_weight (param_ hu))).

(** One step of the last loop:
    [snode_host_[nid].best.Update(best_splits_host_[i])]. *)
Definition merge_split (acc : outcome (list NodeEntry)) (qb : SplitQuery * SplitEntry)
    : outcome (list NodeEntry) :=
  s ← acc;
  ne ← read s (q_nid qb.1);
  Ok (<[q_nid qb.1 := set_best ne (Update (best ne) qb.2)]> s).

Definition EvaluateSplits_ordered (order : list nat) (best0 : SplitEntry)
    (ff : FeatureFilter) (evaluator : SplitEvaluator) (hu : HistUpdater)
    (nodes_set : list ExpandEntry) (gmat : GHistIndexMatrix) (tree : RegTree)
    : outcome HistUpdater :=
  let queries := split_queries ff hu nodes_set tree in
  best_splits ← mapM_outcome (evaluate_query order best0 evaluator hu gmat (snode_host_ hu))
                             queries;
  snode ← foldl merge_split (Ok (snode_host_ hu)) (zip queries best_splits);
  Ok (set_snode hu snode []).

Definition EvaluateSplits (best0 : SplitEntry) (ff : FeatureFilter)
    (evaluator : SplitEvaluator) (hu : HistUpdater) (nodes_set : list ExpandEntry)
    (gmat : GHistIndexMatrix) (tree : RegTree) : outcome HistUpdater :=
  EvaluateSplits_ordered (seq 0 (sub_group_size_ hu)) best0 ff evaluator hu nodes_set gmat
    tree.

(** ** Reference quantities used in the statements *)

(** Sum of one component of the histogram over the bins [a .. a+n-1]. *)
Definition range_sum (proj : GradStats -> Z) (hist_data : list GradStats) (a n : nat) : Z :=
  foldr (fun j acc => proj (hist_at hist_data j) + acc) 0 (seq a n).

(** The inclusive sum of the histogram over the bins [ibegin .. i]. *)
Definition left_prefix (hist_data : list GradStats) (ibegin i : nat) : GradStats :=
  MkGradStats (range_sum GetGrad hist_data ibegin (S i - ibegin))
              (range_sum GetHess hist_data ibegin (S i - ibegin)).

(** The candidates a work-item offers in its first [j] iterations. *)
Definition offers_of (sub_group_size ibegin : nat) (cut_val : list Z)
    (hist_data : list GradStats) (snode : NodeEntry) (fid : Z) (nodeID : nat)
    (evaluator : SplitEvaluator) (min_child_weight : Z) (l j : nat)
    : list (nat * SplitEntry) :=
  omap (fun t =>
          let i := (ibegin + l + t * sub_group_size)%nat in
          match offer cut_val snode fid nodeID evaluator min_child_weight i
                      (left_prefix hist_data ibegin i) with
          | Some e => Some (i, e)
          | None => None
          end) (seq 0 j).

(** The order on split entries that [Update] maximises: larger loss
    gain first, then smaller feature id. *)
Definition better_eq (a b : SplitEntry) : Prop :=
  loss_chg b < loss_chg a \/ (loss_chg b = loss_chg a /\ SplitIndex a <= SplitIndex b).

(** The strict part of that order: [a] replaces [b] under [Update]. *)
Definition strictly_better (a b : SplitEntry) : Prop :=
  loss_chg b < loss_chg a \/ (loss_chg b = loss_chg a /\ SplitIndex a < SplitIndex b).

(** The loop invariant of a work-item with local id [l] after [k]
    iterations of the sub-group: it has made [j <= k] iterations
    itself, all inside the bin range; while it is inside the loop it
    has made all [k] and its [sum] is the total of the bins before the
    current chunk; its offers and its [best] are those of its [j]
    positions. *)
Definition lane_inv (best0 : SplitEntry) (sub_group_size ibegin iend : nat)
    (cut_val : list Z) (hist_data : list GradStats) (snode : NodeEntry) (fid : Z)
    (nodeID : nat) (evaluator : SplitEvaluator) (min_child_weight : Z)
    (k l : nat) (ln : Lane) : Prop :=
  local_id ln = l /\
  exists j : nat,
    (j <= k)%nat /\
    lane_i ln = (ibegin + l + j * sub_group_size)%nat /\
    ((j < k)%nat -> (iend <= lane_i ln)%nat) /\
    (forall t : nat, (t < j)%nat -> (ibegin + l + t * sub_group_size < iend)%nat) /\
    ((lane_i ln < iend)%nat ->
       GetGrad (lane_sum ln) = range_sum GetGrad hist_data ibegin (j * sub_group_size) /\
       GetHess (lane_sum ln) = range_sum GetHess hist_data ibegin (j * sub_group_size)) /\
    lane_offers ln = offers_of sub_group_size ibegin cut_val hist_data snode fid nodeID
                       evaluator min_child_weight l j /\
    lane_best ln = foldl Update best0 (map snd (lane_offers ln)).

Definition group_inv (best0 : SplitEntry) (sub_group_size ibegin iend : nat)
    (cut_val : list Z) (hist_data : list GradStats) (snode : NodeEntry) (fid : Z)
    (nodeID : nat) (evaluator : SplitEvaluator) (min_child_weight : Z)
    (k : nat) (lanes : list Lane) : Prop :=
  length lanes = sub_group_size /\
  forall l ln, lanes !! l = Some ln ->
    lane_inv best0 sub_group_size ibegin iend cut_val hist_data snode fid nodeID evaluator
      min_child_weight k l ln.

(** Whether the row-set block of [InitData] keeps row [i]: its Hessian
    is nonnegative and, when subsampling, its Bernoulli draw succeeds. *)
Definition row_kept (dev : Device) (hu : HistUpdater) (gpair : list GradientPair)
    (i : nat) : bool :=
  (0 <=? gp_hess (gpair_at gpair i))
  && (if bool_decide (subsample (param_ hu) < 1)%Qc
      then coin_flip dev (seed_ hu) i (subsample (param_ hu))
      else true).

(** A device runs every work-item of a launch exactly once. *)
Definition runs_every_item (dev : Device) : Prop :=
  forall k n, work_item_order dev k n ≡ₚ seq 0 n.

(** The shape shared by the two compaction kernels: a kept index is
    stored at the counter, which is then incremented. *)
Definition compaction_step (keep : nat -> bool) (st : list nat * nat) (i : nat)
    : list nat * nat :=
  if keep i then (<[st.2 := i]> st.1, S st.2) else st.

(** No missing values: every row of [rows] has exactly one bin in the
    bin range of every feature that has bins. *)
Definition no_missing_values (gmat : GHistIndexMatrix) (rows : list nat) : Prop :=
  forall row f,
    row ∈ rows ->
    (f + 1 < length (cut_Ptrs gmat))%nat ->
    (cut_at (cut_Ptrs gmat) f < cut_at (cut_Ptrs gmat) (f + 1))%nat ->
    length (filter (fun b => (cut_at (cut_Ptrs gmat) f <= b < cut_at (cut_Ptrs gmat) (f + 1))%nat)
                   (row_bins gmat row)) = 1%nat.

(** Every bin id of the rows is a bin of the histogram. *)
Definition bins_inside (gmat : GHistIndexMatrix) (rows : list nat) (nbins : nat) : Prop :=
  forall row b, row ∈ rows -> b ∈ row_bins gmat row -> (b < nbins)%nat.

(** Sum of one component of the gradient pairs of [rows]. *)
Definition rows_sum (proj : GradStats -> Z) (gpair : list GradientPair) (rows : list nat) : Z :=
  foldr (fun row acc => proj (GradStats_of_pair (gpair_at gpair row)) + acc) 0 rows.

(** ** Concrete inputs used in the examples *)

(** A gain of the usual shape, [G^2 / H], in integer arithmetic. *)
Definition demo_gain (s : GradStats) : Z := GetGrad s * GetGrad s / GetHess s.

Definition demo_evaluator : SplitEvaluator :=
  MkSplitEvaluator (fun _ _ l r => demo_gain l + demo_gain r)
                   (fun _ s => - GetGrad s / GetHess s)
                   (fun _ s => demo_gain s).

Definition demo_best0 : SplitEntry := MkSplitEntry 0 0 false 0 GradStats_zero GradStats_zero.

Definition demo_entry0 : NodeEntry := MkNodeEntry GradStats_zero 0 0 demo_best0.

Definition demo_param : TrainParam := MkTrainParam 6 0 kDepthWise 1 kUniform 0.

(** A tree with the root [0] and its children [1] (left) and [2]. *)
Definition demo_tree : RegTree :=
  MkRegTree 3 (fun n => bool_decide (n = 0%nat)) (fun n => 0%nat)
            (fun n => bool_decide (n = 1%nat)) (fun n => if bool_decide (n = 0%nat) then 0%nat else 1%nat).

(** A histogram collection whose [Init] drops every histogram. *)
Definition demo_hist_init (h : nat -> list GradStats) (nbins : nat) : nat -> list GradStats :=
  fun _ => [].

(** A device that runs the work-items in index order and keeps every
    row in the Bernoulli draw. *)
Definition demo_device : Device := MkDevice (fun _ _ _ => true) (fun _ n => seq 0 n).

(** Two features with two bins each; both have their best split at
    their first bin, with the same gain. *)
Definition tie_gmat : GHistIndexMatrix :=
  MkGHistIndexMatrix [0; 2; 4]%nat [10; 20; 30; 40] (fun _ => []).

Definition tie_hist : list GradStats :=
  [MkGradStats 3 1; MkGradStats (-3) 1; MkGradStats 3 1; MkGradStats (-3) 1].

Definition tie_updater : HistUpdater :=
  MkHistUpdater demo_param 0 2 (MkRowSetCollection [] []) kDenseDataZeroBased 0
    (fun _ => tie_hist) [MkNodeEntry (MkGradStats 0 2) 0 0 demo_best0] [].

Definition tie_filter : FeatureFilter := MkFeatureFilter (fun _ => [1; 0]) (fun _ _ => true).

(** Four rows with nonnegative Hessians, and the same rows with the
    Hessian of row 1 negative. *)
Definition demo_gpair : list GradientPair :=
  [MkGradientPair 1 1; MkGradientPair (-1) 1; MkGradientPair 1 1; MkGradientPair (-1) 1].

Definition neg_gpair : list GradientPair :=
  [MkGradientPair 1 1; MkGradientPair (-1) (-1); MkGradientPair 1 1; MkGradientPair (-1) 1].

(** One feature with two bins; rows 0 and 1 fall into bin 0, rows 2
    and 3 into bin 1. *)
Definition demo_gmat : GHistIndexMatrix :=
  MkGHistIndexMatrix [0; 2]%nat [10; 20]
    (fun row => if bool_decide (row < 2)%nat then [0%nat] else [1%nat]).

Definition demo_info : MetaInfo := MkMetaInfo 4 1 4.

Definition demo_updater : HistUpdater :=
  MkHistUpdater demo_param 7 2 (MkRowSetCollection [] []) kSparseData 0
    (fun _ => []) [] [].

(** The same updater asked for gradient-based sampling, without and
    with subsampling. *)
Definition gradient_based_updater (rate : Qc) : HistUpdater :=
  MkHistUpdater (MkTrainParam 6 0 kDepthWise rate kGradientBased 0) 7 2
    (MkRowSetCollection [] []) kSparseData 0 (fun _ => []) [] [].

(** A single worker: the all-reduce returns the local aggregate. *)
Definition single_worker (g : GradStats) : option GradStats := Some g.

(** The root has been split at bin 1: the left child receives
    [(6, 2)], the right child [(-6, 2)]. *)
Definition split_root_updater : HistUpdater :=
  MkHistUpdater demo_param 7 2 (MkRowSetCollection [0; 1; 2; 3]%nat [(0, 4)%nat])
    kSparseData 0 (fun _ => [])
    [MkNodeEntry (MkGradStats 0 4) 0 0
       (MkSplitEntry 36 0 false 20 (MkGradStats 6 2) (MkGradStats (-6) 2))] [].

(** A tree that has only its root, and an updater whose statistics
    array still has the three entries of the previous tree. *)
Definition root_only_tree : RegTree :=
  MkRegTree 1 (fun _ => true) (fun _ => 0%nat) (fun _ => false) (fun _ => 0%nat).

Definition stale_updater : HistUpdater :=
  MkHistUpdater demo_param 7 2 (MkRowSetCollection [0; 1; 2; 3]%nat [(0, 4)%nat])
    kSparseData 0 (fun _ => [])
    [demo_entry0; MkNodeEntry (MkGradStats 6 2) 18 (-3) demo_best0; demo_entry0] [].

(** One feature with four bins, the third of them empty: the splits
    after bin 1 and after bin 2 have the same sums and the same gain. *)
Definition scan_cut_ptr : list nat := [0; 4]%nat.
Definition scan_cut_val : list Z := [10; 20; 30; 40].
Definition scan_hist : list GradStats :=
  [MkGradStats 3 1; MkGradStats 3 1; MkGradStats 0 0; MkGradStats (-6) 2].
Definition scan_node : NodeEntry := MkNodeEntry (MkGradStats 0 4) 0 0 demo_best0.

(** One feature with three bins, the second of them empty. *)
Definition mirror_cut_ptr : list nat := [0; 3]%nat.
Definition mirror_cut_val : list Z := [10; 20; 30].
Definition mirror_hist : list GradStats :=
  [MkGradStats 3 1; MkGradStats 0 0; MkGradStats (-3) 1].
Definition mirror_node : NodeEntry := MkNodeEntry (MkGradStats 0 2) 0 0 demo_best0.

(** A sub-group of two work-items that scanned feature 1: the first
    holds a gain of 5, the second a gain of 18. *)
Definition two_lane_group : list Lane :=
  [MkLane 0 2 GradStats_zero
     (MkSplitEntry 5 1 false 10 (MkGradStats 1 1) (MkGradStats (-1) 1)) [];
   MkLane 1 3 GradStats_zero
     (MkSplitEntry 18 1 false 20 (MkGradStats 3 1) (MkGradStats (-3) 1)) []].

(** ** Reference quantities for the further properties *)

(** The candidate of bin [i]: what the scan offers there when it holds
    the inclusive sum of the bins [ibegin .. i], if anything. *)
Definition candidate_at (cut_ptr : list nat) (cut_val : list Z) (hist_data : list GradStats)
    (snode : NodeEntry) (fid : Z) (nodeID : nat) (evaluator : SplitEvaluator)
    (min_child_weight : Z) (i : nat) : option SplitEntry :=
  offer cut_val snode fid nodeID evaluator min_child_weight i
        (left_prefix hist_data (cut_at cut_ptr (Z.to_nat fid)) i).

(** A plain left-to-right scan over the bins of a feature by a single
    thread: add the bin to the running sum, then offer the candidate. *)
Definition sequential_step (cut_val : list Z) (hist_data : list GradStats)
    (snode : NodeEntry) (fid : Z) (nodeID : nat) (evaluator : SplitEvaluator)
    (min_child_weight : Z) (st : GradStats * SplitEntry) (i : nat) : GradStats * SplitEntry :=
  let sum := GradStats_Add st.1 (GetGrad (hist_at hist_data i)) (GetHess (hist_at hist_data i)) in
  (sum,
   match offer cut_val snode fid nodeID evaluator min_child_weight i sum with
   | Some e => Update st.2 e
   | None => st.2
   end).

Definition sequential_scan (best0 : SplitEntry) (cut_ptr : list nat) (cut_val : list Z)
    (hist_data : list GradStats) (snode : NodeEntry) (fid : Z) (nodeID : nat)
    (evaluator : SplitEvaluator) (min_child_weight : Z) : SplitEntry :=
  let ibegin := cut_at cut_ptr (Z.to_nat fid) in
  let iend := cut_at cut_ptr (Z.to_nat fid + 1) in
  (foldl (sequential_step cut_val hist_data snode fid nodeID evaluator min_child_weight)
         (GradStats_zero, best0) (seq ibegin (iend - ibegin))).2.


(** What the kernel of [EvaluateSplits] computes for a query, given
    the statistics array it reads. *)
Definition query_result (order : list nat) (best0 : SplitEntry) (evaluator : SplitEvaluator)
    (hu : HistUpdater) (gmat : GHistIndexMatrix) (snode : list NodeEntry) (q : SplitQuery)
    : SplitEntry :=
  match snode !! q_nid q with
  | Some ne =>
      EnumerateSplit_ordered order best0 (sub_group_size_ hu) (cut_Ptrs gmat)
        (cut_Values gmat) (q_hist q) ne (best ne) (q_fid q) (q_nid q) evaluator
        (min_child_weight (param_ hu))
  | None => best0
  end.

(** The per-query results that the last loop of [EvaluateSplits] merges
    into node [j], in query order. *)
Definition results_for (j : nat) (qbs : list (SplitQuery * SplitEntry)) : list SplitEntry :=
  map snd (filter (fun qb => q_nid qb.1 = j) qbs).

(** Two nodes, the second with the larger Hessian total; both are
    evaluated over the features 1 and 0 of [tie_gmat]. *)
Definition two_node_updater : HistUpdater :=
  MkHistUpdater demo_param 0 2 (MkRowSetCollection [] []) kDenseDataZeroBased 0
    (fun _ => tie_hist)
    [MkNodeEntry (MkGradStats 0 2) 0 0 demo_best0;
     MkNodeEntry (MkGradStats 0 2) 5 1 demo_best0] [].

(** The same features in the opposite order. *)
Definition tie_filter_rev : FeatureFilter := MkFeatureFilter (fun _ => [0; 1]) (fun _ _ => true).



(** Three features with 3, 0 and 2 bins, then one more with 2 bins. *)
Definition uneven_gmat : GHistIndexMatrix :=
  MkGHistIndexMatrix [0; 3; 3; 5; 7]%nat [1; 2; 3; 4; 5; 6; 7] (fun _ => [0; 3; 5]%nat).

Definition uneven_info : MetaInfo := MkMetaInfo 4 3 12.

(** No row and no bin. *)
Definition empty_gmat : GHistIndexMatrix := MkGHistIndexMatrix [0; 0]%nat [] (fun _ => []).
Definition empty_info : MetaInfo := MkMetaInfo 0 1 0.

(** Unlimited depth with depth-wise growth. *)
Definition unlimited_updater : HistUpdater :=
  MkHistUpdater (MkTrainParam 0 8 kDepthWise 1 kUniform 0) 7 2
    (MkRowSetCollection [] []) kSparseData 0 (fun _ => []) [] [].


(** A collective that fails. *)
Definition failing_collective (g : GradStats) : option GradStats := None.

(** ** The same functions in the arithmetic of [GradientSumT] *)

(** The operations the source applies to its numbers.  [F] stands for
    the template parameter [GradientSumT] and [B] for [bst_float].
    Nothing is assumed of the operations: they may round, overflow and
    produce NaN.  [scan_plus] is [inclusive_scan_over_group(sg, x,
    plus)] as seen by one work-item: it takes the operands of the
    work-items up to and including that one, in local-id order, and
    returns what the scan hands to it; SYCL leaves the order in which
    the operands are combined to the device. *)
Record Arithmetic (F B : Type) := MkArithmetic {
  fzero : F;                 (* GradientSumT(0) *)
  fadd : F -> F -> F;        (* a + b *)
  fsub : F -> F -> F;        (* a - b *)
  fge : F -> F -> bool;      (* a >= b *)
  scan_plus : list F -> F;
  of_float : B -> F;         (* float to GradientSumT *)
  to_bst_float : F -> B;     (* GradientSumT to bst_float *)
  blt : B -> B -> bool;      (* a < b *)
  beq : B -> B -> bool       (* a == b *)
}.
Arguments MkArithmetic {F B} _ _ _ _ _ _ _ _ _.
Arguments fzero {F B} _.
Arguments fadd {F B} _ _ _.
Arguments fsub {F B} _ _ _.
Arguments fge {F B} _ _ _.
Arguments scan_plus {F B} _ _.
Arguments of_float {F B} _ _.
Arguments to_bst_float {F B} _ _.
Arguments blt {F B} _ _ _.
Arguments beq {F B} _ _ _.

(** [GradStats<GradientSumT>] *)
Record GradStatsT (F : Type) := MkGradStatsT {
  GetGradT : F;
  GetHessT : F
}.
Arguments MkGradStatsT {F} _ _.
Arguments GetGradT {F} _.
Arguments GetHessT {F} _.

(** [SplitEntry<GradientSumT>] *)
Record SplitEntryT (F B : Type) := MkSplitEntryT {
  loss_chgT : B;
  SplitIndexT : Z;
  DefaultLeftT : bool;
  split_valueT : B;
  left_sumT : GradStatsT F;
  right_sumT : GradStatsT F
}.
Arguments MkSplitEntryT {F B} _ _ _ _ _ _.
Arguments loss_chgT {F B} _.
Arguments SplitIndexT {F B} _.
Arguments DefaultLeftT {F B} _.
Arguments split_valueT {F B} _.
Arguments left_sumT {F B} _.
Arguments right_sumT {F B} _.

(** [NodeEntry<GradientSumT>] *)
Record NodeEntryT (F B : Type) := MkNodeEntryT {
  statsT : GradStatsT F;
  root_gainT : F;
  weightT : F;
  bestT : SplitEntryT F B
}.
Arguments MkNodeEntryT {F B} _ _ _ _.
Arguments statsT {F B} _.
Arguments root_gainT {F B} _.
Arguments weightT {F B} _.
Arguments bestT {F B} _.

(** The evaluator, seen through the function [EnumerateSplit] calls. *)
Record SplitEvaluatorT (F : Type) := MkSplitEvaluatorT {
  CalcSplitGainT : nat -> Z -> GradStatsT F -> GradStatsT F -> F
}.
Arguments MkSplitEvaluatorT {F} _.
Arguments CalcSplitGainT {F} _ _ _ _ _.

(** A work-item inside the loop of [EnumerateSplit], as [Lane]. *)
Record LaneT (F B : Type) := MkLaneT {
  local_idT : nat;
  lane_iT : nat;
  lane_sumT : GradStatsT F;
  lane_bestT : SplitEntryT F B;
  lane_offersT : list (nat * SplitEntryT F B)
}.
Arguments MkLaneT {F B} _ _ _ _ _.
Arguments local_idT {F B} _.
Arguments lane_iT {F B} _.
Arguments lane_sumT {F B} _.
Arguments lane_bestT {F B} _.
Arguments lane_offersT {F B} _.

Section GradientSumT.

Context {F B : Type} (ar : Arithmetic F B).

Definition GradStatsT_zero : GradStatsT F := MkGradStatsT (fzero ar) (fzero ar).

(** [sum.Add(grad, hess)] *)
Definition GradStatsT_Add (s : GradStatsT F) (grad hess : F) : GradStatsT F :=
  MkGradStatsT (fadd ar (GetGradT s) grad) (fadd ar (GetHessT s) hess).

(** [a += b] *)
Definition GradStatsT_plus (a b : GradStatsT F) : GradStatsT F :=
  GradStatsT_Add a (GetGradT b) (GetHessT b).

(** [a - b] *)
Definition GradStatsT_minus (a b : GradStatsT F) : GradStatsT F :=
  MkGradStatsT (fsub ar (GetGradT a) (GetGradT b)) (fsub ar (GetHessT a) (GetHessT b)).

(** [GradStats<GradientSumT>(gpair.GetGrad(), gpair.GetHess())]; a
    gradient pair is a pair of [float]. *)
Definition GradStatsT_of_pair (p : B * B) : GradStatsT F :=
  MkGradStatsT (of_float ar p.1) (of_float ar p.2).

(** Modelled from the spec: [NeedReplace] and [Update], as above, with
    the comparisons of [bst_float]. *)
Definition NeedReplaceT (this : SplitEntryT F B) (new_loss_chg : B) (split_index : Z) : bool :=
  blt ar (loss_chgT this) new_loss_chg
  || (beq ar (loss_chgT this) new_loss_chg && (split_index <? SplitIndexT this)).

Definition UpdateT (this e : SplitEntryT F B) : SplitEntryT F B :=
  if NeedReplaceT this (loss_chgT e) (SplitIndexT e) then e else this.

Definition Update_argsT (this : SplitEntryT F B) (new_loss_chg : B) (split_index : Z)
    (new_split_value : B) (default_left : bool) (l r : GradStatsT F) : SplitEntryT F B :=
  UpdateT this (MkSplitEntryT new_loss_chg split_index default_left new_split_value l r).

Definition val_atT (cut_val : list B) (i : nat) : B :=
  default (to_bst_float ar (fzero ar)) (cut_val !! i).

Definition hist_atT (hist_data : list (GradStatsT F)) (i : nat) : GradStatsT F :=
  default GradStatsT_zero (hist_data !! i).

(** [inclusive_scan_over_group]: [ops] lists the operand of every
    work-item in local-id order; a work-item that has left the loop
    has none. *)
Definition inclusive_scan_over_groupT (ops : list (option F)) (l : nat) : F :=
  scan_plus ar (omap id (take (S l) ops)).

Definition catch_upT (hist_data : list (GradStatsT F)) (i end_ : nat) (sum : GradStatsT F)
    : GradStatsT F :=
  foldl (fun s j => GradStatsT_Add s (GetGradT (hist_atT hist_data j))
                                     (GetHessT (hist_atT hist_data j)))
        sum (seq (S i) (end_ - S i)).

(** The candidate handed to [best.Update] at bin [i] with left sum
    [sum].  [min_child_weight] is a [float]; the comparison converts
    it to [GradientSumT].  The gain is computed in [GradientSumT] and
    stored as [bst_float]. *)
Definition offerT (cut_val : list B) (snode : NodeEntryT F B) (fid : Z) (nodeID : nat)
    (evaluator : SplitEvaluatorT F) (min_child_weight : B) (i : nat) (sum : GradStatsT F)
    : option (SplitEntryT F B) :=
  if fge ar (GetHessT sum) (of_float ar min_child_weight) then
    let c := GradStatsT_minus (statsT snode) sum in
    if fge ar (GetHessT c) (of_float ar min_child_weight) then
      let loss := to_bst_float ar
                    (fsub ar (CalcSplitGainT evaluator nodeID fid sum c) (root_gainT snode)) in
      let split_pt := val_atT cut_val i in
      Some (MkSplitEntryT loss fid false split_pt sum c)
    else None
  else None.

Definition lane_iterationT (sub_group_size iend : nat) (cut_val : list B)
    (hist_data : list (GradStatsT F)) (snode : NodeEntryT F B) (fid : Z) (nodeID : nat)
    (evaluator : SplitEvaluatorT F) (min_child_weight : B)
    (scan_grad scan_hess : F) (ln : LaneT F B) : LaneT F B :=
  let i := lane_iT ln in
  let sum := GradStatsT_Add (lane_sumT ln) scan_grad scan_hess in
  let cand := offerT cut_val snode fid nodeID evaluator min_child_weight i sum in
  let best' := match cand with
               | Some e => Update_argsT (lane_bestT ln) (loss_chgT e) fid (split_valueT e) false
                                        (left_sumT e) (right_sumT e)
               | None => lane_bestT ln
               end in
  let offers' := match cand with
                 | Some e => lane_offersT ln ++ [(i, e)]
                 | None => lane_offersT ln
                 end in
  let last_iter := bool_decide (iend <= i + sub_group_size)%nat in
  let sum' := if last_iter then sum
              else
                let end0 := (i - local_idT ln + sub_group_size)%nat in
                let end_ := if bool_decide (iend < end0)%nat then iend else end0 in
                catch_upT hist_data i end_ sum in
  MkLaneT (local_idT ln) (i + sub_group_size) sum' best' offers'.

Definition scan_operandT (iend : nat) (hist_data : list (GradStatsT F))
    (proj : GradStatsT F -> F) (ln : LaneT F B) : option F :=
  if bool_decide (lane_iT ln < iend)%nat then Some (proj (hist_atT hist_data (lane_iT ln)))
  else None.

Definition group_iterationT (sub_group_size iend : nat) (cut_val : list B)
    (hist_data : list (GradStatsT F)) (snode : NodeEntryT F B) (fid : Z) (nodeID : nat)
    (evaluator : SplitEvaluatorT F) (min_child_weight : B) (lanes : list (LaneT F B))
    : list (LaneT F B) :=
  let ops_grad := map (scan_operandT iend hist_data GetGradT) lanes in
  let ops_hess := map (scan_operandT iend hist_data GetHessT) lanes in
  map (fun ln =>
         if bool_decide (lane_iT ln < iend)%nat then
           lane_iterationT sub_group_size iend cut_val hist_data snode fid nodeID
             evaluator min_child_weight
             (inclusive_scan_over_groupT ops_grad (local_idT ln))
             (inclusive_scan_over_groupT ops_hess (local_idT ln)) ln
         else ln) lanes.

Fixpoint group_loopT (fuel : nat) (sub_group_size iend : nat) (cut_val : list B)
    (hist_data : list (GradStatsT F)) (snode : NodeEntryT F B) (fid : Z) (nodeID : nat)
    (evaluator : SplitEvaluatorT F) (min_child_weight : B) (lanes : list (LaneT F B))
    : list (LaneT F B) :=
  match fuel with
  | O => lanes
  | S fuel' =>
      if existsb (fun ln => bool_decide (lane_iT ln < iend)%nat) lanes then
        group_loopT fuel' sub_group_size iend cut_val hist_data snode fid nodeID evaluator
          min_child_weight
          (group_iterationT sub_group_size iend cut_val hist_data snode fid nodeID evaluator
             min_child_weight lanes)
      else lanes
  end.

Definition initial_lanesT (best0 : SplitEntryT F B) (sub_group_size ibegin : nat)
    : list (LaneT F B) :=
  map (fun l => MkLaneT l (ibegin + l) GradStatsT_zero best0 []) (seq 0 sub_group_size).

Definition scan_lanesT (best0 : SplitEntryT F B) (sub_group_size : nat) (cut_ptr : list nat)
    (cut_val : list B) (hist_data : list (GradStatsT F)) (snode : NodeEntryT F B) (fid : Z)
    (nodeID : nat) (evaluator : SplitEvaluatorT F) (min_child_weight : B)
    : list (LaneT F B) :=
  let ibegin := cut_at cut_ptr (Z.to_nat fid) in
  let iend := cut_at cut_ptr (Z.to_nat fid + 1) in
  group_loopT (iend - ibegin) sub_group_size iend cut_val hist_data snode fid nodeID
    evaluator min_child_weight (initial_lanesT best0 sub_group_size ibegin).

(** [reduce_over_group(sg, x, maximum<>())]; [maximum] returns its
    second argument when the first is less than it. *)
Definition reduce_over_group_maxT (xs : list B) : B :=
  match xs with
  | [] => to_bst_float ar (fzero ar)
  | x :: xs' => foldl (fun a b => if blt ar a b then b else a) x xs'
  end.

Definition total_loss_chgT (lanes : list (LaneT F B)) : B :=
  reduce_over_group_maxT (map (fun ln => loss_chgT (lane_bestT ln)) lanes).

Definition total_split_indexT (lanes : list (LaneT F B)) : Z :=
  let total := total_loss_chgT lanes in
  reduce_over_group_min
    (map (fun ln => if beq ar (loss_chgT (lane_bestT ln)) total
                    then SplitIndexT (lane_bestT ln) else 2 ^ 31 - 1) lanes).

Definition is_group_winnerT (lanes : list (LaneT F B)) (ln : LaneT F B) : bool :=
  beq ar (loss_chgT (lane_bestT ln)) (total_loss_chgT lanes)
  && (SplitIndexT (lane_bestT ln) =? total_split_indexT lanes).

Definition group_commitT (order : list nat) (lanes : list (LaneT F B))
    (p_best : SplitEntryT F B) : SplitEntryT F B :=
  foldl (fun pb l =>
           match lanes !! l with
           | Some ln => if is_group_winnerT lanes ln then UpdateT pb (lane_bestT ln) else pb
           | None => pb
           end) p_best order.

Definition EnumerateSplit_orderedT (order : list nat) (best0 : SplitEntryT F B)
    (sub_group_size : nat) (cut_ptr : list nat) (cut_val : list B)
    (hist_data : list (GradStatsT F)) (snode : NodeEntryT F B) (p_best : SplitEntryT F B)
    (fid : Z) (nodeID : nat) (evaluator : SplitEvaluatorT F) (min_child_weight : B)
    : SplitEntryT F B :=
  group_commitT order
    (scan_lanesT best0 sub_group_size cut_ptr cut_val hist_data snode fid nodeID evaluator
       min_child_weight) p_best.

Definition EnumerateSplitT (best0 : SplitEntryT F B) (sub_group_size : nat)
    (cut_ptr : list nat) (cut_val : list B) (hist_data : list (GradStatsT F))
    (snode : NodeEntryT F B) (p_best : SplitEntryT F B) (fid : Z) (nodeID : nat)
    (evaluator : SplitEvaluatorT F) (min_child_weight : B) : SplitEntryT F B :=
  EnumerateSplit_orderedT (seq 0 sub_group_size) best0 sub_group_size cut_ptr cut_val
    hist_data snode p_best fid nodeID evaluator min_child_weight.

(** *** Histograms and the root aggregate *)

Definition gpair_atT (gpair : list (B * B)) (i : nat) : B * B :=
  default (to_bst_float ar (fzero ar), to_bst_float ar (fzero ar)) (gpair !! i).

(** Modelled from the spec, as [BuildHist] above.  The rows are added
    in the order of the list; the source leaves the order of the
    concurrent additions to the device. *)
Definition add_rowT (gpair : list (B * B)) (row_bins : nat -> list nat)
    (h : list (GradStatsT F)) (row : nat) : list (GradStatsT F) :=
  foldl (fun h bin => alter (fun s => GradStatsT_plus s (GradStatsT_of_pair (gpair_atT gpair row)))
                            bin h) h (row_bins row).

Definition BuildHistT (gpair : list (B * B)) (rows : list nat) (gmat : GHistIndexMatrix)
    (nbins : nat) : list (GradStatsT F) :=
  foldl (add_rowT gpair (row_bins gmat)) (replicate nbins GradStatsT_zero) rows.

(** The dense branch of [InitNewNode] for the root: [iend - ibegin]
    entries of the histogram, a [uint32_t] difference, are copied and
    added up from a zero [GradStats]. *)
Definition root_sum_denseT (hist : list (GradStatsT F)) (row_ptr : list nat)
    (fid_least_bins : nat) : GradStatsT F :=
  let ibegin := cut_at row_ptr fid_least_bins in
  let ets := map (hist_atT hist) (seq ibegin (nbins_of row_ptr fid_least_bins)) in
  foldl GradStatsT_plus GradStatsT_zero ets.

(** The sparse branch: the reduction over the gradient pairs of the
    rows, combined in the order of the list; the source leaves the
    order to [sycl::reduction]. *)
Definition root_sum_rowsT (gpair : list (B * B)) (rows : list nat) : GradStatsT F :=
  foldl (fun sum row_idx => GradStatsT_plus sum (GradStatsT_of_pair (gpair_atT gpair row_idx)))
        GradStatsT_zero rows.

(** *** Reference quantities *)

(** The running sum of the bins [a .. a+n-1], accumulated from zero
    from left to right. *)
Definition running_sumT (hist_data : list (GradStatsT F)) (a n : nat) : GradStatsT F :=
  foldl (fun s j => GradStatsT_Add s (GetGradT (hist_atT hist_data j))
                                     (GetHessT (hist_atT hist_data j)))
        GradStatsT_zero (seq a n).

(** What the two scans hand to the work-item with local id [l] in the
    iteration whose chunk starts at bin [b]. *)
Definition chunk_scanT (hist_data : list (GradStatsT F)) (b l : nat) : GradStatsT F :=
  MkGradStatsT
    (scan_plus ar (map (fun j => GetGradT (hist_atT hist_data j)) (seq b (S l))))
    (scan_plus ar (map (fun j => GetHessT (hist_atT hist_data j)) (seq b (S l)))).

(** The sum that the work-item with local id [l] holds on entry to its
    iteration number [k]: zero at first, then the sum of the previous
    iteration after the scan and the serial catch-up to the end of the
    chunk. *)
Fixpoint lane_carryT (sub_group_size ibegin : nat) (hist_data : list (GradStatsT F))
    (l k : nat) : GradStatsT F :=
  match k with
  | O => GradStatsT_zero
  | S k' =>
      let b := (ibegin + k' * sub_group_size)%nat in
      catch_upT hist_data (b + l) (b + sub_group_size)
        (GradStatsT_plus (lane_carryT sub_group_size ibegin hist_data l k')
                         (chunk_scanT hist_data b l))
  end.

(** The left sum that work-item holds at its position number [k], the
    bin [ibegin + l + k * sub_group_size]. *)
Definition lane_left_sumT (sub_group_size ibegin : nat) (hist_data : list (GradStatsT F))
    (l k : nat) : GradStatsT F :=
  GradStatsT_plus (lane_carryT sub_group_size ibegin hist_data l k)
                  (chunk_scanT hist_data (ibegin + k * sub_group_size) l).

(** The left sum held at bin [i], by the work-item that visits it. *)
Definition left_accT (sub_group_size ibegin : nat) (hist_data : list (GradStatsT F))
    (i : nat) : GradStatsT F :=
  lane_left_sumT sub_group_size ibegin hist_data
    ((i - ibegin) mod sub_group_size) ((i - ibegin) / sub_group_size).

Definition offers_ofT (sub_group_size ibegin : nat) (cut_val : list B)
    (hist_data : list (GradStatsT F)) (snode : NodeEntryT F B) (fid : Z) (nodeID : nat)
    (evaluator : SplitEvaluatorT F) (min_child_weight : B) (l j : nat)
    : list (nat * SplitEntryT F B) :=
  omap (fun t =>
          let i := (ibegin + l + t * sub_group_size)%nat in
          match offerT cut_val snode fid nodeID evaluator min_child_weight i
                       (lane_left_sumT sub_group_size ibegin hist_data l t) with
          | Some e => Some (i, e)
          | None => None
          end) (seq 0 j).

Definition lane_invT (best0 : SplitEntryT F B) (sub_group_size ibegin iend : nat)
    (cut_val : list B) (hist_data : list (GradStatsT F)) (snode : NodeEntryT F B) (fid : Z)
    (nodeID : nat) (evaluator : SplitEvaluatorT F) (min_child_weight : B)
    (k l : nat) (ln : LaneT F B) : Prop :=
  local_idT ln = l /\
  exists j : nat,
    (j <= k)%nat /\
    lane_iT ln = (ibegin + l + j * sub_group_size)%nat /\
    ((j < k)%nat -> (iend <= lane_iT ln)%nat) /\
    (forall t : nat, (t < j)%nat -> (ibegin + l + t * sub_group_size < iend)%nat) /\
    ((lane_iT ln < iend)%nat ->
       lane_sumT ln = lane_carryT sub_group_size ibegin hist_data l j) /\
    lane_offersT ln = offers_ofT sub_group_size ibegin cut_val hist_data snode fid nodeID
                        evaluator min_child_weight l j /\
    lane_bestT ln = foldl UpdateT best0 (map snd (lane_offersT ln)).

Definition group_invT (best0 : SplitEntryT F B) (sub_group_size ibegin iend : nat)
    (cut_val : list B) (hist_data : list (GradStatsT F)) (snode : NodeEntryT F B) (fid : Z)
    (nodeID : nat) (evaluator : SplitEvaluatorT F) (min_child_weight : B)
    (k : nat) (lanes : list (LaneT F B)) : Prop :=
  length lanes = sub_group_size /\
  forall l ln, lanes !! l = Some ln ->
    lane_invT best0 sub_group_size ibegin iend cut_val hist_data snode fid nodeID evaluator
      min_child_weight k l ln.

(** *** Exact sums *)

(** An exact statistics pair, with its components represented in
    [GradientSumT] by [emb]. *)
Definition embedT (emb : Z -> F) (s : GradStats) : GradStatsT F :=
  MkGradStatsT (emb (GetGrad s)) (emb (GetHess s)).

Definition embed_pair (embB : Z -> B) (p : GradientPair) : B * B :=
  (embB (gp_grad p), embB (gp_hess p)).

(** No rounding up to [bound]: [emb] represents the integers of
    absolute value at most [bound] in [GradientSumT] and [embB] in
    [float], the conversion maps one representation to the other, and
    additions and scans whose operands and results stay within the
    bound are exact. *)
Record exact_embedding (emb : Z -> F) (embB : Z -> B) (bound : Z) : Prop := MkExactEmbedding {
  emb_zero : emb 0 = fzero ar;
  emb_add : forall x y,
    Z.abs x <= bound -> Z.abs y <= bound -> Z.abs (x + y) <= bound ->
    fadd ar (emb x) (emb y) = emb (x + y);
  emb_scan : forall xs,
    xs <> [] -> foldr (fun x acc => Z.abs x + acc) 0 xs <= bound ->
    scan_plus ar (map emb xs) = emb (foldr Z.add 0 xs);
  emb_of_float : forall x, Z.abs x <= bound -> of_float ar (embB x) = emb x
}.

End GradientSumT.

(** The sum of the absolute values of one component of the histogram
    over the bins [a .. a+n-1], and of the gradient pairs of [rows]. *)
Definition abs_range_sum (proj : GradStats -> Z) (hist_data : list GradStats) (a n : nat) : Z :=
  foldr (fun j acc => Z.abs (proj (hist_at hist_data j)) + acc) 0 (seq a n).

Definition abs_rows_sum (proj : GradStats -> Z) (gpair : list GradientPair) (rows : list nat)
    : Z :=
  foldr (fun row acc => Z.abs (proj (GradStats_of_pair (gpair_at gpair row))) + acc) 0 rows.

(** The histogram [hT], held in [GradientSumT], carries on the bins
    [a .. a+n-1] the entries of the exact histogram [hz]. *)
Definition exact_on_range {F B : Type} (ar : Arithmetic F B) (emb : Z -> F)
    (hT : list (GradStatsT F)) (hz : list GradStats) (a n : nat) : Prop :=
  length hT = length hz /\
  forall b, (a <= b < a + n)%nat -> hist_atT ar hT b = embedT emb (hist_at hz b).

(** *** Single precision *)

(** [GradientSumT = float]: IEEE 754 binary32 with round to nearest
    even, as specified by the standard library; [bst_float] is the
    same type and the conversions are the identity.  The scan combines
    its operands from left to right. *)
Definition fold_plus {F : Type} (zero : F) (add : F -> F -> F) (xs : list F) : F :=
  match xs with
  | [] => zero
  | x :: xs' => foldl add x xs'
  end.

Definition binary32 : Arithmetic spec_float spec_float :=
  MkArithmetic (S754_zero false) (SFadd 24 128) (SFsub 24 128)
    (fun a b => SFleb b a)
    (fold_plus (S754_zero false) (SFadd 24 128))
    (fun x => x) (fun x => x) SFltb SFeqb.

#[global] Instance spec_float_eq_dec : EqDecision spec_float.
Proof. solve_decision. Defined.

(** The [float] nearest to an integer. *)
Definition Z2F (z : Z) : spec_float := binary_normalize 24 128 z 0 false.

(** The integers from [-bound] to [bound]. *)
Definition small_ints (bound : nat) : list Z :=
  map (fun n => Z.of_nat n - Z.of_nat bound) (seq 0 (2 * bound + 1)).

(** The gain [G_L^2 / H_L + G_R^2 / H_R] in single precision. *)
Definition demo_gain32 (s : GradStatsT spec_float) : spec_float :=
  SFdiv 24 128 (SFmul 24 128 (GetGradT s) (GetGradT s)) (GetHessT s).

Definition demo_evaluator32 : SplitEvaluatorT spec_float :=
  MkSplitEvaluatorT (fun _ _ l r => SFadd 24 128 (demo_gain32 l) (demo_gain32 r)).

Definition demo_best32 : SplitEntryT spec_float spec_float :=
  MkSplitEntryT (Z2F 0) 0 false (Z2F 0) (GradStatsT_zero binary32) (GradStatsT_zero binary32).

(** [scan_hist] and [scan_node] in single precision. *)
Definition scan_hist32 : list (GradStatsT spec_float) := map (embedT Z2F) scan_hist.

Definition scan_node32 : NodeEntryT spec_float spec_float :=
  MkNodeEntryT (embedT Z2F (MkGradStats 0 4)) (Z2F 0) (Z2F 0) demo_best32.

Definition scan_cut_val32 : list spec_float := map Z2F scan_cut_val.

(** One feature with four bins whose gradients are [2^24, 0, 1, 1]:
    the sum [2^24 + 1] is not a [float]. *)
Definition rounding_hist : list GradStats :=
  [MkGradStats 16777216 1; MkGradStats 0 0; MkGradStats 1 0; MkGradStats 1 0].

Definition rounding_hist32 : list (GradStatsT spec_float) := map (embedT Z2F) rounding_hist.

Definition rounding_node32 : NodeEntryT spec_float spec_float :=
  MkNodeEntryT (embedT Z2F (MkGradStats 16777218 2)) (Z2F 0) (Z2F 0) demo_best32.

(** One feature with three bins whose Hessians are [2^24, 1, 1], and a
    node whose children must each have a Hessian sum of [2^24 + 2]. *)
Definition heavy_hist : list GradStats :=
  [MkGradStats 1 16777216; MkGradStats 1 1; MkGradStats 1 1].

Definition heavy_hist32 : list (GradStatsT spec_float) := map (embedT Z2F) heavy_hist.

Definition heavy_node32 : NodeEntryT spec_float spec_float :=
  MkNodeEntryT (embedT Z2F (MkGradStats 6 33554436)) (Z2F 0) (Z2F 0) demo_best32.

(** Three rows and one feature with two bins: row 0 falls into bin 0,
    rows 1 and 2 into bin 1; the gradients are [2^24, 1, 1]. *)
Definition skew_gmat : GHistIndexMatrix :=
  MkGHistIndexMatrix [0; 2]%nat [10; 20]
    (fun row => if bool_decide (row < 1)%nat then [0%nat] else [1%nat]).

Definition skew_info : MetaInfo := MkMetaInfo 3 1 3.

Definition skew_gpair : list GradientPair :=
  [MkGradientPair 16777216 1; MkGradientPair 1 1; MkGradientPair 1 1].

Definition skew_gpair32 : list (spec_float * spec_float) := map (embed_pair Z2F) skew_gpair.

Definition demo_gpair32 : list (spec_float * spec_float) := map (embed_pair Z2F) demo_gpair.

(** * Properties *)

(** Unfolding [InitData]: the row-set block does not read the histogram
    collection. *)
Ltac unfold_InitData :=
  unfold InitData; cbv zeta;
  change (init_row_set ?d (set_hist ?h _) ?g ?i) with (init_row_set d h g i).

Ltac unfold_InitData_in H :=
  unfold InitData in H; cbv zeta in H;
  change (init_row_set ?d (set_hist ?h _) ?g ?i) with (init_row_set d h g i) in H.


(** ** Split entries *)

Lemma Update_cases this e :
  Update this e = e /\ (loss_chg this < loss_chg e \/
                        (loss_chg this = loss_chg e /\ SplitIndex e < SplitIndex this))
  \/ Update this e = this /\ better_eq this e.
Proof.
  unfold Update, NeedReplace, better_eq.
  destruct (Z.ltb_spec (loss_chg this) (loss_chg e)); simpl; [left; auto|].
  destruct (Z.eqb_spec (loss_chg this) (loss_chg e)); simpl.
  - destruct (Z.ltb_spec (SplitIndex e) (SplitIndex this)); [left; auto|].
    right. split; [done|]. right. split; [done|lia].
  - right. split; [done|]. left. lia.
Qed.

Lemma better_eq_refl a : better_eq a a.
Proof. right. split; [done|lia]. Qed.

Lemma better_eq_trans a b c : better_eq a b -> better_eq b c -> better_eq a c.
Proof. unfold better_eq. intros [?|[? ?]] [?|[? ?]]; [left; lia ..|right; split; lia]. Qed.

Lemma Update_better_l this e : better_eq (Update this e) this.
Proof.
  destruct (Update_cases this e) as [[-> H]|[-> _]]; [|apply better_eq_refl].
  unfold better_eq. destruct H as [?|[? ?]]; [left; lia|right; split; lia].
Qed.

Lemma Update_better_r this e : better_eq (Update this e) e.
Proof. destruct (Update_cases this e) as [[-> _]|[-> H]]; [apply better_eq_refl|done]. Qed.

Lemma Update_choice this e : Update this e = this \/ Update this e = e.
Proof. unfold Update. destruct (NeedReplace _ _ _); auto. Qed.

(** Folding [Update] over candidates returns the start entry or one of
    the candidates. *)
Lemma foldl_Update_choice (l : list SplitEntry) b :
  foldl Update b l = b \/ foldl Update b l ∈ l.
Proof.
  revert b. induction l as [|e l IH]; intros b; simpl; [by left|].
  destruct (IH (Update b e)) as [H|H].
  - rewrite H. destruct (Update_choice b e) as [->| ->]; [by left|right; left].
  - right. by right.
Qed.

(** ** The scan loop of EnumerateSplit *)

Lemma GradStats_eq a b : GetGrad a = GetGrad b -> GetHess a = GetHess b -> a = b.
Proof. destruct a, b; simpl; congruence. Qed.

Lemma range_sum_app proj h a n m :
  range_sum proj h a (n + m) = range_sum proj h a n + range_sum proj h (a + n) m.
Proof.
  unfold range_sum. rewrite seq_app, foldr_app.
  generalize (foldr (fun j acc => proj (hist_at h j) + acc) 0 (seq (a + n) m)).
  generalize (seq a n). intros l z. induction l as [|x l IH]; simpl; lia.
Qed.

Lemma range_sum_0 proj h a : range_sum proj h a 0 = 0.
Proof. done. Qed.

Lemma foldl_Add_proj (g h : nat -> Z) (l : list nat) s :
  GetGrad (foldl (fun s j => GradStats_Add s (g j) (h j)) s l)
    = GetGrad s + foldr (fun j acc => g j + acc) 0 l
  /\ GetHess (foldl (fun s j => GradStats_Add s (g j) (h j)) s l)
    = GetHess s + foldr (fun j acc => h j + acc) 0 l.
Proof.
  revert s. induction l as [|x l IH]; intros s; simpl; [lia|].
  destruct (IH (GradStats_Add s (g x) (h x))) as [-> ->]. simpl. lia.
Qed.

Lemma catch_up_sum h i e s :
  catch_up h i e s
  = MkGradStats (GetGrad s + range_sum GetGrad h (S i) (e - S i))
                (GetHess s + range_sum GetHess h (S i) (e - S i)).
Proof.
  unfold catch_up, range_sum.
  destruct (foldl_Add_proj (fun j => GetGrad (hist_at h j)) (fun j => GetHess (hist_at h j))
              (seq (S i) (e - S i)) s) as [Hg Hh].
  by apply GradStats_eq.
Qed.

Lemma scan_prefix (ops : list (option Z)) (n : nat) (g : nat -> Z) :
  (forall l', (l' < n)%nat -> ops !! l' = Some (Some (g l'))) ->
  foldr (fun o acc => default 0 o + acc) 0 (take n ops)
  = foldr (fun l' acc => g l' + acc) 0 (seq 0 n).
Proof.
  intros H.
  assert (take n ops = (fun l' => Some (g l')) <$> seq 0 n) as ->.
  { apply list_eq. intros i. rewrite list_lookup_fmap.
    destruct (decide (i < n)%nat) as [Hi|Hi].
    - rewrite lookup_take_lt by done. rewrite H by done.
      rewrite lookup_seq_lt by done. done.
    - rewrite lookup_take_ge by lia. rewrite lookup_seq_ge by lia. done. }
  by rewrite foldr_fmap.
Qed.

Lemma range_sum_shift proj h a n :
  range_sum proj h a n = foldr (fun l' acc => proj (hist_at h (a + l')%nat) + acc) 0 (seq 0 n).
Proof.
  unfold range_sum. replace (seq a n) with (Nat.add a <$> seq 0 n).
  - by rewrite foldr_fmap.
  - rewrite fmap_add_seq. f_equal. lia.
Qed.

Section ScanLoop.

Context (best0 : SplitEntry) (sgs ibegin iend : nat) (cut_val : list Z)
  (hist_data : list GradStats) (snode : NodeEntry) (fid : Z) (nodeID : nat)
  (evaluator : SplitEvaluator) (mcw : Z).
Hypothesis sgs_pos : (0 < sgs)%nat.

Local Abbreviation Inv := (group_inv best0 sgs ibegin iend cut_val hist_data snode fid nodeID
                         evaluator mcw).
Local Abbreviation LInv := (lane_inv best0 sgs ibegin iend cut_val hist_data snode fid nodeID
                          evaluator mcw).
Local Abbreviation offers := (offers_of sgs ibegin cut_val hist_data snode fid nodeID
                            evaluator mcw).
Local Abbreviation step := (group_iteration sgs iend cut_val hist_data snode fid nodeID
                          evaluator mcw).

Lemma initial_lanes_inv : Inv 0%nat (initial_lanes best0 sgs ibegin).
Proof.
  unfold initial_lanes. split; [by rewrite length_map, length_seq|].
  intros l ln Hl. rewrite list_lookup_fmap in Hl.
  destruct (seq 0 sgs !! l) as [x|] eqn:Hx; [|done]. simpl in Hl.
  apply lookup_seq in Hx as [-> Hlt]. injection Hl as <-.
  split; [done|]. exists 0%nat. simpl.
  repeat split; try done; try lia.
Qed.

Lemma offers_of_S l j :
  offers l (S j)
  = offers l j ++
    match offer cut_val snode fid nodeID evaluator mcw (ibegin + l + j * sgs)
                (left_prefix hist_data ibegin (ibegin + l + j * sgs)) with
    | Some e => [((ibegin + l + j * sgs)%nat, e)]
    | None => []
    end.
Proof.
  unfold offers_of. rewrite seq_S, omap_app. simpl.
  by destruct (offer _ _ _ _ _ _ _ _).
Qed.

(** In iteration [k], a work-item inside the loop receives from the
    scan the sum of the first [l + 1] bins of the current chunk. *)
Lemma scan_value proj k lanes l ln :
  Inv k lanes -> lanes !! l = Some ln -> (lane_i ln < iend)%nat ->
  lane_i ln = (ibegin + l + k * sgs)%nat /\
  inclusive_scan_over_group (map (scan_operand iend hist_data proj) lanes) l
  = range_sum proj hist_data (ibegin + k * sgs) (S l).
Proof.
  intros [Hlen Hall] Hl Hact.
  destruct (Hall l ln Hl) as (_ & j & Hjk & Hi & Hdone & _).
  assert (j = k) as -> by (destruct (decide (j < k)%nat) as [Hlt|]; [specialize (Hdone Hlt)|]; lia).
  split; [done|].
  unfold inclusive_scan_over_group. rewrite range_sum_shift.
  apply scan_prefix. intros l' Hl'.
  assert (l' < length lanes)%nat as Hlt by (apply lookup_lt_Some in Hl; lia).
  destruct (lookup_lt_is_Some_2 lanes l' Hlt) as [ln' Hln'].
  rewrite list_lookup_fmap, Hln'. simpl. f_equal.
  destruct (Hall l' ln' Hln') as (_ & j' & Hj'k & Hi' & Hdone' & _).
  assert (j' = k) as ->.
  { destruct (decide (j' < k)%nat) as [Hlt'|]; [|lia].
    specialize (Hdone' Hlt'). nia. }
  unfold scan_operand. rewrite bool_decide_true by lia.
  do 3 f_equal. lia.
Qed.

Lemma lane_iteration_inv k lanes l ln :
  Inv k lanes -> lanes !! l = Some ln -> (lane_i ln < iend)%nat ->
  LInv (S k) l
    (lane_iteration sgs iend cut_val hist_data snode fid nodeID evaluator mcw
       (inclusive_scan_over_group (map (scan_operand iend hist_data GetGrad) lanes)
          (local_id ln))
       (inclusive_scan_over_group (map (scan_operand iend hist_data GetHess) lanes)
          (local_id ln)) ln).
Proof.
  intros HInv Hl Hact.
  destruct (scan_value GetGrad k lanes l ln HInv Hl Hact) as [Hi Hsg].
  destruct (scan_value GetHess k lanes l ln HInv Hl Hact) as [_ Hsh].
  destruct HInv as [Hlen Hall].
  destruct (Hall l ln Hl) as (Hid & j & Hjk & Hij & Hdone & Hpos & Hsum & Hoff & Hbest).
  assert (j = k) as -> by nia.
  destruct (Hsum Hact) as [Hg Hh].
  rewrite Hid, Hsg, Hsh.
  set (sum := GradStats_Add (lane_sum ln)
                (range_sum GetGrad hist_data (ibegin + k * sgs) (S l))
                (range_sum GetHess hist_data (ibegin + k * sgs) (S l))).
  assert (sum = left_prefix hist_data ibegin (lane_i ln)) as Hsumeq.
  { unfold sum, left_prefix. apply GradStats_eq; simpl.
    - rewrite Hg. replace (S (lane_i ln) - ibegin)%nat with (k * sgs + S l)%nat by lia.
      by rewrite range_sum_app.
    - rewrite Hh. replace (S (lane_i ln) - ibegin)%nat with (k * sgs + S l)%nat by lia.
      by rewrite range_sum_app. }
  unfold lane_iteration. fold sum. rewrite Hsumeq.
  split; [done|]. exists (S k). simpl.
  split; [lia|]. split; [lia|]. split; [lia|].
  split. { intros t Ht. destruct (decide (t = k)) as [->|]; [lia|]. apply Hpos. lia. }
  split.
  { intros Hnext. rewrite bool_decide_false by lia.
    rewrite bool_decide_false by lia. rewrite catch_up_sum. simpl.
    assert (l < sgs)%nat as Hlt by (apply lookup_lt_Some in Hl; lia).
    rewrite Hid.
    replace (S (lane_i ln) - ibegin)%nat with (k * sgs + S l)%nat by lia.
    replace (lane_i ln - l + sgs - S (lane_i ln))%nat with (sgs - S l)%nat by lia.
    replace (sgs + k * sgs)%nat with ((k * sgs + S l) + (sgs - S l))%nat by lia.
    rewrite !(range_sum_app _ _ ibegin (k * sgs + S l)).
    replace (ibegin + (k * sgs + S l))%nat with (S (lane_i ln)) by lia. done. }
  rewrite offers_of_S, <- Hoff, <- Hi.
  destruct (offer _ _ _ _ _ _ _ _) as [e|] eqn:He.
  - split; [done|]. rewrite map_app, foldl_app. simpl. rewrite <- Hbest.
    unfold Update_args. f_equal.
    unfold offer in He. repeat case_match; try done. by injection He as <-.
  - split; [by rewrite app_nil_r|done].
Qed.

Lemma group_iteration_inv k lanes : Inv k lanes -> Inv (S k) (step lanes).
Proof.
  intros HInv. split.
  { unfold group_iteration. rewrite length_map. apply HInv. }
  intros l ln' Hl. unfold group_iteration in Hl. rewrite list_lookup_fmap in Hl.
  destruct (lanes !! l) as [ln|] eqn:Hln; [|done]. simpl in Hl. injection Hl as <-.
  case_bool_decide as Hact.
  - by apply lane_iteration_inv.
  - destruct HInv as [_ Hall].
    destruct (Hall l ln Hln) as (Hid & j & Hjk & Hij & Hdone & Hpos & Hsum & Hoff & Hbest).
    split; [done|]. exists j. repeat split; try done; try lia.
Qed.

(** The loop reaches its exit: every work-item has left the bin range,
    and the invariant holds for the number of iterations made. *)
Lemma group_loop_inv fuel k lanes :
  Inv k lanes -> (iend - ibegin <= k + fuel)%nat ->
  exists k', Inv k' (group_loop fuel sgs iend cut_val hist_data snode fid nodeID evaluator
                       mcw lanes) /\
    forall ln, ln ∈ group_loop fuel sgs iend cut_val hist_data snode fid nodeID evaluator
                      mcw lanes -> (iend <= lane_i ln)%nat.
Proof.
  revert k lanes. induction fuel as [|fuel IH]; intros k lanes HInv Hfuel; simpl.
  - exists k. split; [done|]. intros ln Hin.
    apply list_elem_of_lookup in Hin as [l Hl].
    destruct HInv as [_ Hall].
    destruct (Hall l ln Hl) as (_ & j & Hjk & Hij & Hdone & _).
    destruct (decide (j < k)%nat) as [Hlt|]; [by apply Hdone|]. nia.
  - destruct (existsb _ lanes) eqn:Hex.
    + apply (IH (S k)); [by apply group_iteration_inv|lia].
    + exists k. split; [done|]. intros ln Hin.
      destruct (decide (iend <= lane_i ln)%nat) as [|Hn]; [done|].
      assert (existsb (fun ln => bool_decide (lane_i ln < iend)%nat) lanes = true) as Ht.
      { apply existsb_exists. exists ln. split; [by apply list_elem_of_In|].
        apply bool_decide_eq_true. lia. }
      congruence.
Qed.

End ScanLoop.

(** What every work-item holds when the loop of [EnumerateSplit] is
    over: it has visited exactly its positions
    [ibegin + l, ibegin + l + sgs, ...] below [iend]. *)
Lemma scan_lanes_final best0 sgs cut_ptr cut_val hist_data snode fid nodeID evaluator mcw :
  (0 < sgs)%nat ->
  let ibegin := cut_at cut_ptr (Z.to_nat fid) in
  let iend := cut_at cut_ptr (Z.to_nat fid + 1) in
  let lanes := scan_lanes best0 sgs cut_ptr cut_val hist_data snode fid nodeID evaluator mcw in
  length lanes = sgs /\
  forall l ln, lanes !! l = Some ln ->
    exists j : nat,
      (forall t : nat, (t < j)%nat <-> (ibegin + l + t * sgs < iend)%nat) /\
      lane_offers ln = offers_of sgs ibegin cut_val hist_data snode fid nodeID evaluator mcw l j /\
      lane_best ln = foldl Update best0 (map snd (lane_offers ln)) /\
      local_id ln = l.
Proof.
  intros Hpos ibegin iend lanes.
  destruct (group_loop_inv best0 sgs ibegin iend cut_val hist_data snode fid nodeID
              evaluator mcw Hpos (iend - ibegin) 0 (initial_lanes best0 sgs ibegin))
    as (k & [Hlen Hall] & Hexit).
  { by apply initial_lanes_inv. }
  { lia. }
  fold (scan_lanes best0 sgs cut_ptr cut_val hist_data snode fid nodeID evaluator mcw)
    in Hlen, Hall, Hexit.
  fold lanes in Hlen, Hall, Hexit.
  split; [done|]. intros l ln Hl.
  destruct (Hall l ln Hl) as (Hid & j & Hjk & Hij & Hdone & Hin & Hsum & Hoff & Hbest).
  assert (iend <= lane_i ln)%nat as Hout by (apply Hexit; eapply list_elem_of_lookup_2, Hl).
  exists j. repeat split; try done.
  - apply Hin.
  - intros Ht. destruct (decide (t < j)%nat); [done|]. nia.
Qed.

Lemma offers_of_elem sgs ibegin cut_val hist_data snode fid nodeID evaluator mcw l j i e :
  (i, e) ∈ offers_of sgs ibegin cut_val hist_data snode fid nodeID evaluator mcw l j <->
  exists t : nat, (t < j)%nat /\ i = (ibegin + l + t * sgs)%nat /\
    offer cut_val snode fid nodeID evaluator mcw i (left_prefix hist_data ibegin i) = Some e.
Proof.
  unfold offers_of. rewrite list_elem_of_omap. split.
  - intros (t & Ht & Heq). apply elem_of_seq in Ht. exists t.
    destruct (offer _ _ _ _ _ _ _ _) as [e'|] eqn:He; [|done].
    injection Heq as <- <-. split; [lia|done].
  - intros (t & Ht & -> & He). exists t. split; [apply elem_of_seq; lia|].
    by rewrite He.
Qed.

Lemma offer_Some cut_val snode fid nodeID evaluator mcw i sum e :
  offer cut_val snode fid nodeID evaluator mcw i sum = Some e <->
  mcw <= GetHess sum /\ mcw <= GetHess (GradStats_minus (stats snode) sum) /\
  e = MkSplitEntry
        (CalcSplitGain evaluator nodeID fid sum (GradStats_minus (stats snode) sum)
           - root_gain snode)
        fid false (val_at cut_val i) sum (GradStats_minus (stats snode) sum).
Proof.
  unfold offer.
  destruct (Z.leb_spec mcw (GetHess sum));
    [destruct (Z.leb_spec mcw (GetHess (GradStats_minus (stats snode) sum)))|].
  - split; [intros [= <-]; done|intros (_ & _ & ->); done].
  - split; [done|lia].
  - split; [done|lia].
Qed.

(** The committed entry is the previous one or the [best] of one of
    the winning work-items. *)
Lemma group_commit_choice order lanes pb :
  group_commit order lanes pb = pb \/
  exists l ln, lanes !! l = Some ln /\ group_commit order lanes pb = lane_best ln.
Proof.
  unfold group_commit. induction order as [|l0 order IH] using rev_ind; [by left|].
  rewrite foldl_app. simpl.
  destruct (lanes !! l0) as [ln|] eqn:Hl; [|apply IH].
  destruct (is_group_winner lanes ln); [|apply IH].
  match goal with |- context [Update ?a ?b] =>
    destruct (Update_choice a b) as [-> | ->] end; [apply IH|].
  right. by exists l0, ln.
Qed.

(** The entry [EnumerateSplit] leaves in [p_best] is the previous one,
    a default one, or a candidate offered by some work-item. *)
Lemma EnumerateSplit_result_source
    order best0 sgs cut_ptr cut_val hist_data snode p_best fid nodeID evaluator mcw :
  (0 < sgs)%nat ->
  let lanes := scan_lanes best0 sgs cut_ptr cut_val hist_data snode fid nodeID evaluator mcw in
  let r := EnumerateSplit_ordered order best0 sgs cut_ptr cut_val hist_data snode p_best
             fid nodeID evaluator mcw in
  r = p_best \/ r = best0 \/
  exists l ln i, lanes !! l = Some ln /\ (i, r) ∈ lane_offers ln.
Proof.
  intros Hpos lanes r.
  destruct (scan_lanes_final best0 sgs cut_ptr cut_val hist_data snode fid nodeID evaluator
              mcw Hpos) as [Hlen Hall].
  fold lanes in Hlen, Hall.
  unfold r, EnumerateSplit_ordered. fold lanes.
  destruct (group_commit_choice order lanes p_best) as [->|(l0 & ln & Hl & ->)];
    [by left|right].
  destruct (Hall l0 ln Hl) as (j & _ & _ & Hbest & _).
  rewrite Hbest.
  destruct (foldl_Update_choice (map snd (lane_offers ln)) best0) as [->|Hin];
    [by left|right].
  apply list_elem_of_fmap in Hin as ([i e] & -> & Hin).
  by exists l0, ln, i.
Qed.

(** Which bin positions are handed to [best.Update]. *)
Lemma scan_lanes_offered
    best0 sgs cut_ptr cut_val hist_data snode fid nodeID evaluator mcw i :
  (0 < sgs)%nat ->
  let ibegin := cut_at cut_ptr (Z.to_nat fid) in
  let iend := cut_at cut_ptr (Z.to_nat fid + 1) in
  let lanes := scan_lanes best0 sgs cut_ptr cut_val hist_data snode fid nodeID evaluator mcw in
  let hl := GetHess (left_prefix hist_data ibegin i) in
  let hr := GetHess (GradStats_minus (stats snode) (left_prefix hist_data ibegin i)) in
  (ibegin <= i < iend)%nat ->
  ((exists l ln e, lanes !! l = Some ln /\ (i, e) ∈ lane_offers ln) <-> mcw <= hl /\ mcw <= hr).
Proof.
  intros Hpos ibegin iend lanes hl hr Hi.
  destruct (scan_lanes_final best0 sgs cut_ptr cut_val hist_data snode fid nodeID evaluator
              mcw Hpos) as [Hlen Hall].
  fold ibegin iend lanes in Hlen, Hall.
  split.
  - intros (l & ln & e & Hl & Hin).
    destruct (Hall l ln Hl) as (j & Hj & Hoff & _).
    rewrite Hoff in Hin. apply offers_of_elem in Hin as (t & Ht & Heq & He).
    apply offer_Some in He as (? & ? & _). done.
  - intros [Hl Hr].
    set (l := ((i - ibegin) mod sgs)%nat). set (t := ((i - ibegin) / sgs)%nat).
    assert (l < sgs)%nat as Hlt by (apply Nat.mod_upper_bound; lia).
    assert (i = ibegin + l + t * sgs)%nat as Heq.
    { pose proof (Nat.div_mod_eq (i - ibegin) sgs). unfold l, t. lia. }
    destruct (lookup_lt_is_Some_2 lanes l) as [ln Hln]; [lia|].
    destruct (Hall l ln Hln) as (j & Hj & Hoff & _).
    exists l, ln.
    eexists. split; [done|]. rewrite Hoff. apply offers_of_elem.
    exists t. split; [apply Hj; lia|]. split; [done|].
    apply offer_Some. done.
Qed.

(** ** The reduction over the sub-group and the merge per node *)

Lemma Update_strict this e :
  Update this e = this \/ (Update this e = e /\ strictly_better e this).
Proof.
  destruct (Update_cases this e) as [[-> H]|[-> _]]; [right|by left].
  split; [done|]. unfold strictly_better. destruct H as [?|[? ?]]; [by left|by right].
Qed.

Lemma strictly_better_trans a b c :
  strictly_better a b -> strictly_better b c -> strictly_better a c.
Proof.
  unfold strictly_better. intros [?|[? ?]] [?|[? ?]]; [left; lia ..|right; split; lia].
Qed.

Lemma Update_of_strict b r : strictly_better r b -> Update b r = r.
Proof.
  unfold strictly_better, Update, NeedReplace. intros [H|[H1 H2]].
  - by rewrite (proj2 (Z.ltb_lt _ _) H).
  - rewrite (proj2 (Z.eqb_eq _ _) H1), (proj2 (Z.ltb_lt _ _) H2).
    by rewrite orb_true_r.
Qed.

Lemma Update_same b : Update b b = b.
Proof. unfold Update. by destruct (NeedReplace _ _ _). Qed.

(** [EnumerateSplit] leaves [p_best] alone or replaces it by a strictly
    better entry. *)
Lemma group_commit_strict order lanes pb :
  group_commit order lanes pb = pb \/ strictly_better (group_commit order lanes pb) pb.
Proof.
  unfold group_commit. induction order as [|l0 order IH] using rev_ind; [by left|].
  rewrite foldl_app. simpl.
  destruct (lanes !! l0) as [ln|]; [|apply IH].
  destruct (is_group_winner lanes ln); [|apply IH].
  match goal with |- context [Update ?a ?b] =>
    destruct (Update_strict a b) as [-> | [-> Hs]] end; [apply IH|].
  right. destruct IH as [<-|IH]; [done|]. by eapply strictly_better_trans.
Qed.

Lemma Update_after_commit order lanes pb :
  Update pb (group_commit order lanes pb) = group_commit order lanes pb.
Proof.
  destruct (group_commit_strict order lanes pb) as [->|H].
  - apply Update_same.
  - by apply Update_of_strict.
Qed.

Lemma foldl_max_ge xs a :
  a <= foldl Z.max a xs /\ forall x, x ∈ xs -> x <= foldl Z.max a xs.
Proof.
  revert a. induction xs as [|y xs IH]; intros a; simpl.
  - split; [lia|]. intros x Hx. by apply elem_of_nil in Hx.
  - destruct (IH (Z.max a y)) as [H1 H2]. split; [lia|].
    intros x Hx. apply elem_of_cons in Hx as [->|Hx]; [lia|by apply H2].
Qed.

Lemma foldl_min_le xs a :
  foldl Z.min a xs <= a /\ forall x, x ∈ xs -> foldl Z.min a xs <= x.
Proof.
  revert a. induction xs as [|y xs IH]; intros a; simpl.
  - split; [lia|]. intros x Hx. by apply elem_of_nil in Hx.
  - destruct (IH (Z.min a y)) as [H1 H2]. split; [lia|].
    intros x Hx. apply elem_of_cons in Hx as [->|Hx]; [lia|by apply H2].
Qed.

Lemma reduce_over_group_max_ge xs x : x ∈ xs -> x <= reduce_over_group_max xs.
Proof.
  destruct xs as [|a xs]; [intros H; by apply elem_of_nil in H|]. simpl.
  destruct (foldl_max_ge xs a) as [H1 H2].
  intros Hx. apply elem_of_cons in Hx as [->|Hx]; [done|by apply H2].
Qed.

Lemma reduce_over_group_min_le xs x : x ∈ xs -> reduce_over_group_min xs <= x.
Proof.
  destruct xs as [|a xs]; [intros H; by apply elem_of_nil in H|]. simpl.
  destruct (foldl_min_le xs a) as [H1 H2].
  intros Hx. apply elem_of_cons in Hx as [->|Hx]; [done|by apply H2].
Qed.

(** A work-item that passes the final test holds an entry at least as
    good as that of every work-item of the group. *)
Lemma group_winner_best lanes ln ln' :
  is_group_winner lanes ln = true -> ln' ∈ lanes ->
  better_eq (lane_best ln) (lane_best ln').
Proof.
  unfold is_group_winner. intros Hw Hin.
  apply andb_true_iff in Hw as [Hl Hi].
  apply Z.eqb_eq in Hl. apply Z.eqb_eq in Hi.
  assert (loss_chg (lane_best ln') <= total_loss_chg lanes) as Hle.
  { apply reduce_over_group_max_ge. apply list_elem_of_fmap. by exists ln'. }
  unfold better_eq. rewrite Hl.
  destruct (decide (loss_chg (lane_best ln') = total_loss_chg lanes)) as [Heq|]; [right|left; lia].
  split; [done|]. rewrite Hi. unfold total_split_index.
  apply reduce_over_group_min_le. apply list_elem_of_fmap. exists ln'.
  split; [|done]. by rewrite (proj2 (Z.eqb_eq _ _) Heq).
Qed.

Lemma read_Some {A} (l : list A) i a : l !! i = Some a -> read l i = Ok a.
Proof. unfold read. by intros ->. Qed.

Lemma foldl_Update_better (l : list SplitEntry) b :
  better_eq (foldl Update b l) b /\ forall e, e ∈ l -> better_eq (foldl Update b l) e.
Proof.
  revert b. induction l as [|x l IH]; intros b; simpl.
  - split; [apply better_eq_refl|]. intros e He. by apply elem_of_nil in He.
  - destruct (IH (Update b x)) as [H1 H2]. split.
    + eapply better_eq_trans; [exact H1|apply Update_better_l].
    + intros e He. apply elem_of_cons in He as [->|He]; [|by apply H2].
      eapply better_eq_trans; [exact H1|apply Update_better_r].
Qed.

Lemma foldl_max_in xs a : foldl Z.max a xs = a \/ foldl Z.max a xs ∈ xs.
Proof.
  revert a. induction xs as [|y xs IH]; intros a; simpl; [by left|].
  destruct (IH (Z.max a y)) as [H|H]; [|right; by right].
  rewrite H. destruct (Z.max_spec a y) as [[_ ->]|[_ ->]]; [right; left|by left].
Qed.

Lemma foldl_min_in xs a : foldl Z.min a xs = a \/ foldl Z.min a xs ∈ xs.
Proof.
  revert a. induction xs as [|y xs IH]; intros a; simpl; [by left|].
  destruct (IH (Z.min a y)) as [H|H]; [|right; by right].
  rewrite H. destruct (Z.min_spec a y) as [[_ ->]|[_ ->]]; [by left|right; left].
Qed.

Lemma reduce_over_group_max_in xs : xs <> [] -> reduce_over_group_max xs ∈ xs.
Proof.
  destruct xs as [|a xs]; [done|]. intros _. simpl.
  destruct (foldl_max_in xs a) as [->|H]; [left|by right].
Qed.

Lemma reduce_over_group_min_in xs : xs <> [] -> reduce_over_group_min xs ∈ xs.
Proof.
  destruct xs as [|a xs]; [done|]. intros _. simpl.
  destruct (foldl_min_in xs a) as [->|H]; [left|by right].
Qed.

(** In a non-empty group whose entries carry feature ids of at most
    [2^31 - 1], some work-item passes the final test. *)
Lemma group_winner_exists lanes :
  lanes <> [] ->
  (forall ln, ln ∈ lanes -> SplitIndex (lane_best ln) <= 2 ^ 31 - 1) ->
  exists ln, ln ∈ lanes /\ is_group_winner lanes ln = true.
Proof.
  intros Hne Hidx.
  assert (exists lm, lm ∈ lanes /\ loss_chg (lane_best lm) = total_loss_chg lanes)
    as (lm & Hlm & Hmax).
  { unfold total_loss_chg.
    pose proof (reduce_over_group_max_in (map (fun ln => loss_chg (lane_best ln)) lanes)) as H.
    apply list_elem_of_fmap in H as (lm & H1 & H2); [by exists lm|].
    by destruct lanes. }
  pose proof (reduce_over_group_min_in
                (map (fun ln => if loss_chg (lane_best ln) =? total_loss_chg lanes
                                then SplitIndex (lane_best ln) else 2 ^ 31 - 1) lanes)) as H.
  apply list_elem_of_fmap in H as (l0 & H1 & H2); [|by destruct lanes].
  fold (total_split_index lanes) in H1.
  destruct (Z.eqb_spec (loss_chg (lane_best l0)) (total_loss_chg lanes)) as [Heq|Hneq].
  - exists l0. split; [done|]. unfold is_group_winner.
    rewrite Heq, Z.eqb_refl, H1, Z.eqb_refl. done.
  - exists lm. split; [done|]. unfold is_group_winner.
    rewrite Hmax, Z.eqb_refl. simpl. apply Z.eqb_eq.
    assert (total_split_index lanes <= SplitIndex (lane_best lm)) as Hle.
    { unfold total_split_index. apply reduce_over_group_min_le.
      apply list_elem_of_fmap. exists lm. split; [|done].
      by rewrite Hmax, Z.eqb_refl. }
    specialize (Hidx lm Hlm). lia.
Qed.

Lemma group_commit_better order lanes pb :
  better_eq (group_commit order lanes pb) pb /\
  forall l ln, l ∈ order -> lanes !! l = Some ln -> is_group_winner lanes ln = true ->
    better_eq (group_commit order lanes pb) (lane_best ln).
Proof.
  unfold group_commit. induction order as [|l0 order [IH1 IH2]] using rev_ind.
  - split; [apply better_eq_refl|]. intros l ln Hl. by apply elem_of_nil in Hl.
  - rewrite foldl_app. simpl.
    set (prev := foldl _ pb order) in *.
    set (next := match lanes !! l0 with
                 | Some ln => if is_group_winner lanes ln then Update prev (lane_best ln) else prev
                 | None => prev
                 end).
    assert (better_eq next prev) as Hnp.
    { unfold next. destruct (lanes !! l0) as [ln|]; [|apply better_eq_refl].
      destruct (is_group_winner lanes ln); [apply Update_better_l|apply better_eq_refl]. }
    split; [eapply better_eq_trans; [exact Hnp|exact IH1]|].
    intros l ln Hl Hln Hw. apply elem_of_app in Hl as [Hl|Hl].
    + eapply better_eq_trans; [exact Hnp|]. by eapply IH2.
    + apply list_elem_of_singleton in Hl as ->. unfold next. rewrite Hln, Hw.
      apply Update_better_r.
Qed.

Lemma covers_two_work_items (l : nat) : (l < 2)%nat -> l ∈ [0; 1]%nat.
Proof. intros Hl. destruct l as [|[|l]]; [left|right; left|lia]. Qed.

(** The entry a work-item holds when it leaves the loop is the default
    entry or carries the feature id of the scan. *)
Lemma lane_best_index best0 sgs cut_ptr cut_val hist_data snode fid nodeID evaluator mcw l ln :
  (0 < sgs)%nat ->
  scan_lanes best0 sgs cut_ptr cut_val hist_data snode fid nodeID evaluator mcw !! l = Some ln ->
  lane_best ln = best0 \/ SplitIndex (lane_best ln) = fid.
Proof.
  intros Hpos Hl.
  destruct (scan_lanes_final best0 sgs cut_ptr cut_val hist_data snode fid nodeID evaluator
              mcw Hpos) as [_ Hall].
  destruct (Hall l ln Hl) as (j & _ & Hoff & Hbest & _).
  destruct (foldl_Update_choice (map snd (lane_offers ln)) best0) as [H|H];
    rewrite <- Hbest in H; [by left|right].
  apply list_elem_of_fmap in H as ([i e] & -> & He). rewrite Hoff in He.
  apply offers_of_elem in He as (t & _ & _ & He).
  by apply offer_Some in He as (_ & _ & ->).
Qed.

(** The reduction over the sub-group, for any entries the work-items
    may hold: the committed entry is at least as good as the previous
    one and as the entry of every work-item, and it is one of them. *)
Lemma group_commit_greatest order lanes pb :
  lanes <> [] ->
  (forall l, (l < length lanes)%nat -> l ∈ order) ->
  (forall ln, ln ∈ lanes -> SplitIndex (lane_best ln) <= 2 ^ 31 - 1) ->
  let r := group_commit order lanes pb in
  better_eq r pb /\
  (forall ln, ln ∈ lanes -> better_eq r (lane_best ln)) /\
  (r = pb \/ exists ln, ln ∈ lanes /\ r = lane_best ln).
Proof.
  intros Hne Hord Hidx r.
  destruct (group_commit_better order lanes pb) as [Hpb Hwin]. fold r in Hpb, Hwin.
  split; [done|]. split.
  - intros ln Hln.
    destruct (group_winner_exists lanes Hne Hidx) as (w & Hw & Hwinner).
    pose proof Hw as Hw'. apply list_elem_of_lookup in Hw' as [lw Hlw].
    eapply better_eq_trans; [|by apply (group_winner_best lanes w ln)].
    apply (Hwin lw w); [|done|done]. apply Hord. by apply lookup_lt_Some in Hlw.
  - destruct (group_commit_choice order lanes pb) as [H|(l & ln & Hl & H)]; [by left|right].
    exists ln. split; [by eapply list_elem_of_lookup_2|done].
Qed.

(** C1. Merging split candidates is deterministic.  In the sub-group
    reduction of [EnumerateSplit], whatever entries the work-items of
    a non-empty group hold (with feature ids of at most [2^31 - 1]),
    once every work-item has passed the final statement the entry
    left in [p_best] is at least as good as the previous one and as
    the entry of every work-item (a strictly greater loss gain wins,
    and on an equal gain the smaller feature id), and it is the
    previous entry or the entry of one of the work-items.  In
    [EvaluateSplits], for a node evaluated over two features, the
    recorded best split is the per-feature result with the strictly
    greater loss gain, and when the two gains are equal it carries that
    gain and the smaller of the two feature ids; it is at least as
    good as the entry of every work-item of both scans. *)
Theorem EvaluateSplits_tie_break
    order best0 ff evaluator hu nid_ d gmat tree f1 f2 ne :
  List.filter (Query ff nid_) (GetFeatureSet ff (GetDepth tree nid_)) = [f1; f2] ->
  snode_host_ hu !! nid_ = Some ne ->
  let lanes f := scan_lanes best0 (sub_group_size_ hu) (cut_Ptrs gmat) (cut_Values gmat)
                   (hist_ hu nid_) ne f nid_ evaluator (min_child_weight (param_ hu)) in
  let run f := EnumerateSplit_ordered order best0 (sub_group_size_ hu) (cut_Ptrs gmat)
                 (cut_Values gmat) (hist_ hu nid_) ne (best ne) f nid_ evaluator
                 (min_child_weight (param_ hu)) in
  (forall group pb,
     group <> [] ->
     (forall l, (l < length group)%nat -> l ∈ order) ->
     (forall ln, ln ∈ group -> SplitIndex (lane_best ln) <= 2 ^ 31 - 1) ->
     let r := group_commit order group pb in
     (loss_chg pb < loss_chg r \/
      (loss_chg pb = loss_chg r /\ SplitIndex r <= SplitIndex pb)) /\
     (forall ln, ln ∈ group ->
        loss_chg (lane_best ln) < loss_chg r \/
        (loss_chg (lane_best ln) = loss_chg r /\ SplitIndex r <= SplitIndex (lane_best ln))) /\
     (r = pb \/ exists ln, ln ∈ group /\ r = lane_best ln)) /\
  exists hu' ne',
    EvaluateSplits_ordered order best0 ff evaluator hu [MkExpandEntry nid_ d] gmat tree
      = Ok hu' /\
    snode_host_ hu' !! nid_ = Some ne' /\
    (loss_chg (run f1) < loss_chg (run f2) -> best ne' = run f2) /\
    (loss_chg (run f2) < loss_chg (run f1) -> best ne' = run f1) /\
    (loss_chg (run f1) = loss_chg (run f2) ->
     loss_chg (best ne') = loss_chg (run f1) /\
     SplitIndex (best ne') = Z.min (SplitIndex (run f1)) (SplitIndex (run f2))) /\
    (forall f, run f = best ne \/ run f = best0 \/ SplitIndex (run f) = f) /\
    ((0 < sub_group_size_ hu)%nat ->
     (forall l, (l < sub_group_size_ hu)%nat -> l ∈ order) ->
     f1 <= 2 ^ 31 - 1 -> f2 <= 2 ^ 31 - 1 -> SplitIndex best0 <= 2 ^ 31 - 1 ->
     forall f ln, f = f1 \/ f = f2 -> ln ∈ lanes f -> better_eq (best ne') (lane_best ln)).
Proof.
  intros Hff Hne lanes run. split.
  { intros group pb Hnil Hord Hidx r.
    destruct (group_commit_greatest order group pb Hnil Hord Hidx) as (Hpb & Hall & Hch).
    fold r in Hpb, Hall, Hch. split; [exact Hpb|split; [|done]].
    intros ln Hln. exact (Hall ln Hln). }
  assert (forall f, run f = best ne \/ run f = best0 \/ SplitIndex (run f) = f) as Hfid.
  { intros f. unfold run, EnumerateSplit_ordered.
    destruct (group_commit_choice order
                (scan_lanes best0 (sub_group_size_ hu) (cut_Ptrs gmat) (cut_Values gmat)
                   (hist_ hu nid_) ne f nid_ evaluator (min_child_weight (param_ hu)))
                (best ne)) as [->|(l & ln & Hl & ->)]; [by left|right].
    destruct (decide (0 < sub_group_size_ hu)%nat) as [Hpos|Hz].
    - destruct (lane_best_index _ _ _ _ _ _ _ _ _ _ _ _ Hpos Hl) as [->| ->]; auto.
    - exfalso. apply lookup_lt_Some in Hl. unfold scan_lanes in Hl.
      replace (sub_group_size_ hu) with 0%nat in Hl by lia.
      destruct (_ - _)%nat; simpl in Hl; lia. }
  pose proof (lookup_lt_Some _ _ _ Hne) as Hlt.
  assert (Update (best ne) (run f1) = run f1) as Hu1
    by (unfold run, EnumerateSplit_ordered; apply Update_after_commit).
  eexists. exists (set_best ne (Update (run f1) (run f2))).
  split; [|split].
  - unfold EvaluateSplits_ordered, split_queries. simpl. rewrite Hff. simpl.
    unfold evaluate_query. simpl. rewrite (read_Some _ _ _ Hne). simpl.
    fold (run f1) (run f2). rewrite (read_Some _ _ _ Hne). simpl.
    unfold merge_split. simpl.
    erewrite read_Some by (by apply list_lookup_insert_eq). simpl.
    rewrite Hu1. reflexivity.
  - simpl. rewrite list_insert_insert_eq. by apply list_lookup_insert_eq.
  - simpl. split; [|split; [|split; [|split; [exact Hfid|]]]].
    + unfold Update, NeedReplace. intros H. by rewrite (proj2 (Z.ltb_lt _ _) H).
    + unfold Update, NeedReplace. intros H. rewrite (proj2 (Z.ltb_ge _ _)) by lia.
      destruct (Z.eqb_spec (loss_chg (run f1)) (loss_chg (run f2))); [lia|done].
    + unfold Update, NeedReplace. intros H. split.
      * rewrite H, Z.ltb_irrefl. simpl. by destruct (_ && _).
      * rewrite H, Z.ltb_irrefl, Z.eqb_refl. simpl.
        destruct (Z.ltb_spec (SplitIndex (run f2)) (SplitIndex (run f1))); lia.
    + intros Hpos Hord Hf1 Hf2 Hb0 f ln Hf Hln.
      assert (better_eq (run f) (lane_best ln)) as Hrun.
      { destruct (scan_lanes_final best0 (sub_group_size_ hu) (cut_Ptrs gmat)
                    (cut_Values gmat) (hist_ hu nid_) ne f nid_ evaluator
                    (min_child_weight (param_ hu)) Hpos) as [Hlen _].
        fold (lanes f) in Hlen.
        destruct (group_commit_greatest order (lanes f) (best ne)) as (_ & Hall & _).
        - intros Hnil. rewrite Hnil in Hlen. simpl in Hlen. lia.
        - intros l Hl. apply Hord. lia.
        - intros ln' Hln'. apply list_elem_of_lookup in Hln' as [l Hl].
          destruct (lane_best_index _ _ _ _ _ _ _ _ _ _ _ _ Hpos Hl) as [->| ->]; [done|].
          destruct Hf as [-> | ->]; done.
        - by apply Hall. }
      eapply better_eq_trans; [|exact Hrun].
      destruct Hf as [-> | ->]; [apply Update_better_l|apply Update_better_r].
Qed.

Lemma EvaluateSplits_tie_break_witness :
  (exists hu' ne',
     EvaluateSplits_ordered [0; 1]%nat demo_best0 tie_filter demo_evaluator tie_updater
       [MkExpandEntry 0 0] tie_gmat demo_tree = Ok hu' /\
     snode_host_ hu' !! 0%nat = Some ne' /\
     loss_chg (best ne') = 18 /\ SplitIndex (best ne') = 0) /\
  18 <= loss_chg (group_commit [0; 1]%nat two_lane_group demo_best0).
Proof.
  destruct (EvaluateSplits_tie_break [0; 1]%nat demo_best0 tie_filter demo_evaluator
              tie_updater 0%nat 0%nat tie_gmat demo_tree 1 0
              (MkNodeEntry (MkGradStats 0 2) 0 0 demo_best0) eq_refl eq_refl)
    as (Hgroup & hu' & ne' & Hrun & Hne & _ & _ & Htie & _).
  split.
  - exists hu', ne'. split; [exact Hrun|]. split; [exact Hne|].
    exact (Htie eq_refl).
  - destruct (Hgroup two_lane_group demo_best0) as (_ & Hall & _).
    + discriminate.
    + apply covers_two_work_items.
    + intros ln Hln. apply elem_of_cons in Hln as [->|Hln]; [simpl; lia|].
      apply list_elem_of_singleton in Hln as ->. simpl. lia.
    + destruct (Hall (MkLane 1 3 GradStats_zero
                        (MkSplitEntry 18 1 false 20 (MkGradStats 3 1) (MkGradStats (-3) 1)) []))
        as [H|[H _]].
      * right. left.
      * cbv zeta in H. change (loss_chg (lane_best _)) with 18 in H at 1. lia.
      * cbv zeta in H. change (loss_chg (lane_best _)) with 18 in H at 1. lia.
Defined.

(** ** Row-set initialisation *)

Lemma compaction_fold (keep : nat -> bool) order pre rest :
  (length (filter (fun i => keep i) order) <= length rest)%nat ->
  foldl (compaction_step keep) (pre ++ rest, length pre) order
  = (pre ++ filter (fun i => keep i) order
         ++ drop (length (filter (fun i => keep i) order)) rest,
     (length pre + length (filter (fun i => keep i) order))%nat).
Proof.
  revert pre rest. induction order as [|x order IH]; intros pre rest Hlen; simpl.
  - by rewrite Nat.add_0_r.
  - unfold compaction_step at 2. simpl. rewrite filter_cons in Hlen |- *.
    destruct (keep x) eqn:Hk; simpl in *.
    + destruct rest as [|r rest]; simpl in Hlen; [lia|].
      rewrite insert_app_r_alt, Nat.sub_diag by lia. simpl.
      replace (pre ++ x :: rest) with ((pre ++ [x]) ++ rest) by by rewrite <- app_assoc.
      replace (S (length pre)) with (length (pre ++ [x])) by (rewrite length_app; simpl; lia).
      rewrite IH by lia. rewrite length_app. simpl.
      rewrite <- !app_assoc. simpl. f_equal. lia.
    + by apply IH.
Qed.

Lemma compaction_result (keep : nat -> bool) order buf :
  (length order <= length buf)%nat ->
  let st := foldl (compaction_step keep) (buf, 0%nat) order in
  resize st.2 0%nat st.1 = filter (fun i => keep i) order.
Proof.
  intros Hlen. pose proof (length_filter (fun i => keep i) order) as Hf.
  pose proof (compaction_fold keep order [] buf) as H. simpl in H.
  rewrite H by lia. simpl. by rewrite resize_app.
Qed.

Lemma fill_fold gpair order buf flag :
  foldl (fill_item gpair) (buf, flag) order
  = (foldl (fun b idx => <[idx := idx]> b) buf order,
     flag || existsb (fun idx => gp_hess (gpair_at gpair idx) <? 0) order).
Proof.
  revert buf flag. induction order as [|x order IH]; intros buf flag; simpl.
  - by rewrite orb_false_r.
  - unfold fill_item at 2. simpl. rewrite IH. by rewrite orb_assoc.
Qed.

Lemma fill_lookup order (buf : list nat) i :
  (i < length buf)%nat -> i ∈ order \/ buf !! i = Some i ->
  foldl (fun b idx => <[idx := idx]> b) buf order !! i = Some i.
Proof.
  revert buf. induction order as [|x order IH]; intros buf Hi H; simpl.
  - destruct H as [H|H]; [by apply elem_of_nil in H|done].
  - apply IH; [by rewrite length_insert|].
    destruct (decide (x = i)) as [->|Hne].
    + right. by apply list_lookup_insert_eq.
    + destruct H as [H|H].
      * left. apply elem_of_cons in H as [->|H]; done.
      * right. by rewrite list_lookup_insert_ne.
Qed.

Lemma fill_length order (buf : list nat) :
  length (foldl (fun b idx => <[idx := idx]> b) buf order) = length buf.
Proof.
  revert buf. induction order as [|x order IH]; intros buf; simpl; [done|].
  by rewrite IH, length_insert.
Qed.

(** The first kernel of the [subsample = 1] path writes the identity. *)
Lemma fill_result order (buf : list nat) n :
  length buf = n -> order ≡ₚ seq 0 n ->
  foldl (fun b idx => <[idx := idx]> b) buf order = seq 0 n.
Proof.
  intros Hlen Hperm. apply list_eq. intros i.
  destruct (decide (i < n)%nat) as [Hi|Hi].
  - rewrite lookup_seq_lt by done. simpl. apply fill_lookup; [lia|].
    left. rewrite Hperm. apply elem_of_seq. lia.
  - rewrite lookup_seq_ge by lia. apply lookup_ge_None.
    rewrite fill_length. lia.
Qed.

Lemma no_negative_hessian gpair order n :
  order ≡ₚ seq 0 n ->
  existsb (fun idx => gp_hess (gpair_at gpair idx) <? 0) order = false <->
  forall i, (i < n)%nat -> 0 <= gp_hess (gpair_at gpair i).
Proof.
  intros Hperm. split.
  - intros H i Hi.
    destruct (Z.leb_spec 0 (gp_hess (gpair_at gpair i))) as [|Hneg]; [done|].
    assert (existsb (fun idx => gp_hess (gpair_at gpair idx) <? 0) order = true) as Ht.
    { apply existsb_exists. exists i. split.
      - apply list_elem_of_In. rewrite Hperm. apply elem_of_seq. lia.
      - by apply Z.ltb_lt. }
    congruence.
  - intros H. destruct (existsb _ order) eqn:Hex; [|done].
    apply existsb_exists in Hex as (i & Hin & Hneg).
    apply list_elem_of_In in Hin. rewrite Hperm in Hin. apply elem_of_seq in Hin.
    apply Z.ltb_lt in Hneg. specialize (H i). lia.
Qed.

Lemma Qc_one_not_lt_one : ~ (1 < 1)%Qc.
Proof. intros H. apply Qclt_not_le in H. apply H. apply Qcle_refl. Qed.

Lemma filter_all {A} (P : A -> Prop) `{forall x, Decision (P x)} (l : list A) :
  (forall x, x ∈ l -> P x) -> filter P l = l.
Proof.
  induction l as [|x l IH]; intros Hall; [done|].
  rewrite filter_cons_True by (apply Hall; left).
  f_equal. apply IH. intros y Hy. apply Hall. by right.
Qed.

(** The Bernoulli path: [InitSampling] returns exactly the rows with a
    nonnegative Hessian whose draw succeeded, in the order in which the
    work-items took their slot. *)
Lemma InitSampling_rows dev hu gpair row_indices :
  length (work_item_order dev KSampling (length row_indices)) = length row_indices ->
  (InitSampling dev hu gpair row_indices).1
  = filter (fun i => (0 <=? gp_hess (gpair_at gpair i))
                     && coin_flip dev (seed_ hu) i (subsample (param_ hu)))
           (work_item_order dev KSampling (length row_indices)).
Proof.
  intros Hlen. unfold InitSampling. simpl.
  change (sampling_item dev gpair (subsample (param_ hu)) (seed_ hu))
    with (compaction_step (fun i => (0 <=? gp_hess (gpair_at gpair i))
                                    && coin_flip dev (seed_ hu) i (subsample (param_ hu)))).
  apply compaction_result. lia.
Qed.

(** The rows the row-set block of [InitData] returns, in every path. *)
Lemma init_row_set_rows dev hu gpair info :
  runs_every_item dev ->
  ((subsample (param_ hu) < 1)%Qc -> sampling_method (param_ hu) = kUniform) ->
  exists rows seed ks,
    init_row_set dev hu gpair info = Ok (rows, seed, ks) /\
    rows ≡ₚ filter (fun i => row_kept dev hu gpair i) (seq 0 (num_row_ info)).
Proof.
  intros Hdev Hunif. unfold init_row_set.
  set (n := num_row_ info).
  set (buf := resize n 0%nat (rsc_Data (row_set_collection_ hu))).
  assert (length buf = n) as Hbuf by apply length_resize.
  case_bool_decide as Hsub.
  - rewrite (Hunif Hsub).
    exists (InitSampling dev hu gpair buf).1, (InitSampling dev hu gpair buf).2, [KSampling].
    split; [reflexivity|].
    rewrite InitSampling_rows by (rewrite Hbuf, (Hdev KSampling n); by rewrite length_seq).
    rewrite Hbuf, (Hdev KSampling n).
    erewrite list_filter_iff; [reflexivity|].
    intros i. unfold row_kept. by rewrite bool_decide_true.
  - rewrite fill_fold. simpl.
    rewrite (fill_result _ buf n Hbuf (Hdev KFillRows n)).
    destruct (existsb _ _) eqn:Hneg.
    + do 3 eexists. split; [reflexivity|].
      change (compact_item gpair)
        with (compaction_step (fun i => 0 <=? gp_hess (gpair_at gpair i))).
      rewrite compaction_result
        by (rewrite length_seq, (Hdev KCompactRows n), length_seq; lia).
      rewrite (Hdev KCompactRows n).
      erewrite list_filter_iff; [reflexivity|].
      intros i. unfold row_kept. rewrite bool_decide_false by done.
      by rewrite andb_true_r.
    + do 3 eexists. split; [reflexivity|].
      rewrite filter_all; [done|].
      intros i Hi. apply elem_of_seq in Hi.
      unfold row_kept. rewrite bool_decide_false by done. rewrite andb_true_r.
      apply Is_true_true, Z.leb_le.
      by apply (proj1 (no_negative_hessian gpair _ n (Hdev KFillRows n)) Hneg); lia.
Qed.

(** C5. With subsample rate 1 and no negative Hessian, the row-set
    block of [InitData] returns the rows [0 .. num_row-1] with row [i]
    at position [i], and only the fill kernel runs: there is no
    compaction pass.  [InitData] then either stops at one of its other
    checks or returns with this row set. *)
Theorem InitData_keeps_all_rows entry0 hinit dev hu gmat gpair info :
  subsample (param_ hu) = 1%Qc ->
  work_item_order dev KFillRows (num_row_ info) ≡ₚ seq 0 (num_row_ info) ->
  (forall i, (i < num_row_ info)%nat -> 0 <= gp_hess (gpair_at gpair i)) ->
  init_row_set dev hu gpair info = Ok (seq 0 (num_row_ info), seed_ hu, [KFillRows]) /\
  match InitData entry0 hinit dev hu gmat gpair info with
  | Ok hu' =>
      rsc_Data (row_set_collection_ hu') = seq 0 (num_row_ info) /\
      submitted_ hu' = submitted_ hu ++ [KFillRows]
  | Fatal e => e <> ErrSamplingMethod
  | Undefined => False
  end.
Proof.
  intros Hsub Hperm Hpos.
  assert (init_row_set dev hu gpair info = Ok (seq 0 (num_row_ info), seed_ hu, [KFillRows]))
    as Hrows.
  { unfold init_row_set. rewrite Hsub.
    rewrite bool_decide_false by apply Qc_one_not_lt_one.
    rewrite fill_fold. simpl.
    rewrite (proj2 (no_negative_hessian gpair _ _ Hperm) Hpos).
    by rewrite (fill_result _ _ (num_row_ info) (length_resize _ _ _) Hperm). }
  split; [done|].
  unfold_InitData. rewrite Hrows.
  destruct (_ || _); simpl; [|done].
  destruct (bool_decide (grow_policy (param_ hu) = kDepthWise)); simpl.
  - destruct (0 <? max_depth (param_ hu)); simpl; [|done].
    destruct (is_dense _); simpl.
    + destruct (bool_decide _); simpl; [|done]. by rewrite app_nil_r.
    + by rewrite app_nil_r.
  - destruct (is_dense _); simpl.
    + destruct (bool_decide _); simpl; [|done]. by rewrite app_nil_r.
    + by rewrite app_nil_r.
Qed.

Lemma InitData_keeps_all_rows_witness :
  init_row_set demo_device demo_updater demo_gpair demo_info
  = Ok ([0; 1; 2; 3]%nat, 7, [KFillRows]).
Proof.
  refine (proj1 (InitData_keeps_all_rows demo_entry0 demo_hist_init demo_device demo_updater demo_gmat
                   demo_gpair demo_info eq_refl _ _)).
  - reflexivity.
  - intros i Hi. do 4 (destruct i as [|i]; [by vm_compute|]). simpl in Hi. lia.
Defined.

(** C6. Whatever the subsample rate and the gradient pairs, the row
    set that the row-set block of [InitData] returns (through
    [InitSampling] below rate 1, through the fill and compaction
    kernels otherwise) holds no row with a negative Hessian, and it
    holds exactly the kept rows, each once: its length is their
    number. *)
Theorem init_row_set_drops_negative_hessians dev hu gpair info :
  runs_every_item dev ->
  ((subsample (param_ hu) < 1)%Qc -> sampling_method (param_ hu) = kUniform) ->
  exists rows seed ks,
    init_row_set dev hu gpair info = Ok (rows, seed, ks) /\
    (forall r, r ∈ rows -> 0 <= gp_hess (gpair_at gpair r)) /\
    rows ≡ₚ filter (fun i => row_kept dev hu gpair i) (seq 0 (num_row_ info)) /\
    length rows = length (filter (fun i => row_kept dev hu gpair i) (seq 0 (num_row_ info))).
Proof.
  intros Hdev Hunif.
  destruct (init_row_set_rows dev hu gpair info Hdev Hunif) as (rows & seed & ks & Hrun & Hperm).
  exists rows, seed, ks. split; [done|]. split; [|split; [done|by rewrite Hperm]].
  intros r Hr. rewrite Hperm in Hr. apply list_elem_of_filter in Hr as [Hk _].
  unfold row_kept in Hk. apply Is_true_true, andb_true_iff in Hk as [Hk _].
  by apply Z.leb_le.
Qed.

Lemma init_row_set_drops_negative_hessians_witness :
  exists rows seed ks,
    init_row_set demo_device demo_updater neg_gpair demo_info = Ok (rows, seed, ks) /\
    (forall r, r ∈ rows -> 0 <= gp_hess (gpair_at neg_gpair r)) /\
    rows ≡ₚ filter (fun i => row_kept demo_device demo_updater neg_gpair i)
               (seq 0 (num_row_ demo_info)) /\
    length rows = length (filter (fun i => row_kept demo_device demo_updater neg_gpair i)
                            (seq 0 (num_row_ demo_info))).
Proof.
  apply (init_row_set_drops_negative_hessians demo_device demo_updater neg_gpair demo_info).
  - intros k n. reflexivity.
  - intros _. reflexivity.
Defined.

(** ** The sampling-method check *)

(** C7, as stated, fails: with subsample rate 1 a request for
    gradient-based sampling passes [InitData]. *)
Lemma InitData_gradient_based_accepted :
  ~ (forall entry0 hinit dev hu gmat gpair info,
       sampling_method (param_ hu) <> kUniform ->
       exists e, InitData entry0 hinit dev hu gmat gpair info = Fatal e).
Proof.
  intros H.
  destruct (H demo_entry0 demo_hist_init demo_device (gradient_based_updater 1) demo_gmat demo_gpair
              demo_info) as [e He]; [done|].
  vm_compute in He. discriminate He.
Qed.

(** C7, amended. If a sampling method other than uniform is requested
    and the subsample rate is below 1, [InitData] stops with a fatal
    error: the sampling error when the two depth checks pass, the
    error of the failing depth check otherwise.  No updater is
    returned, so the round does not start. *)
Theorem InitData_rejects_non_uniform_subsampling entry0 hinit dev hu gmat gpair info :
  sampling_method (param_ hu) <> kUniform ->
  (subsample (param_ hu) < 1)%Qc ->
  (exists e, InitData entry0 hinit dev hu gmat gpair info = Fatal e) /\
  (0 < max_depth (param_ hu) \/
   (0 < max_leaves (param_ hu) /\ grow_policy (param_ hu) <> kDepthWise) ->
   InitData entry0 hinit dev hu gmat gpair info = Fatal ErrSamplingMethod).
Proof.
  intros Hm Hs.
  assert (init_row_set dev hu gpair info = Fatal ErrSamplingMethod) as Hrs.
  { unfold init_row_set. rewrite bool_decide_true by done.
    by rewrite bool_decide_false by done. }
  unfold_InitData. rewrite Hrs. split.
  - destruct (_ || _); simpl; [|by eexists].
    destruct (bool_decide _); simpl; [|by eexists].
    destruct (0 <? _); simpl; by eexists.
  - intros [Hd|[Hl Hg]].
    + rewrite (proj2 (Z.ltb_lt _ _) Hd). simpl. by destruct (bool_decide _).
    + rewrite (proj2 (Z.ltb_lt _ _) Hl), orb_true_r. simpl.
      by rewrite bool_decide_false by done.
Qed.

Lemma InitData_rejects_non_uniform_subsampling_witness :
  InitData demo_entry0 demo_hist_init demo_device (gradient_based_updater (Q2Qc (1 # 2))) demo_gmat
    demo_gpair demo_info = Fatal ErrSamplingMethod.
Proof.
  apply (InitData_rejects_non_uniform_subsampling demo_entry0 demo_hist_init demo_device
           (gradient_based_updater (Q2Qc (1 # 2))) demo_gmat demo_gpair demo_info).
  - discriminate.
  - reflexivity.
  - left. reflexivity.
Defined.

(** ** InitNewNode *)

(** C8. For a node that is not the root, [InitNewNode] sets the node's
    statistics to the left sum of its parent's recorded best split when
    the node is the left child, and to the right sum otherwise; it
    submits no kernel and makes no all-reduce call. *)
Theorem InitNewNode_child_copies_parent_sum
    entry0 Allreduce evaluator hu nid_ gmat gpair tree p :
  IsRoot tree nid_ = false ->
  (nid_ < NumNodes tree)%nat ->
  (Parent tree nid_ < NumNodes tree)%nat ->
  snode_host_ hu !! Parent tree nid_ = Some p ->
  exists hu' ne',
    InitNewNode entry0 Allreduce evaluator hu nid_ gmat gpair tree = Ok hu' /\
    snode_host_ hu' !! nid_ = Some ne' /\
    stats ne' = (if IsLeftChild tree nid_ then left_sum (best p) else right_sum (best p)) /\
    submitted_ hu' = submitted_ hu.
Proof.
  intros Hroot Hnid Hpar Hp.
  pose proof (lookup_lt_Some _ _ _ Hp) as Hplt.
  assert (resize (NumNodes tree) entry0 (snode_host_ hu) !! Parent tree nid_ = Some p) as Hp'
    by (by rewrite lookup_resize).
  destruct (lookup_lt_is_Some_2 (resize (NumNodes tree) entry0 (snode_host_ hu)) nid_)
    as [ne Hne]; [by rewrite length_resize|].
  unfold InitNewNode. rewrite Hroot, (read_Some _ _ _ Hp'). simpl.
  destruct (IsLeftChild tree nid_); simpl; rewrite (read_Some _ _ _ Hne); simpl;
    (eexists; eexists; split; [reflexivity|]; simpl; split;
     [apply list_lookup_insert_eq; by rewrite length_resize
     |split; [done|by rewrite app_nil_r]]).
Qed.

Lemma InitNewNode_child_copies_parent_sum_witness :
  exists hu' ne',
    InitNewNode demo_entry0 single_worker demo_evaluator split_root_updater 1 demo_gmat
      demo_gpair demo_tree = Ok hu' /\
    snode_host_ hu' !! 1%nat = Some ne' /\
    stats ne' = MkGradStats 6 2 /\
    submitted_ hu' = [].
Proof.
  apply (InitNewNode_child_copies_parent_sum demo_entry0 single_worker demo_evaluator
           split_root_updater 1 demo_gmat demo_gpair demo_tree
           (MkNodeEntry (MkGradStats 0 4) 0 0
              (MkSplitEntry 36 0 false 20 (MkGradStats 6 2) (MkGradStats (-6) 2)))).
  - reflexivity.
  - simpl. lia.
  - simpl. lia.
  - reflexivity.
Defined.

(** C10, as stated, fails: when the statistics array is longer than the
    tree's node count, entries of other node ids are dropped. *)
Lemma InitNewNode_drops_entries :
  ~ (forall entry0 Allreduce evaluator hu nid_ gmat gpair tree hu' (j : nat),
       InitNewNode entry0 Allreduce evaluator hu nid_ gmat gpair tree = Ok hu' ->
       j <> nid_ -> (j < length (snode_host_ hu))%nat ->
       snode_host_ hu' !! j = snode_host_ hu !! j).
Proof.
  intros H.
  specialize (H demo_entry0 single_worker demo_evaluator stale_updater 0%nat demo_gmat
                demo_gpair root_only_tree _ 1%nat eq_refl).
  simpl in H. discriminate H; lia.
Qed.

(** C10, amended. [InitNewNode(nid)] resizes the statistics array to
    the tree's node count (entries below the count are kept, missing
    ones are default constructed, entries at or above the count are
    dropped) and then writes only the stats, weight and root gain of
    entry [nid]: every other entry of the resized array is untouched,
    so an entry that existed below the node count is unchanged, and
    the best split of entry [nid] is unchanged.  The other members of
    the updater are not written, the kernel log apart. *)
Theorem InitNewNode_frame entry0 Allreduce evaluator hu nid_ gmat gpair tree hu' :
  InitNewNode entry0 Allreduce evaluator hu nid_ gmat gpair tree = Ok hu' ->
  let resized := resize (NumNodes tree) entry0 (snode_host_ hu) in
  length (snode_host_ hu') = NumNodes tree /\
  (forall j, j <> nid_ -> snode_host_ hu' !! j = resized !! j) /\
  (forall j, j <> nid_ -> (j < NumNodes tree)%nat -> (j < length (snode_host_ hu))%nat ->
             snode_host_ hu' !! j = snode_host_ hu !! j) /\
  (exists ne ne', resized !! nid_ = Some ne /\ snode_host_ hu' !! nid_ = Some ne' /\
                  best ne' = best ne) /\
  row_set_collection_ hu' = row_set_collection_ hu /\
  hist_ hu' = hist_ hu /\
  fid_least_bins_ hu' = fid_least_bins_ hu /\
  data_layout_ hu' = data_layout_ hu.
Proof.
  intros Hrun resized. unfold InitNewNode in Hrun. fold resized in Hrun.
  destruct (_ : outcome (GradStats * list Kernel)) as [[st ks]| |] eqn:Hst in Hrun;
    simpl in Hrun; try discriminate.
  unfold read in Hrun. destruct (resized !! nid_) as [ne|] eqn:Hne; simpl in Hrun;
    [|discriminate].
  injection Hrun as <-. simpl. unfold resized in *.
  split; [by rewrite length_insert, length_resize|].
  split; [intros j Hj; by rewrite list_lookup_insert_ne|].
  split; [intros j Hj Hjn Hjl; rewrite list_lookup_insert_ne by done; by apply lookup_resize|].
  split; [|done].
  exists ne. eexists. split; [done|].
  split; [apply list_lookup_insert_eq; by apply lookup_lt_Some in Hne|reflexivity].
Qed.

Lemma InitNewNode_frame_witness :
  exists hu',
    InitNewNode demo_entry0 single_worker demo_evaluator split_root_updater 1 demo_gmat
      demo_gpair demo_tree = Ok hu' /\
    length (snode_host_ hu') = 3%nat /\
    snode_host_ hu' !! 0%nat = snode_host_ split_root_updater !! 0%nat.
Proof.
  eexists. split; [reflexivity|].
  pose proof (InitNewNode_frame demo_entry0 single_worker demo_evaluator split_root_updater
                1 demo_gmat demo_gpair demo_tree _ eq_refl) as (Hlen & _ & Hold & _).
  split; [exact Hlen|]. apply Hold; simpl; lia.
Defined.

(** ** The root aggregate on dense data *)

Lemma hist_at_alter f (h : list GradStats) b j :
  (b < length h)%nat ->
  hist_at (alter f b h) j = if decide (b = j) then f (hist_at h j) else hist_at h j.
Proof.
  intros Hb. unfold hist_at. destruct (decide (b = j)) as [->|Hne].
  - rewrite list_lookup_alter_eq.
    destruct (lookup_lt_is_Some_2 h j Hb) as [x ->]. done.
  - by rewrite list_lookup_alter_ne.
Qed.

Lemma range_sum_S proj h a n :
  range_sum proj h a (S n) = proj (hist_at h a) + range_sum proj h (S a) n.
Proof. done. Qed.

(** Adding a gradient pair into bin [b] raises the sum over a bin range
    by that pair exactly when [b] lies in the range. *)
Lemma range_sum_alter proj g (h : list GradStats) b a n :
  (forall s, proj (GradStats_plus s g) = proj s + proj g) ->
  (b < length h)%nat ->
  range_sum proj (alter (fun s => GradStats_plus s g) b h) a n
  = range_sum proj h a n + (if decide (a <= b < a + n)%nat then proj g else 0).
Proof.
  intros Hproj Hb. revert a. induction n as [|n IH]; intros a.
  - rewrite !range_sum_0. rewrite decide_False by lia. lia.
  - rewrite !range_sum_S, IH, hist_at_alter by done.
    destruct (decide (b = a)) as [->|Hne].
    + rewrite Hproj. rewrite decide_False by lia. rewrite decide_True by lia. lia.
    + destruct (decide (S a <= b < S a + n)%nat).
      * rewrite decide_True by lia. lia.
      * rewrite decide_False by lia. lia.
Qed.

Lemma add_row_length gpair rb h row : length (add_row gpair rb h row) = length h.
Proof.
  unfold add_row. generalize (rb row). intros bins. revert h.
  induction bins as [|b bins IH]; intros h; simpl; [done|].
  by rewrite IH, length_alter.
Qed.

Lemma add_row_sum proj gpair rb (h : list GradStats) row a n :
  (forall s g, proj (GradStats_plus s g) = proj s + proj g) ->
  (forall b, b ∈ rb row -> (b < length h)%nat) ->
  range_sum proj (add_row gpair rb h row) a n
  = range_sum proj h a n
    + Z.of_nat (length (filter (fun b => (a <= b < a + n)%nat) (rb row)))
      * proj (GradStats_of_pair (gpair_at gpair row)).
Proof.
  intros Hproj. unfold add_row. generalize (rb row). intros bins. revert h.
  induction bins as [|b bins IH]; intros h Hin; simpl; [lia|].
  rewrite IH.
  - rewrite range_sum_alter; [|by auto|apply Hin; by left].
    rewrite filter_cons. destruct (decide (a <= b < a + n)%nat); simpl; lia.
  - intros b' Hb'. rewrite length_alter. apply Hin. by right.
Qed.

Lemma BuildHist_fold_sum proj gpair gmat rows (h : list GradStats) a n :
  (forall s g, proj (GradStats_plus s g) = proj s + proj g) ->
  (forall row b, row ∈ rows -> b ∈ row_bins gmat row -> (b < length h)%nat) ->
  (forall row, row ∈ rows ->
     length (filter (fun b => (a <= b < a + n)%nat) (row_bins gmat row)) = 1%nat) ->
  range_sum proj (foldl (add_row gpair (row_bins gmat)) h rows) a n
  = range_sum proj h a n + rows_sum proj gpair rows.
Proof.
  intros Hproj. revert h. induction rows as [|row rows IH]; intros h Hin Hone; simpl; [lia|].
  rewrite IH.
  - rewrite add_row_sum; [|done|intros b Hb; eapply Hin; [by left|done]].
    rewrite Hone by by left. lia.
  - intros row' b Hrow' Hb. rewrite add_row_length. eapply Hin; [by right|done].
  - intros row' Hrow'. apply Hone. by right.
Qed.

Lemma range_sum_InitHist proj nbins a n :
  proj GradStats_zero = 0 -> range_sum proj (InitHist nbins) a n = 0.
Proof.
  intros Hz. revert a. induction n as [|n IH]; intros a; [done|].
  rewrite range_sum_S, IH.
  assert (hist_at (InitHist nbins) a = GradStats_zero) as ->.
  { unfold hist_at, InitHist. destruct (replicate nbins GradStats_zero !! a) eqn:H; [|done].
    by apply lookup_replicate_1 in H as [-> _]. }
  lia.
Qed.

Lemma root_sum_rows_proj gpair rows :
  GetGrad (root_sum_rows gpair rows) = rows_sum GetGrad gpair rows /\
  GetHess (root_sum_rows gpair rows) = rows_sum GetHess gpair rows.
Proof.
  unfold root_sum_rows, rows_sum.
  destruct (foldl_Add_proj (fun row => GetGrad (GradStats_of_pair (gpair_at gpair row)))
              (fun row => GetHess (GradStats_of_pair (gpair_at gpair row)))
              rows GradStats_zero) as [Hg Hh].
  split; [exact Hg|exact Hh].
Qed.


(** The search of [InitData]: when it reports a positive bin count,
    the feature it selected is a feature of the cuts and has bins. *)
Lemma least_bins_fold ptrs l st :
  (forall i, i ∈ l -> (i + 1 < length ptrs)%nat) ->
  ((0 < st.1)%nat -> (st.2 + 1 < length ptrs)%nat /\ (0 < nbins_of ptrs st.2)%nat) ->
  let st' := foldl (least_bins_step ptrs) st l in
  (0 < st'.1)%nat ->
  (st'.2 + 1 < length ptrs)%nat /\ (0 < nbins_of ptrs st'.2)%nat.
Proof.
  revert st. induction l as [|i l IH]; intros st Hl Hst; simpl; [done|].
  apply IH; [intros j Hj; apply Hl; by right|].
  unfold least_bins_step. case_bool_decide as Hn; [|done].
  destruct (_ || _); [|done]. simpl. intros _.
  split; [apply Hl; by left|done].
Qed.

Lemma least_bins_positive ptrs f0 :
  (0 < (least_bins ptrs f0).1)%nat ->
  ((least_bins ptrs f0).2 + 1 < length ptrs)%nat /\
  (0 < nbins_of ptrs (least_bins ptrs f0).2)%nat.
Proof.
  apply least_bins_fold.
  - intros i Hi. apply elem_of_seq in Hi. lia.
  - simpl. lia.
Qed.

Lemma InitData_dense_feature entry0 hinit dev hu gmat gpair info hu1 :
  InitData entry0 hinit dev hu gmat gpair info = Ok hu1 ->
  is_dense (data_layout_ hu1) = true ->
  fid_least_bins_ hu1 = (least_bins (cut_Ptrs gmat) (fid_least_bins_ hu)).2 /\
  (0 < (least_bins (cut_Ptrs gmat) (fid_least_bins_ hu)).1)%nat.
Proof.
  intros H Hd. unfold_InitData_in H.
  destruct (CHECK (_ || _) _) as [[]| |]; simpl in H; try discriminate.
  destruct (if bool_decide _ then _ else _) as [[]| |]; simpl in H; try discriminate.
  destruct (init_row_set dev hu gpair info) as [rs| |]; simpl in H; try discriminate.
  destruct (is_dense (determine_layout gmat info)) eqn:Hl; simpl in H.
  - case_bool_decide as Hpos; simpl in H; [|discriminate].
    injection H as <-. simpl. done.
  - injection H as <-. simpl in Hd. congruence.
Qed.

(** In exact arithmetic, the histogram built from rows that all have
    exactly one bin in the range [a .. a+n-1] sums, over that range, to
    the sum of the gradient pairs of the rows. *)
Lemma BuildHist_range_sum proj gpair gmat rows nbins a n :
  (forall s g, proj (GradStats_plus s g) = proj s + proj g) ->
  proj GradStats_zero = 0 ->
  (forall row b, row ∈ rows -> b ∈ row_bins gmat row -> (b < nbins)%nat) ->
  (forall row, row ∈ rows ->
     length (filter (fun b => (a <= b < a + n)%nat) (row_bins gmat row)) = 1%nat) ->
  range_sum proj (BuildHist gpair rows gmat nbins) a n = rows_sum proj gpair rows.
Proof.
  intros Hproj Hzero Hin Hone. unfold BuildHist.
  rewrite BuildHist_fold_sum; try done.
  - rewrite range_sum_InitHist by done. lia.
  - intros row b Hrow Hb. unfold InitHist. rewrite length_replicate. by eapply Hin.
Qed.

(** ** The sub-group size and the recorded split *)

(** C2 at a failing input.  The feature of [scan_hist] has an empty
    third bin, so the candidates at bins 1 and 2 have the same sums and
    the same gain.  With one work-item the scan keeps the first of
    them (threshold 20).  With two work-items the candidates sit in
    different work-items, both pass the final test, and the first to
    commit fixes the threshold: 30 when the work-items commit in
    local-id order.  When they commit in the opposite order the same
    happens on [mirror_hist] (10 with one work-item, 20 with two). *)
Theorem EnumerateSplit_group_size_changes_split :
  EnumerateSplit demo_best0 1 scan_cut_ptr scan_cut_val scan_hist scan_node demo_best0
    0 0%nat demo_evaluator 0
  = MkSplitEntry 36 0 false 20 (MkGradStats 6 2) (MkGradStats (-6) 2) /\
  EnumerateSplit demo_best0 2 scan_cut_ptr scan_cut_val scan_hist scan_node demo_best0
    0 0%nat demo_evaluator 0
  = MkSplitEntry 36 0 false 30 (MkGradStats 6 2) (MkGradStats (-6) 2) /\
  EnumerateSplit_ordered [0%nat] demo_best0 1 mirror_cut_ptr mirror_cut_val mirror_hist
    mirror_node demo_best0 0 0%nat demo_evaluator 0
  = MkSplitEntry 18 0 false 10 (MkGradStats 3 1) (MkGradStats (-3) 1) /\
  EnumerateSplit_ordered [1%nat; 0%nat] demo_best0 2 mirror_cut_ptr mirror_cut_val
    mirror_hist mirror_node demo_best0 0 0%nat demo_evaluator 0
  = MkSplitEntry 18 0 false 20 (MkGradStats 3 1) (MkGradStats (-3) 1).
Proof. repeat split; reflexivity. Qed.

(** Hence the result of [EnumerateSplit] is not the same for every
    positive sub-group size. *)
Lemma EnumerateSplit_not_group_size_invariant :
  ~ (forall best0 sgs cut_ptr cut_val hist_data snode p_best fid nodeID evaluator mcw,
       (0 < sgs)%nat ->
       EnumerateSplit best0 sgs cut_ptr cut_val hist_data snode p_best fid nodeID evaluator mcw
       = EnumerateSplit best0 1 cut_ptr cut_val hist_data snode p_best fid nodeID evaluator
           mcw).
Proof.
  intros H.
  specialize (H demo_best0 2%nat scan_cut_ptr scan_cut_val scan_hist scan_node demo_best0
                0 0%nat demo_evaluator 0).
  assert (0 < 2)%nat as Hpos by lia. specialize (H Hpos).
  vm_compute in H. discriminate H.
Qed.

(** [EnumerateSplit] returns a greatest element, in the order of
    [Update], of the previous entry, the default entry and all the
    candidates of the bin range, whatever the sub-group size. *)
Lemma EnumerateSplit_greatest
    order best0 sgs cut_ptr cut_val hist_data snode p_best fid nodeID evaluator mcw :
  (0 < sgs)%nat ->
  (forall l, (l < sgs)%nat -> l ∈ order) ->
  fid <= 2 ^ 31 - 1 -> SplitIndex best0 <= 2 ^ 31 - 1 ->
  let ibegin := cut_at cut_ptr (Z.to_nat fid) in
  let iend := cut_at cut_ptr (Z.to_nat fid + 1) in
  let r := EnumerateSplit_ordered order best0 sgs cut_ptr cut_val hist_data snode p_best
             fid nodeID evaluator mcw in
  let cand i := offer cut_val snode fid nodeID evaluator mcw i
                      (left_prefix hist_data ibegin i) in
  (better_eq r p_best /\ better_eq r best0 /\
   forall i e, (ibegin <= i < iend)%nat -> cand i = Some e -> better_eq r e) /\
  (r = p_best \/ r = best0 \/ exists i, (ibegin <= i < iend)%nat /\ cand i = Some r).
Proof.
  intros Hpos Hord Hfid Hb0 ibegin iend r cand.
  set (lanes := scan_lanes best0 sgs cut_ptr cut_val hist_data snode fid nodeID evaluator mcw).
  destruct (scan_lanes_final best0 sgs cut_ptr cut_val hist_data snode fid nodeID evaluator
              mcw Hpos) as [Hlen Hall].
  fold ibegin iend lanes in Hlen, Hall.
  destruct (group_commit_better order lanes p_best) as [Hpb Hwin].
  fold (EnumerateSplit_ordered order best0 sgs cut_ptr cut_val hist_data snode p_best fid
          nodeID evaluator mcw) in Hpb, Hwin. fold r in Hpb, Hwin.
  assert (forall l ln, lanes !! l = Some ln ->
            better_eq (lane_best ln) best0 /\
            (forall i e, (i, e) ∈ lane_offers ln -> better_eq (lane_best ln) e) /\
            SplitIndex (lane_best ln) <= 2 ^ 31 - 1) as Hlane.
  { intros l ln Hl. destruct (Hall l ln Hl) as (j & Hj & Hoff & Hbest & Hid).
    destruct (foldl_Update_better (map snd (lane_offers ln)) best0) as [H1 H2].
    rewrite <- Hbest in H1, H2. split; [done|]. split.
    - intros i e He. apply H2. apply list_elem_of_fmap. by exists (i, e).
    - destruct (foldl_Update_choice (map snd (lane_offers ln)) best0) as [H|H];
        rewrite <- Hbest in H; [by rewrite H|].
      apply list_elem_of_fmap in H as ([i e] & -> & He). rewrite Hoff in He.
      apply offers_of_elem in He as (t & _ & _ & He).
      apply offer_Some in He as (_ & _ & ->). simpl. done. }
  destruct (group_winner_exists lanes) as (w & Hw & Hwinner).
  { intros Hnil. rewrite Hnil in Hlen. simpl in Hlen. lia. }
  { intros ln Hln. apply list_elem_of_lookup in Hln as [l Hl]. by apply (Hlane l ln). }
  apply list_elem_of_lookup in Hw as [lw Hlw].
  assert (better_eq r (lane_best w)) as Hrw.
  { apply (Hwin lw w); [|done|done]. apply Hord. apply lookup_lt_Some in Hlw. lia. }
  assert (forall l ln, lanes !! l = Some ln -> better_eq r (lane_best ln)) as Hrl.
  { intros l ln Hl. eapply better_eq_trans; [exact Hrw|].
    apply (group_winner_best lanes); [done|]. by eapply list_elem_of_lookup_2. }
  split; [split; [done|split]|].
  - eapply better_eq_trans; [exact Hrw|]. by apply (Hlane lw w).
  - intros i e Hi He.
    destruct (proj2 (scan_lanes_offered best0 sgs cut_ptr cut_val
                       hist_data snode fid nodeID evaluator mcw i Hpos Hi))
      as (l & ln & e' & Hl & Hin).
    { apply offer_Some in He. tauto. }
    fold lanes in Hl.
    destruct (Hall l ln Hl) as (j & _ & Hoff & _).
    assert (e' = e) as ->.
    { rewrite Hoff in Hin. apply offers_of_elem in Hin as (t & _ & _ & He').
      unfold cand in He. congruence. }
    eapply better_eq_trans; [by apply (Hrl l ln)|]. by eapply (Hlane l ln).
  - destruct (EnumerateSplit_result_source order best0 sgs cut_ptr cut_val hist_data
                snode p_best fid nodeID evaluator mcw Hpos)
      as [H|[H|(l & ln & i & Hl & Hin)]]; [by left|right; by left|right; right].
    fold lanes in Hl. fold r in Hin.
    destruct (Hall l ln Hl) as (j & Hj & Hoff & _).
    rewrite Hoff in Hin. apply offers_of_elem in Hin as (t & Ht & -> & He).
    eexists. split; [|exact He]. apply Hj in Ht. lia.
Qed.

(** In the exact arithmetic of this embedding, the loss gain and the
    feature id of the entry that [EnumerateSplit] returns depend
    neither on the sub-group size nor on the order of the commits.
    (With rounding the sums, and so the gains, can differ between
    sizes: see [EnumerateSplitT_sum_depends_on_group_size].) *)
Theorem EnumerateSplit_gain_independent_of_group_size
    order1 order2 best0 sgs1 sgs2 cut_ptr cut_val hist_data snode p_best fid nodeID
    evaluator mcw :
  (0 < sgs1)%nat -> (0 < sgs2)%nat ->
  (forall l, (l < sgs1)%nat -> l ∈ order1) ->
  (forall l, (l < sgs2)%nat -> l ∈ order2) ->
  fid <= 2 ^ 31 - 1 -> SplitIndex best0 <= 2 ^ 31 - 1 ->
  let r1 := EnumerateSplit_ordered order1 best0 sgs1 cut_ptr cut_val hist_data snode p_best
              fid nodeID evaluator mcw in
  let r2 := EnumerateSplit_ordered order2 best0 sgs2 cut_ptr cut_val hist_data snode p_best
              fid nodeID evaluator mcw in
  loss_chg r1 = loss_chg r2 /\ SplitIndex r1 = SplitIndex r2.
Proof.
  intros H1 H2 Ho1 Ho2 Hfid Hb0 r1 r2.
  destruct (EnumerateSplit_greatest order1 best0 sgs1 cut_ptr cut_val hist_data snode p_best
              fid nodeID evaluator mcw H1 Ho1 Hfid Hb0) as [(Ua & Ub & Uc) M1].
  destruct (EnumerateSplit_greatest order2 best0 sgs2 cut_ptr cut_val hist_data snode p_best
              fid nodeID evaluator mcw H2 Ho2 Hfid Hb0) as [(Va & Vb & Vc) M2].
  fold r1 in Ua, Ub, Uc, M1. fold r2 in Va, Vb, Vc, M2.
  assert (better_eq r1 r2) as H12.
  { destruct M2 as [->|[->|(i & Hi & He)]]; [done|done|by eapply Uc]. }
  assert (better_eq r2 r1) as H21.
  { destruct M1 as [->|[->|(i & Hi & He)]]; [done|done|by eapply Vc]. }
  unfold better_eq in H12, H21. lia.
Qed.

(** ** The model at work *)

(** A negative Hessian at row 1 triggers the compaction pass, which
    drops the row and resizes the buffer to three entries. *)
Example init_row_set_compacts :
  init_row_set demo_device demo_updater neg_gpair demo_info
  = Ok ([0; 2; 3]%nat, 7, [KFillRows; KCompactRows]).
Proof. reflexivity. Qed.

(** Four rows, one feature with two bins, gradients [1, -1, 1, -1] and
    unit Hessians: [InitData] finds the data dense, and the root
    aggregate read from the histogram is [(0, 4)]. *)
Example root_aggregate_of_demo :
  (hu1 ← InitData demo_entry0 demo_hist_init demo_device demo_updater demo_gmat demo_gpair demo_info;
   hu2 ← BuildLocalHistograms hu1 [MkExpandEntry 0 0] demo_gmat demo_gpair;
   hu3 ← InitNewNode demo_entry0 single_worker demo_evaluator hu2 0 demo_gmat demo_gpair
           root_only_tree;
   Ok (data_layout_ hu3, hist_ hu3 0%nat, stats <$> snode_host_ hu3, submitted_ hu3))
  = Ok (kDenseDataZeroBased, [MkGradStats 0 2; MkGradStats 0 2], [MkGradStats 0 4],
        [KFillRows; KCopyHist; KAllreduce]).
Proof. reflexivity. Qed.

(** * Further properties *)

(** ** EnumerateSplit: what it returns *)

Lemma better_eq_not_strict a b : better_eq a b -> strictly_better b a -> False.
Proof. unfold better_eq, strictly_better. lia. Qed.

Lemma sequential_fold cut_val hist_data snode fid nodeID evaluator mcw best0 ibegin n :
  foldl (sequential_step cut_val hist_data snode fid nodeID evaluator mcw)
        (GradStats_zero, best0) (seq ibegin n)
  = (MkGradStats (range_sum GetGrad hist_data ibegin n) (range_sum GetHess hist_data ibegin n),
     foldl Update best0
       (map snd (offers_of 1 ibegin cut_val hist_data snode fid nodeID evaluator mcw 0 n))).
Proof.
  induction n as [|n IH]; [done|].
  rewrite seq_S, foldl_app, IH. simpl. unfold sequential_step at 1. simpl.
  assert (GradStats_Add
            (MkGradStats (range_sum GetGrad hist_data ibegin n)
                         (range_sum GetHess hist_data ibegin n))
            (GetGrad (hist_at hist_data (ibegin + n)))
            (GetHess (hist_at hist_data (ibegin + n)))
          = left_prefix hist_data ibegin (ibegin + n)) as ->.
  { unfold left_prefix, GradStats_Add. simpl.
    replace (S (ibegin + n) - ibegin)%nat with (n + 1)%nat by lia.
    rewrite !range_sum_app.
    assert (forall proj, range_sum proj hist_data (ibegin + n) 1
                         = proj (hist_at hist_data (ibegin + n))) as H1
      by (intros proj; unfold range_sum; simpl; lia).
    by rewrite !H1. }
  rewrite offers_of_S.
  replace (ibegin + 0 + n * 1)%nat with (ibegin + n)%nat by lia.
  f_equal.
  - unfold left_prefix. replace (S (ibegin + n) - ibegin)%nat with (S n) by lia. done.
  - destruct (offer _ _ _ _ _ _ _ _) as [e|]; rewrite map_app, foldl_app; simpl; done.
Qed.

Lemma single_lane_wins ln : is_group_winner [ln] ln = true.
Proof.
  unfold is_group_winner, total_split_index, total_loss_chg. simpl.
  by rewrite !Z.eqb_refl.
Qed.

(** X4. With a sub-group of one work-item, [EnumerateSplit] is the
    plain sequential scan: it merges into [p_best] the best candidate
    found by adding the bins to a running sum from left to right. *)
Theorem EnumerateSplit_single_work_item
    best0 cut_ptr cut_val hist_data snode p_best fid nodeID evaluator mcw :
  EnumerateSplit best0 1 cut_ptr cut_val hist_data snode p_best fid nodeID evaluator mcw
  = Update p_best (sequential_scan best0 cut_ptr cut_val hist_data snode fid nodeID
                     evaluator mcw).
Proof.
  assert (0 < 1)%nat as Hpos by lia.
  destruct (scan_lanes_final best0 1 cut_ptr cut_val hist_data snode fid nodeID evaluator
              mcw Hpos) as [Hlen Hall].
  unfold EnumerateSplit, EnumerateSplit_ordered, sequential_scan.
  set (lanes := scan_lanes best0 1 cut_ptr cut_val hist_data snode fid nodeID evaluator mcw)
    in *.
  set (ibegin := cut_at cut_ptr (Z.to_nat fid)) in *.
  set (iend := cut_at cut_ptr (Z.to_nat fid + 1)) in *.
  destruct lanes as [|ln [|ln' lanes']] eqn:Hlanes; simpl in Hlen; try lia.
  destruct (Hall 0%nat ln eq_refl) as (j & Hj & Hoff & Hbest & _).
  assert (j = iend - ibegin)%nat as ->.
  { destruct (decide (j <= iend - ibegin)%nat) as [Hle|Hgt].
    - destruct (decide (j = iend - ibegin)%nat) as [|Hne]; [done|].
      assert (j < j)%nat; [apply Hj|]; lia.
    - assert (iend - ibegin < j)%nat as Hlt by lia. apply Hj in Hlt. lia. }
  unfold group_commit. simpl. rewrite single_lane_wins.
  rewrite sequential_fold. simpl. by rewrite Hbest, Hoff.
Qed.

(** ** EnumerateSplit: no qualifying bin *)

Lemma Update_idemp p b : Update (Update p b) b = Update p b.
Proof.
  destruct (Update_choice p b) as [H|H]; rewrite H; [done|apply Update_same].
Qed.

Lemma group_all_same_win lanes b ln :
  (forall ln', ln' ∈ lanes -> lane_best ln' = b) -> ln ∈ lanes ->
  is_group_winner lanes ln = true.
Proof.
  intros Hall Hin.
  assert (lanes <> []) as Hne by (intros ->; by apply elem_of_nil in Hin).
  assert (total_loss_chg lanes = loss_chg b) as Hl.
  { unfold total_loss_chg.
    pose proof (reduce_over_group_max_in (map (fun ln => loss_chg (lane_best ln)) lanes)) as H.
    apply list_elem_of_fmap in H as (l0 & -> & H0); [by rewrite (Hall l0 H0)|].
    by destruct lanes. }
  assert (total_split_index lanes = SplitIndex b) as Hi.
  { unfold total_split_index.
    pose proof (reduce_over_group_min_in
                  (map (fun ln => if loss_chg (lane_best ln) =? total_loss_chg lanes
                                  then SplitIndex (lane_best ln) else 2 ^ 31 - 1) lanes)) as H.
    apply list_elem_of_fmap in H as (l0 & -> & H0); [|by destruct lanes].
    by rewrite Hl, (Hall l0 H0), Z.eqb_refl. }
  unfold is_group_winner. by rewrite Hl, Hi, (Hall ln Hin), !Z.eqb_refl.
Qed.

Lemma group_commit_all_same order lanes b pb :
  (forall ln, ln ∈ lanes -> lane_best ln = b) ->
  (exists l, l ∈ order /\ (l < length lanes)%nat) ->
  group_commit order lanes pb = Update pb b.
Proof.
  intros Hall. unfold group_commit.
  assert (forall order',
            foldl (fun pb l => match lanes !! l with
                               | Some ln => if is_group_winner lanes ln
                                            then Update pb (lane_best ln) else pb
                               | None => pb
                               end) (Update pb b) order' = Update pb b) as Hfix.
  { induction order' as [|l order' IH]; simpl; [done|].
    destruct (lanes !! l) as [ln|] eqn:Hl; [|done].
    assert (ln ∈ lanes) as Hin by by eapply list_elem_of_lookup_2.
    by rewrite (group_all_same_win lanes b ln Hall Hin), (Hall ln Hin), Update_idemp. }
  induction order as [|l order IH]; intros (l0 & Hl0 & Hlt).
  - by apply elem_of_nil in Hl0.
  - simpl. destruct (lanes !! l) as [ln|] eqn:Hl.
    + assert (ln ∈ lanes) as Hin by by eapply list_elem_of_lookup_2.
      rewrite (group_all_same_win lanes b ln Hall Hin), (Hall ln Hin). apply Hfix.
    + apply IH. exists l0. split; [|done].
      apply elem_of_cons in Hl0 as [->|]; [|done].
      apply lookup_ge_None in Hl. lia.
Qed.

Lemma EnumerateSplit_without_candidates
    order best0 sgs cut_ptr cut_val hist_data snode p_best fid nodeID evaluator mcw :
  (0 < sgs)%nat ->
  (exists l, l ∈ order /\ (l < sgs)%nat) ->
  (forall i, (cut_at cut_ptr (Z.to_nat fid) <= i < cut_at cut_ptr (Z.to_nat fid + 1))%nat ->
     candidate_at cut_ptr cut_val hist_data snode fid nodeID evaluator mcw i = None) ->
  EnumerateSplit_ordered order best0 sgs cut_ptr cut_val hist_data snode p_best fid nodeID
    evaluator mcw = Update p_best best0.
Proof.
  intros Hpos Hord Hnone.
  destruct (scan_lanes_final best0 sgs cut_ptr cut_val hist_data snode fid nodeID evaluator
              mcw Hpos) as [Hlen Hall].
  unfold EnumerateSplit_ordered. apply group_commit_all_same; [|by rewrite Hlen].
  intros ln Hin. apply list_elem_of_lookup in Hin as [l Hl].
  destruct (Hall l ln Hl) as (j & Hj & Hoff & Hbest & _).
  assert (lane_offers ln = []) as Hnil.
  { apply elem_of_nil_inv. intros [i e] Hie. rewrite Hoff in Hie.
    apply offers_of_elem in Hie as (t & Ht & -> & He).
    apply Hj in Ht. unfold candidate_at in Hnone. rewrite Hnone in He; [done|lia]. }
  by rewrite Hbest, Hnil.
Qed.

(** X5. When the bin range of the feature is empty, or the total
    Hessian of the node is below twice [min_child_weight], no bin
    qualifies and [EnumerateSplit] merges the default entry into
    [p_best]: [p_best] is kept whenever it is at least as good as the
    default entry. *)
Theorem EnumerateSplit_no_qualifying_bin
    order best0 sgs cut_ptr cut_val hist_data snode p_best fid nodeID evaluator mcw :
  (0 < sgs)%nat ->
  (exists l, l ∈ order /\ (l < sgs)%nat) ->
  (cut_at cut_ptr (Z.to_nat fid + 1) <= cut_at cut_ptr (Z.to_nat fid))%nat \/
  GetHess (stats snode) < 2 * mcw ->
  let r := EnumerateSplit_ordered order best0 sgs cut_ptr cut_val hist_data snode p_best
             fid nodeID evaluator mcw in
  r = Update p_best best0 /\ (better_eq p_best best0 -> r = p_best).
Proof.
  intros Hpos Hord Hcase r.
  assert (r = Update p_best best0) as Hr.
  { apply EnumerateSplit_without_candidates; try done.
    intros i Hi. destruct Hcase as [Hempty|Hlight]; [lia|].
    unfold candidate_at.
    generalize (left_prefix hist_data (cut_at cut_ptr (Z.to_nat fid)) i). intros sum.
    destruct (offer _ _ _ _ _ _ _ _) as [e|] eqn:He; [|done].
    apply offer_Some in He as (H1 & H2 & _). unfold GradStats_minus in H2. simpl in H2. lia. }
  split; [done|]. intros Hbetter. rewrite Hr.
  destruct (Update_strict p_best best0) as [H|[_ Hs]]; [done|].
  destruct (better_eq_not_strict _ _ Hbetter Hs).
Qed.

Lemma EnumerateSplit_no_qualifying_bin_witness :
  EnumerateSplit_ordered [0; 1]%nat demo_best0 2 scan_cut_ptr scan_cut_val scan_hist
    scan_node (MkSplitEntry 5 7 false 1 GradStats_zero GradStats_zero) 0 0%nat
    demo_evaluator 3
  = MkSplitEntry 5 7 false 1 GradStats_zero GradStats_zero.
Proof.
  apply (EnumerateSplit_no_qualifying_bin [0; 1]%nat demo_best0 2 scan_cut_ptr scan_cut_val
           scan_hist scan_node (MkSplitEntry 5 7 false 1 GradStats_zero GradStats_zero)
           0 0%nat demo_evaluator 3).
  - lia.
  - exists 0%nat. split; [left|lia].
  - right. simpl. lia.
  - left. simpl. lia.
Defined.

(** ** EvaluateSplits over any set of nodes and features *)

Lemma mapM_outcome_Ok {A B} (f : A -> outcome B) (g : A -> B) (l : list A) :
  (forall a, a ∈ l -> f a = Ok (g a)) -> mapM_outcome f l = Ok (map g l).
Proof.
  induction l as [|a l IH]; intros H; simpl; [done|].
  rewrite (H a) by left. simpl. rewrite IH by (intros b Hb; apply H; by right). done.
Qed.

Lemma mapM_outcome_Undefined {A B} (f : A -> outcome B) (l : list A) :
  (forall a, a ∈ l -> (exists b, f a = Ok b) \/ f a = Undefined) ->
  (exists a, a ∈ l /\ f a = Undefined) ->
  mapM_outcome f l = Undefined.
Proof.
  induction l as [|a l IH]; intros Hall (a0 & Hin & Hu); simpl.
  - by apply elem_of_nil in Hin.
  - destruct (Hall a) as [[b Hb]|Hb]; [left| |by rewrite Hb].
    rewrite Hb. simpl.
    apply elem_of_cons in Hin as [->|Hin]; [congruence|].
    rewrite IH; [done| |by exists a0].
    intros a' Ha'. apply Hall. by right.
Qed.

Lemma set_best_set_best ne a b : set_best (set_best ne a) b = set_best ne b.
Proof. done. Qed.

Lemma set_best_id ne : set_best ne (best ne) = ne.
Proof. by destruct ne. Qed.

(** The last loop of [EvaluateSplits]: every entry keeps its fields but
    [best], into which the results for its node are merged in order. *)
Lemma merge_split_fold (qbs : list (SplitQuery * SplitEntry)) (s : list NodeEntry) :
  (forall qb, qb ∈ qbs -> (q_nid qb.1 < length s)%nat) ->
  exists s',
    foldl merge_split (Ok s) qbs = Ok s' /\
    length s' = length s /\
    forall j, s' !! j
              = (fun ne => set_best ne (foldl Update (best ne) (results_for j qbs))) <$> s !! j.
Proof.
  revert s. induction qbs as [|[q b] qbs IH]; intros s Hin; simpl.
  - exists s. split; [done|]. split; [done|]. intros j.
    destruct (s !! j) as [ne|]; simpl; [|done]. by rewrite set_best_id.
  - assert (q_nid q < length s)%nat as Hq by (apply (Hin (q, b)); left).
    destruct (lookup_lt_is_Some_2 s (q_nid q) Hq) as [ne Hne].
    unfold merge_split at 1. simpl. rewrite (read_Some _ _ _ Hne). simpl.
    destruct (IH (<[q_nid q := set_best ne (Update (best ne) b)]> s)) as (s' & Hrun & Hlen & Hs').
    { intros qb Hqb. rewrite length_insert. apply Hin. by right. }
    exists s'. split; [done|]. split; [by rewrite Hlen, length_insert|].
    intros j. rewrite Hs'. unfold results_for.
    destruct (decide (q_nid q = j)) as [<-|Hne'].
    + rewrite list_lookup_insert_eq by done. rewrite Hne. simpl.
      rewrite filter_cons_True by done. done.
    + rewrite list_lookup_insert_ne by done.
      rewrite filter_cons_False by done. done.
Qed.

Lemma split_queries_node ff hu nodes_set tree q :
  q ∈ split_queries ff hu nodes_set tree ->
  exists e, e ∈ nodes_set /\ q_nid q = nid e /\ q_hist q = hist_ hu (nid e) /\
            q_fid q ∈ GetFeatureSet ff (GetDepth tree (nid e)) /\
            Query ff (nid e) (q_fid q) = true.
Proof.
  unfold split_queries. intros Hq. apply list_elem_of_In, in_flat_map in Hq as (e & He & Hq).
  apply list_elem_of_In in He. apply list_elem_of_In, list_elem_of_fmap in Hq as (f & -> & Hf).
  apply list_elem_of_In, filter_In in Hf as [Hf HQ]. apply list_elem_of_In in Hf.
  exists e. simpl. done.
Qed.

(** What [EvaluateSplits] returns when every queried node has an entry. *)
Lemma EvaluateSplits_merge order best0 ff evaluator hu nodes_set gmat tree :
  (forall q, q ∈ split_queries ff hu nodes_set tree ->
             (q_nid q < length (snode_host_ hu))%nat) ->
  exists s',
    EvaluateSplits_ordered order best0 ff evaluator hu nodes_set gmat tree
      = Ok (set_snode hu s' []) /\
    length s' = length (snode_host_ hu) /\
    forall j, s' !! j
              = (fun ne => set_best ne
                   (foldl Update (best ne)
                      (results_for j
                         (map (fun q => (q, query_result order best0 evaluator hu gmat
                                              (snode_host_ hu) q))
                              (split_queries ff hu nodes_set tree)))))
                <$> snode_host_ hu !! j.
Proof.
  intros Hin. unfold EvaluateSplits_ordered.
  set (queries := split_queries ff hu nodes_set tree) in *.
  rewrite (mapM_outcome_Ok _ (query_result order best0 evaluator hu gmat (snode_host_ hu))).
  - simpl.
    assert (zip queries (map (query_result order best0 evaluator hu gmat (snode_host_ hu))
                             queries)
            = map (fun q => (q, query_result order best0 evaluator hu gmat (snode_host_ hu) q))
                  queries) as ->.
    { generalize queries. intros l. induction l as [|q l IH]; simpl; [done|by rewrite IH]. }
    destruct (merge_split_fold
                (map (fun q => (q, query_result order best0 evaluator hu gmat
                                     (snode_host_ hu) q)) queries) (snode_host_ hu))
      as (s' & Hrun & Hlen & Hs').
    { intros qb Hqb. apply list_elem_of_fmap in Hqb as (q & -> & Hq). simpl. by apply Hin. }
    exists s'. rewrite Hrun. simpl. done.
  - intros q Hq. unfold evaluate_query, query_result.
    destruct (lookup_lt_is_Some_2 (snode_host_ hu) (q_nid q) (Hin q Hq)) as [ne Hne].
    by rewrite (read_Some _ _ _ Hne), Hne.
Qed.

Lemma results_for_elem j (f : SplitQuery -> SplitEntry) (queries : list SplitQuery) e :
  e ∈ results_for j (map (fun q => (q, f q)) queries) <->
  exists q, q ∈ queries /\ q_nid q = j /\ e = f q.
Proof.
  unfold results_for. rewrite list_elem_of_fmap. split.
  - intros ([q b] & -> & Hqb). apply list_elem_of_filter in Hqb as [Hj Hqb].
    apply list_elem_of_fmap in Hqb as (q' & [= -> ->] & Hq'). by exists q'.
  - intros (q & Hq & Hj & ->). exists (q, f q). split; [done|].
    apply list_elem_of_filter. split; [done|]. apply list_elem_of_fmap. by exists q.
Qed.

(** X7. When every node of the set has an entry in the statistics
    array, [EvaluateSplits] returns, the array keeps its length, and
    every entry keeps its stats, weight and root gain; an entry whose
    node has no query (it is not in the set, or all its features are
    filtered out) is unchanged; the row partition, the histograms, the
    seed, the parameters, the data layout and [fid_least_bins_] are
    not written.  (The scratch buffers of the queries and of the
    per-query results, which the function does write, are not
    members of this embedding.) *)
Theorem EvaluateSplits_frame order best0 ff evaluator hu nodes_set gmat tree :
  (forall e, e ∈ nodes_set -> (nid e < length (snode_host_ hu))%nat) ->
  exists hu',
    EvaluateSplits_ordered order best0 ff evaluator hu nodes_set gmat tree = Ok hu' /\
    length (snode_host_ hu') = length (snode_host_ hu) /\
    (forall j ne, snode_host_ hu !! j = Some ne ->
       exists ne', snode_host_ hu' !! j = Some ne' /\
         stats ne' = stats ne /\ weight ne' = weight ne /\ root_gain ne' = root_gain ne /\
         ((forall q, q ∈ split_queries ff hu nodes_set tree -> q_nid q <> j) -> ne' = ne)) /\
    row_set_collection_ hu' = row_set_collection_ hu /\
    hist_ hu' = hist_ hu /\
    seed_ hu' = seed_ hu /\
    param_ hu' = param_ hu /\
    data_layout_ hu' = data_layout_ hu /\
    fid_least_bins_ hu' = fid_least_bins_ hu.
Proof.
  intros Hin.
  destruct (EvaluateSplits_merge order best0 ff evaluator hu nodes_set gmat tree)
    as (s' & Hrun & Hlen & Hs').
  { intros q Hq. apply split_queries_node in Hq as (e & He & -> & _). by apply Hin. }
  exists (set_snode hu s' []). split; [done|]. simpl. split; [done|].
  split; [|done].
  intros j ne Hne. rewrite Hs', Hne. simpl. eexists. split; [done|]. simpl.
  repeat split; try done.
  intros Hnone.
  assert (results_for j
            (map (fun q => (q, query_result order best0 evaluator hu gmat (snode_host_ hu) q))
                 (split_queries ff hu nodes_set tree)) = []) as ->.
  { apply elem_of_nil_inv. intros e He. apply results_for_elem in He as (q & Hq & Hj & _).
    by apply (Hnone q). }
  simpl. apply set_best_id.
Qed.

Lemma EvaluateSplits_frame_witness :
  exists hu',
    EvaluateSplits_ordered [0; 1]%nat demo_best0 tie_filter demo_evaluator two_node_updater
      [MkExpandEntry 0 0] tie_gmat demo_tree = Ok hu' /\
    snode_host_ hu' !! 1%nat = snode_host_ two_node_updater !! 1%nat.
Proof.
  destruct (EvaluateSplits_frame [0; 1]%nat demo_best0 tie_filter demo_evaluator
              two_node_updater [MkExpandEntry 0 0] tie_gmat demo_tree)
    as (hu' & Hrun & _ & Hent & _).
  - intros e He. apply list_elem_of_singleton in He as ->. simpl. lia.
  - exists hu'. split; [exact Hrun|].
    destruct (Hent 1%nat (MkNodeEntry (MkGradStats 0 2) 5 1 demo_best0) eq_refl)
      as (ne' & Hne' & _ & _ & _ & Hsame).
    rewrite Hne'. simpl. f_equal. apply Hsame.
    intros q Hq. apply split_queries_node in Hq as (e & He & -> & _).
    apply list_elem_of_singleton in He as ->. simpl. lia.
Defined.

(** X8. For any number of nodes and features, the best split that
    [EvaluateSplits] records for a node is at least as good (greater
    gain, then smaller feature id) as the one recorded before and as
    the result of every query of that node, and it is the one recorded
    before or one of these results. *)
Theorem EvaluateSplits_best_is_greatest
    order best0 ff evaluator hu nodes_set gmat tree hu' j ne ne' :
  EvaluateSplits_ordered order best0 ff evaluator hu nodes_set gmat tree = Ok hu' ->
  (forall e, e ∈ nodes_set -> (nid e < length (snode_host_ hu))%nat) ->
  snode_host_ hu !! j = Some ne ->
  snode_host_ hu' !! j = Some ne' ->
  let run q := EnumerateSplit_ordered order best0 (sub_group_size_ hu) (cut_Ptrs gmat)
                 (cut_Values gmat) (q_hist q) ne (best ne) (q_fid q) j evaluator
                 (min_child_weight (param_ hu)) in
  better_eq (best ne') (best ne) /\
  (forall q, q ∈ split_queries ff hu nodes_set tree -> q_nid q = j ->
             better_eq (best ne') (run q)) /\
  (best ne' = best ne \/
   exists q, q ∈ split_queries ff hu nodes_set tree /\ q_nid q = j /\ best ne' = run q).
Proof.
  intros Hrun Hin Hne Hne' run.
  destruct (EvaluateSplits_merge order best0 ff evaluator hu nodes_set gmat tree)
    as (s' & Hrun' & Hlen & Hs').
  { intros q Hq. apply split_queries_node in Hq as (e & He & -> & _). by apply Hin. }
  rewrite Hrun' in Hrun. injection Hrun as <-. simpl in Hne'.
  rewrite Hs', Hne in Hne'. simpl in Hne'. injection Hne' as <-. simpl.
  set (rs := results_for j _).
  assert (forall e, e ∈ rs <->
            exists q, q ∈ split_queries ff hu nodes_set tree /\ q_nid q = j /\ e = run q)
    as Hrs.
  { intros e. unfold rs. rewrite results_for_elem. split.
    - intros (q & Hq & Hj & ->). exists q. split; [done|]. split; [done|].
      unfold query_result, run. by rewrite Hj, Hne.
    - intros (q & Hq & Hj & ->). exists q. split; [done|]. split; [done|].
      unfold query_result, run. by rewrite Hj, Hne. }
  destruct (foldl_Update_better rs (best ne)) as [H1 H2].
  split; [done|]. split.
  - intros q Hq Hj. apply H2, Hrs. by exists q.
  - destruct (foldl_Update_choice rs (best ne)) as [H|H]; [by left|right].
    by apply Hrs in H.
Qed.

Lemma EvaluateSplits_best_is_greatest_witness :
  exists hu' ne',
    EvaluateSplits_ordered [0; 1]%nat demo_best0 tie_filter demo_evaluator two_node_updater
      [MkExpandEntry 0 0; MkExpandEntry 1 1] tie_gmat demo_tree = Ok hu' /\
    snode_host_ hu' !! 1%nat = Some ne' /\
    better_eq (best ne') demo_best0.
Proof.
  eexists _, _. split; [reflexivity|]. split; [reflexivity|].
  refine (proj1 (EvaluateSplits_best_is_greatest [0; 1]%nat demo_best0 tie_filter
                   demo_evaluator two_node_updater [MkExpandEntry 0 0; MkExpandEntry 1 1]
                   tie_gmat demo_tree _ 1%nat (MkNodeEntry (MkGradStats 0 2) 5 1 demo_best0)
                   _ eq_refl _ eq_refl eq_refl)).
  intros e He. apply elem_of_cons in He as [->|He]; [simpl; lia|].
  apply list_elem_of_singleton in He as ->. simpl. lia.
Defined.

(** X9. The gain and the feature id of the best split recorded for a
    node do not depend on the order in which the (node, feature)
    queries are generated: two runs whose query lists are permutations
    of each other record the same gain and the same feature id. *)
Theorem EvaluateSplits_query_order_irrelevant
    order best0 ff1 ff2 evaluator hu nodes1 nodes2 gmat tree hu1 hu2 j n1 n2 :
  split_queries ff1 hu nodes1 tree ≡ₚ split_queries ff2 hu nodes2 tree ->
  (forall e, e ∈ nodes1 -> (nid e < length (snode_host_ hu))%nat) ->
  EvaluateSplits_ordered order best0 ff1 evaluator hu nodes1 gmat tree = Ok hu1 ->
  EvaluateSplits_ordered order best0 ff2 evaluator hu nodes2 gmat tree = Ok hu2 ->
  snode_host_ hu1 !! j = Some n1 ->
  snode_host_ hu2 !! j = Some n2 ->
  loss_chg (best n1) = loss_chg (best n2) /\ SplitIndex (best n1) = SplitIndex (best n2).
Proof.
  intros Hperm Hin Hrun1 Hrun2 Hn1 Hn2.
  assert (forall q, q ∈ split_queries ff1 hu nodes1 tree ->
                    (q_nid q < length (snode_host_ hu))%nat) as Hin1.
  { intros q Hq. apply split_queries_node in Hq as (e & He & -> & _). by apply Hin. }
  assert (forall q, q ∈ split_queries ff2 hu nodes2 tree ->
                    (q_nid q < length (snode_host_ hu))%nat) as Hin2.
  { intros q Hq. apply Hin1. by rewrite Hperm. }
  destruct (EvaluateSplits_merge order best0 ff1 evaluator hu nodes1 gmat tree Hin1)
    as (s1 & Hr1 & _ & Hs1).
  destruct (EvaluateSplits_merge order best0 ff2 evaluator hu nodes2 gmat tree Hin2)
    as (s2 & Hr2 & _ & Hs2).
  rewrite Hr1 in Hrun1. injection Hrun1 as <-. rewrite Hr2 in Hrun2. injection Hrun2 as <-.
  simpl in Hn1, Hn2. rewrite Hs1 in Hn1. rewrite Hs2 in Hn2.
  destruct (snode_host_ hu !! j) as [ne|]; simpl in Hn1, Hn2; [|done].
  injection Hn1 as <-. injection Hn2 as <-. simpl.
  set (f := query_result order best0 evaluator hu gmat (snode_host_ hu)).
  set (rs1 := results_for j (map (fun q => (q, f q)) (split_queries ff1 hu nodes1 tree))).
  set (rs2 := results_for j (map (fun q => (q, f q)) (split_queries ff2 hu nodes2 tree))).
  assert (forall e, e ∈ rs1 <-> e ∈ rs2) as Hsame.
  { intros e. unfold rs1, rs2. rewrite !results_for_elem.
    split; intros (q & Hq & Hrest); exists q; (split; [|done]).
    - by rewrite <- Hperm.
    - by rewrite Hperm. }
  destruct (foldl_Update_better rs1 (best ne)) as [A1 A2].
  destruct (foldl_Update_better rs2 (best ne)) as [B1 B2].
  assert (better_eq (foldl Update (best ne) rs1) (foldl Update (best ne) rs2)) as H12.
  { destruct (foldl_Update_choice rs2 (best ne)) as [->|H]; [done|]. by apply A2, Hsame. }
  assert (better_eq (foldl Update (best ne) rs2) (foldl Update (best ne) rs1)) as H21.
  { destruct (foldl_Update_choice rs1 (best ne)) as [->|H]; [done|]. by apply B2, Hsame. }
  unfold better_eq in H12, H21. lia.
Qed.

Lemma EvaluateSplits_query_order_irrelevant_witness :
  exists hu1 hu2 n1 n2,
    EvaluateSplits_ordered [0; 1]%nat demo_best0 tie_filter demo_evaluator two_node_updater
      [MkExpandEntry 0 0] tie_gmat demo_tree = Ok hu1 /\
    EvaluateSplits_ordered [0; 1]%nat demo_best0 tie_filter_rev demo_evaluator
      two_node_updater [MkExpandEntry 0 0] tie_gmat demo_tree = Ok hu2 /\
    snode_host_ hu1 !! 0%nat = Some n1 /\
    snode_host_ hu2 !! 0%nat = Some n2 /\
    loss_chg (best n1) = loss_chg (best n2) /\ SplitIndex (best n1) = SplitIndex (best n2).
Proof.
  eexists _, _, _, _.
  split; [reflexivity|]. split; [reflexivity|]. split; [reflexivity|]. split; [reflexivity|].
  refine (EvaluateSplits_query_order_irrelevant [0; 1]%nat demo_best0 tie_filter
            tie_filter_rev demo_evaluator two_node_updater [MkExpandEntry 0 0]
            [MkExpandEntry 0 0] tie_gmat demo_tree _ _ 0%nat _ _ _ _ eq_refl eq_refl
            eq_refl eq_refl).
  - apply perm_swap.
  - intros e He. apply list_elem_of_singleton in He as ->. simpl. lia.
Defined.

(** X10. When a query names a node id outside the statistics array,
    [EvaluateSplits] indexes the array out of bounds: it neither
    returns nor raises a fatal error. *)
Theorem EvaluateSplits_out_of_bounds order best0 ff evaluator hu nodes_set gmat tree q :
  q ∈ split_queries ff hu nodes_set tree ->
  (length (snode_host_ hu) <= q_nid q)%nat ->
  EvaluateSplits_ordered order best0 ff evaluator hu nodes_set gmat tree = Undefined.
Proof.
  intros Hq Hout. unfold EvaluateSplits_ordered.
  rewrite mapM_outcome_Undefined; [done| |].
  - intros q' _. unfold evaluate_query, read.
    destruct (snode_host_ hu !! q_nid q'); simpl; [left; by eexists|by right].
  - exists q. split; [done|]. unfold evaluate_query, read.
    by rewrite (proj2 (lookup_ge_None _ _) Hout).
Qed.

Lemma EvaluateSplits_out_of_bounds_witness :
  EvaluateSplits_ordered [0; 1]%nat demo_best0 tie_filter demo_evaluator two_node_updater
    [MkExpandEntry 0 0; MkExpandEntry 2 1] tie_gmat demo_tree = Undefined.
Proof.
  apply (EvaluateSplits_out_of_bounds [0; 1]%nat demo_best0 tie_filter demo_evaluator
           two_node_updater [MkExpandEntry 0 0; MkExpandEntry 2 1] tie_gmat demo_tree
           (MkSplitQuery 2 1 tie_hist)).
  - right. right. left.
  - simpl. lia.
Defined.

(** ** InitData: checks, layout and state *)

(** X11. Unlimited depth ([max_depth <= 0]) is rejected by [InitData]
    before anything else happens, unless growth is loss-guided with a
    positive leaf limit: with a positive leaf limit the error is the
    depth-wise one, without it the error is that depth and leaves
    cannot both be unlimited. *)
Theorem InitData_rejects_unlimited_depth entry0 hinit dev hu gmat gpair info :
  max_depth (param_ hu) <= 0 ->
  grow_policy (param_ hu) = kDepthWise \/ max_leaves (param_ hu) <= 0 ->
  InitData entry0 hinit dev hu gmat gpair info
  = Fatal (if 0 <? max_leaves (param_ hu) then ErrDepthWise else ErrDepthAndLeaves).
Proof.
  intros Hd Hcase. unfold_InitData.
  pose proof (proj2 (Z.ltb_ge 0 (max_depth (param_ hu))) Hd) as Hltb.
  destruct (Z.ltb_spec 0 (max_leaves (param_ hu))) as [Hl|Hl].
  - destruct Hcase as [Hg|Hle]; [|lia].
    rewrite orb_true_r. simpl.
    rewrite (bool_decide_true (grow_policy (param_ hu) = kDepthWise)) by done.
    unfold CHECK. by rewrite Hltb.
  - by rewrite Hltb.
Qed.

Lemma InitData_rejects_unlimited_depth_witness :
  InitData demo_entry0 demo_hist_init demo_device unlimited_updater demo_gmat demo_gpair demo_info
  = Fatal ErrDepthWise.
Proof.
  apply (InitData_rejects_unlimited_depth demo_entry0 demo_hist_init demo_device unlimited_updater
           demo_gmat demo_gpair demo_info).
  - simpl. lia.
  - left. reflexivity.
Defined.

Lemma least_bins_prefix ptrs f0 k :
  let st := foldl (least_bins_step ptrs) (0%nat, f0) (seq 0 k) in
  (st.1 = 0%nat /\ st.2 = f0 /\ forall i, (i < k)%nat -> nbins_of ptrs i = 0%nat) \/
  ((0 < st.1)%nat /\ (st.2 < k)%nat /\ nbins_of ptrs st.2 = st.1 /\
   forall i, (i < k)%nat -> (0 < nbins_of ptrs i)%nat ->
     (st.1 <= nbins_of ptrs i)%nat /\ (nbins_of ptrs i = st.1 -> (st.2 <= i)%nat)).
Proof.
  induction k as [|k IH]; cbv zeta.
  - left. simpl. repeat split; try done. lia.
  - cbv zeta in IH. rewrite seq_S, foldl_app. simpl.
    set (st := foldl (least_bins_step ptrs) (0%nat, f0) (seq 0 k)) in *.
    assert (((0 < nbins_of ptrs k)%nat /\ (st.1 = 0%nat \/ (nbins_of ptrs k < st.1)%nat) /\
             least_bins_step ptrs st k = (nbins_of ptrs k, k)) \/
            ((nbins_of ptrs k = 0%nat \/ (0 < st.1 <= nbins_of ptrs k)%nat) /\
             least_bins_step ptrs st k = st)) as Hstep.
    { unfold least_bins_step. fold (nbins_of ptrs k).
      repeat case_bool_decide; simpl;
        first [left; repeat split; try done; lia|right; repeat split; try done; lia]. }
    destruct Hstep as [(Hk & Hc & ->)|(Hc & ->)];
      destruct IH as [(Hz & Hf & Hall)|(Hp & Hlt & Hn & Hall)]; simpl.
    + right. split; [done|]. split; [lia|]. split; [done|].
      intros i Hi Hpos. destruct (decide (i = k)) as [->|Hne]; [lia|].
      specialize (Hall i). lia.
    + right. split; [done|]. split; [lia|]. split; [done|].
      intros i Hi Hpos. destruct (decide (i = k)) as [->|Hne]; [lia|].
      destruct (Hall i) as [Hle Htie]; [lia|done|]. lia.
    + left. split; [done|]. split; [done|].
      intros i Hi. destruct (decide (i = k)) as [->|Hne]; [lia|]. apply Hall. lia.
    + right. split; [done|]. split; [lia|]. split; [done|].
      intros i Hi Hpos. destruct (decide (i = k)) as [->|Hne]; [lia|].
      apply Hall; [lia|done].
Qed.

(** X12. When [InitData] returns with a dense layout, [fid_least_bins_]
    is a feature of the cuts with at least one bin, no feature with
    bins has fewer bins, and among the features with as few bins it is
    the one with the smallest index. *)
Theorem InitData_least_bins entry0 hinit dev hu gmat gpair info hu1 :
  InitData entry0 hinit dev hu gmat gpair info = Ok hu1 ->
  is_dense (data_layout_ hu1) = true ->
  let f := fid_least_bins_ hu1 in
  let nfeature := (length (cut_Ptrs gmat) - 1)%nat in
  (f < nfeature)%nat /\ (0 < nbins_of (cut_Ptrs gmat) f)%nat /\
  forall i, (i < nfeature)%nat -> (0 < nbins_of (cut_Ptrs gmat) i)%nat ->
    (nbins_of (cut_Ptrs gmat) f <= nbins_of (cut_Ptrs gmat) i)%nat /\
    (nbins_of (cut_Ptrs gmat) i = nbins_of (cut_Ptrs gmat) f -> (f <= i)%nat).
Proof.
  intros Hrun Hdense f nfeature.
  destruct (InitData_dense_feature _ _ _ _ _ _ _ _ Hrun Hdense) as [Hfid Hpos].
  unfold f. rewrite Hfid. clear f Hfid.
  pose proof (least_bins_prefix (cut_Ptrs gmat) (fid_least_bins_ hu) nfeature) as H.
  unfold least_bins in *. fold nfeature in Hpos |- *.
  destruct H as [(Hz & _)|(Hp & Hlt & Hn & Hall)]; [lia|].
  rewrite Hn. split; [done|]. split; [done|]. exact Hall.
Qed.

Lemma InitData_least_bins_witness :
  exists hu1,
    InitData demo_entry0 demo_hist_init demo_device demo_updater uneven_gmat demo_gpair uneven_info = Ok hu1 /\
    fid_least_bins_ hu1 = 2%nat /\
    (fid_least_bins_ hu1 < 4)%nat /\
    (0 < nbins_of (cut_Ptrs uneven_gmat) (fid_least_bins_ hu1))%nat.
Proof.
  eexists. split; [reflexivity|]. split; [reflexivity|].
  pose proof (InitData_least_bins demo_entry0 demo_hist_init demo_device demo_updater uneven_gmat demo_gpair
                uneven_info _ eq_refl eq_refl) as (H1 & H2 & _).
  split; [exact H1|exact H2].
Defined.

Lemma init_row_set_uniform_Ok dev hu gpair info :
  sampling_method (param_ hu) = kUniform -> exists rs, init_row_set dev hu gpair info = Ok rs.
Proof.
  intros Hu. unfold init_row_set. rewrite Hu.
  case_bool_decide; simpl; [by eexists|].
  destruct (foldl _ _ _).2; by eexists.
Qed.

(** X13. On a dense layout in which no feature has a bin, [InitData]
    stops with the fatal error of its last check. *)
Theorem InitData_dense_without_bins entry0 hinit dev hu gmat gpair info :
  0 < max_depth (param_ hu) ->
  sampling_method (param_ hu) = kUniform ->
  is_dense (determine_layout gmat info) = true ->
  (forall i, (i < length (cut_Ptrs gmat) - 1)%nat -> nbins_of (cut_Ptrs gmat) i = 0%nat) ->
  InitData entry0 hinit dev hu gmat gpair info = Fatal ErrNoBins.
Proof.
  intros Hd Hu Hdense Hnone. unfold_InitData.
  rewrite (proj2 (Z.ltb_lt _ _) Hd). simpl.
  destruct (init_row_set_uniform_Ok dev hu gpair info Hu) as [rs ->].
  rewrite Hdense.
  assert (forall (b : bool) (k : unit -> outcome HistUpdater),
            ((if b then Ok tt else Ok tt) ≫= k) = k tt) as Hskip
    by (intros [] k; done).
  rewrite Hskip. simpl.
  pose proof (least_bins_prefix (cut_Ptrs gmat) (fid_least_bins_ hu)
                (length (cut_Ptrs gmat) - 1)) as H.
  unfold least_bins.
  destruct H as [(Hz & _)|(Hp & Hlt & Hn & _)].
  - rewrite Hz. by rewrite bool_decide_false by lia.
  - specialize (Hnone _ Hlt). lia.
Qed.

Lemma InitData_dense_without_bins_witness :
  InitData demo_entry0 demo_hist_init demo_device demo_updater empty_gmat [] empty_info = Fatal ErrNoBins.
Proof.
  apply (InitData_dense_without_bins demo_entry0 demo_hist_init demo_device demo_updater empty_gmat []
           empty_info).
  - simpl. lia.
  - reflexivity.
  - reflexivity.
  - intros i Hi. simpl in Hi. assert (i = 0%nat) as -> by lia. reflexivity.
Defined.

(** The bin count is a [uint32_t] difference: on cut pointers that do
    not ascend it wraps around, and the feature counts as one with
    [2^32 - 1] bins. *)
Example nbins_of_wraps : Z.of_nat (nbins_of [2; 1]%nat 0) = 2 ^ 32 - 1.
Proof. unfold nbins_of. rewrite Z2Nat.id; [reflexivity|]. by vm_compute. Qed.

Lemma InitData_inv entry0 hinit dev hu gmat gpair info hu1 :
  InitData entry0 hinit dev hu gmat gpair info = Ok hu1 ->
  exists rs f,
    init_row_set dev hu gpair info = Ok rs /\
    hu1 = set_snode
            (set_layout
               (set_row_set
                  (set_hist hu (hinit (hist_ hu) (default 0%nat (last (cut_Ptrs gmat)))))
                  (RowSetCollection_Init rs.1.1) rs.1.2 rs.2)
               (determine_layout gmat info) f)
            (replicate (length (snode_host_ hu)) entry0) [].
Proof.
  intros H. unfold_InitData_in H.
  destruct (CHECK (_ || _) _) as [[]| |]; simpl in H; try discriminate.
  destruct (if bool_decide _ then _ else _) as [[]| |]; simpl in H; try discriminate.
  destruct (init_row_set dev hu gpair info) as [rs| |]; simpl in H; try discriminate.
  exists rs.
  destruct (is_dense (determine_layout gmat info)); simpl in H.
  - case_bool_decide; simpl in H; [|discriminate]. injection H as <-. by eexists.
  - injection H as <-. by eexists.
Qed.

Lemma init_row_set_Ok_inv dev hu gpair info rs :
  init_row_set dev hu gpair info = Ok rs ->
  ((subsample (param_ hu) < 1)%Qc -> sampling_method (param_ hu) = kUniform) /\
  rs.1.2 = (if bool_decide (subsample (param_ hu) < 1)%Qc
            then (seed_ hu + Z.of_nat (num_row_ info)) mod 2 ^ 64
            else seed_ hu).
Proof.
  unfold init_row_set. case_bool_decide as Hs.
  - case_bool_decide as Hu; simpl; [|discriminate].
    intros [= <-]. split; [done|]. simpl. by rewrite length_resize.
  - destruct (foldl _ _ _).2; intros [= <-]; split; done.
Qed.

(** X14. A successful [InitData] leaves a valid row set: the row
    indices are pairwise distinct, each is a row of the matrix and
    none has a negative Hessian.  The seed has advanced by the number
    of rows (modulo [2^64]) when subsampling and is unchanged
    otherwise; every statistics entry is reset and the array keeps its
    length; the layout is the one determined from the matrix; the
    histogram collection is the one its own [Init] returns. *)
Theorem InitData_state entry0 hinit dev hu gmat gpair info hu1 :
  runs_every_item dev ->
  InitData entry0 hinit dev hu gmat gpair info = Ok hu1 ->
  let rows := rsc_Data (row_set_collection_ hu1) in
  NoDup rows /\
  (forall r, r ∈ rows -> (r < num_row_ info)%nat /\ ~ gp_hess (gpair_at gpair r) < 0) /\
  seed_ hu1 = (if bool_decide (subsample (param_ hu) < 1)%Qc
               then (seed_ hu + Z.of_nat (num_row_ info)) mod 2 ^ 64
               else seed_ hu) /\
  snode_host_ hu1 = replicate (length (snode_host_ hu)) entry0 /\
  data_layout_ hu1 = determine_layout gmat info /\
  param_ hu1 = param_ hu /\
  hist_ hu1 = hinit (hist_ hu) (default 0%nat (last (cut_Ptrs gmat))).
Proof.
  intros Hdev Hrun rows.
  destruct (InitData_inv _ _ _ _ _ _ _ _ Hrun) as (rs & f & Hrs & ->).
  destruct (init_row_set_Ok_inv _ _ _ _ _ Hrs) as [Hunif Hseed].
  destruct (init_row_set_rows dev hu gpair info Hdev Hunif) as (rows' & seed & ks & Hrs' & Hperm).
  rewrite Hrs in Hrs'. injection Hrs' as ->. simpl in Hseed. subst seed.
  unfold rows. simpl.
  split; [rewrite Hperm; apply NoDup_filter, NoDup_seq|].
  split; [|done].
  intros r Hr. rewrite Hperm in Hr. apply list_elem_of_filter in Hr as [Hk Hr].
  apply elem_of_seq in Hr. split; [lia|].
  unfold row_kept in Hk. apply Is_true_true, andb_true_iff in Hk as [Hk _].
  apply Z.leb_le in Hk. lia.
Qed.

Lemma InitData_state_witness :
  exists hu1,
    InitData demo_entry0 demo_hist_init demo_device demo_updater demo_gmat neg_gpair demo_info = Ok hu1 /\
    rsc_Data (row_set_collection_ hu1) = [0; 2; 3]%nat /\
    NoDup (rsc_Data (row_set_collection_ hu1)) /\
    seed_ hu1 = 7.
Proof.
  eexists. split; [reflexivity|]. split; [reflexivity|].
  pose proof (InitData_state demo_entry0 demo_hist_init demo_device demo_updater demo_gmat neg_gpair
                demo_info _ (fun k n => reflexivity (seq 0 n)) eq_refl)
    as (Hnd & _ & Hseed & _).
  split; [exact Hnd|exact Hseed].
Defined.

(** ** InitNewNode: results and failures *)

Lemma InitNewNode_Ok_inv entry0 Allreduce evaluator hu nid_ gmat gpair tree hu' :
  InitNewNode entry0 Allreduce evaluator hu nid_ gmat gpair tree = Ok hu' ->
  let resized := resize (NumNodes tree) entry0 (snode_host_ hu) in
  exists st ks ne,
    resized !! nid_ = Some ne /\
    hu' = set_snode hu
            (<[nid_ := set_weight_gain (set_stats ne st)
                         (CalcWeight evaluator (Parent tree nid_) st)
                         (CalcGain evaluator (Parent tree nid_) st)]> resized) ks /\
    (IsRoot tree nid_ = true ->
       exists local k, root_local_sum hu nid_ gmat gpair = Ok (local, k) /\
                       Allreduce local = Some st /\ ks = [k; KAllreduce]) /\
    (IsRoot tree nid_ = false ->
       exists p, resized !! Parent tree nid_ = Some p /\ ks = [] /\
                 st = if IsLeftChild tree nid_ then left_sum (best p) else right_sum (best p)).
Proof.
  intros Hrun resized. unfold InitNewNode in Hrun. fold resized in Hrun.
  destruct (_ : outcome (GradStats * list Kernel)) as [[st ks]| |] eqn:Hst in Hrun;
    simpl in Hrun; try discriminate.
  unfold read in Hrun. destruct (resized !! nid_) as [ne|] eqn:Hne; simpl in Hrun;
    [|discriminate].
  injection Hrun as <-. exists st, ks, ne. split; [done|]. split; [done|].
  split; intros Hroot; rewrite Hroot in Hst.
  - destruct (root_local_sum hu nid_ gmat gpair) as [[local k]| |]; simpl in Hst;
      try discriminate.
    destruct (Allreduce local) as [g|] eqn:Hg; [|discriminate].
    injection Hst as <- <-. by exists local, k.
  - unfold read in Hst. destruct (resized !! Parent tree nid_) as [p|]; simpl in Hst;
      [|discriminate].
    exists p. destruct (IsLeftChild tree nid_); injection Hst as <- <-; done.
Qed.

(** X15. After a successful [InitNewNode(nid)], the weight and the root
    gain of entry [nid] are those the evaluator gives for the parent
    id and the stored statistics; for the root, the stored statistics
    are the all-reduce of the local aggregate, and the kernel log grows
    by the local pass and the all-reduce. *)
Theorem InitNewNode_entry entry0 Allreduce evaluator hu nid_ gmat gpair tree hu' :
  InitNewNode entry0 Allreduce evaluator hu nid_ gmat gpair tree = Ok hu' ->
  exists ne',
    snode_host_ hu' !! nid_ = Some ne' /\
    weight ne' = CalcWeight evaluator (Parent tree nid_) (stats ne') /\
    root_gain ne' = CalcGain evaluator (Parent tree nid_) (stats ne') /\
    (IsRoot tree nid_ = true ->
       exists local k, root_local_sum hu nid_ gmat gpair = Ok (local, k) /\
                       Allreduce local = Some (stats ne') /\
                       submitted_ hu' = submitted_ hu ++ [k; KAllreduce]).
Proof.
  intros Hrun.
  destruct (InitNewNode_Ok_inv _ _ _ _ _ _ _ _ _ Hrun) as (st & ks & ne & Hne & -> & Hroot & _).
  eexists. split.
  { simpl. apply list_lookup_insert_eq. by apply lookup_lt_Some in Hne. }
  simpl. split; [done|]. split; [done|].
  intros Hr. destruct (Hroot Hr) as (local & k & Hl & Hg & ->). by exists local, k.
Qed.

Lemma InitNewNode_entry_witness :
  exists hu' ne',
    InitNewNode demo_entry0 single_worker demo_evaluator split_root_updater 0 demo_gmat
      demo_gpair demo_tree = Ok hu' /\
    snode_host_ hu' !! 0%nat = Some ne' /\
    stats ne' = MkGradStats 0 4 /\
    root_gain ne' = CalcGain demo_evaluator (Parent demo_tree 0) (stats ne') /\
    submitted_ hu' = [KReduceRows; KAllreduce].
Proof.
  destruct (InitNewNode_entry demo_entry0 single_worker demo_evaluator split_root_updater 0
              demo_gmat demo_gpair demo_tree _ eq_refl) as (ne' & Hne & _ & Hg & _).
  eexists _, ne'. split; [reflexivity|]. split; [exact Hne|].
  split; [|split; [exact Hg|reflexivity]].
  simpl in Hne. injection Hne as <-. reflexivity.
Defined.

(** X16. A failed all-reduce is fatal.  [InitNewNode] stops with the
    error of the collective exactly when the node is the root, its
    local aggregate has been computed, and the collective reports a
    failure. *)
Theorem InitNewNode_collective_failure entry0 Allreduce evaluator hu nid_ gmat gpair tree :
  InitNewNode entry0 Allreduce evaluator hu nid_ gmat gpair tree = Fatal ErrCollective <->
  IsRoot tree nid_ = true /\
  exists local k, root_local_sum hu nid_ gmat gpair = Ok (local, k) /\ Allreduce local = None.
Proof.
  unfold InitNewNode. split.
  - intros H. destruct (IsRoot tree nid_) eqn:Hroot.
    + destruct (root_local_sum hu nid_ gmat gpair) as [[local k]| |] eqn:Hl; simpl in H.
      * destruct (Allreduce local) as [g|] eqn:Hg; simpl in H.
        -- unfold read in H. destruct (_ !! nid_); simpl in H; discriminate.
        -- split; [done|]. by exists local, k.
      * unfold root_local_sum in Hl. destruct (is_dense _); [discriminate|].
        unfold RowSetCollection_at in Hl.
        destruct (elem_of_each_node_ _ !! nid_); simpl in Hl; [discriminate|].
        injection Hl as <-. discriminate.
      * discriminate.
    + unfold read in H.
      destruct (resize _ _ _ !! Parent tree nid_); simpl in H; [|discriminate].
      destruct (IsLeftChild tree nid_); simpl in H;
        destruct (resize _ _ _ !! nid_); simpl in H; discriminate.
  - intros (Hroot & local & k & Hl & Hg). rewrite Hroot, Hl. simpl. by rewrite Hg.
Qed.

Lemma InitNewNode_collective_failure_witness :
  InitNewNode demo_entry0 failing_collective demo_evaluator split_root_updater 0 demo_gmat
    demo_gpair demo_tree = Fatal ErrCollective.
Proof.
  apply (proj2 (InitNewNode_collective_failure demo_entry0 failing_collective demo_evaluator
                  split_root_updater 0 demo_gmat demo_gpair demo_tree)).
  split; [reflexivity|].
  eexists _, _. split; reflexivity.
Defined.

Lemma InitNewNode_child_run entry0 Allreduce evaluator hu nid_ gmat gpair tree p ne :
  IsRoot tree nid_ = false ->
  resize (NumNodes tree) entry0 (snode_host_ hu) !! Parent tree nid_ = Some p ->
  resize (NumNodes tree) entry0 (snode_host_ hu) !! nid_ = Some ne ->
  let st := if IsLeftChild tree nid_ then left_sum (best p) else right_sum (best p) in
  InitNewNode entry0 Allreduce evaluator hu nid_ gmat gpair tree
  = Ok (set_snode hu
          (<[nid_ := set_weight_gain (set_stats ne st)
                       (CalcWeight evaluator (Parent tree nid_) st)
                       (CalcGain evaluator (Parent tree nid_) st)]>
             (resize (NumNodes tree) entry0 (snode_host_ hu))) []).
Proof.
  intros Hroot Hp Hne st. unfold InitNewNode.
  rewrite Hroot, (read_Some _ _ _ Hp). simpl.
  unfold st. destruct (IsLeftChild tree nid_); simpl; by rewrite (read_Some _ _ _ Hne).
Qed.

(** X17. For a node that is not the root, [InitNewNode] returns exactly
    when the node id and its parent id are below the tree's node
    count; otherwise it indexes the statistics array out of bounds.
    It never raises a fatal error for such a node. *)
Theorem InitNewNode_child_defined_iff entry0 Allreduce evaluator hu nid_ gmat gpair tree :
  IsRoot tree nid_ = false ->
  ((exists hu', InitNewNode entry0 Allreduce evaluator hu nid_ gmat gpair tree = Ok hu') <->
   (nid_ < NumNodes tree)%nat /\ (Parent tree nid_ < NumNodes tree)%nat) /\
  (~ ((nid_ < NumNodes tree)%nat /\ (Parent tree nid_ < NumNodes tree)%nat) ->
   InitNewNode entry0 Allreduce evaluator hu nid_ gmat gpair tree = Undefined).
Proof.
  intros Hroot.
  set (resized := resize (NumNodes tree) entry0 (snode_host_ hu)).
  assert (length resized = NumNodes tree) as Hlen by apply length_resize.
  split; [split|].
  - intros [hu' Hrun].
    destruct (InitNewNode_Ok_inv _ _ _ _ _ _ _ _ _ Hrun) as (st & ks & ne & Hne & _ & _ & Hc).
    destruct (Hc Hroot) as (p & Hp & _).
    apply lookup_lt_Some in Hne, Hp. fold resized in Hne, Hp. lia.
  - intros [Hn Hp].
    destruct (lookup_lt_is_Some_2 resized (Parent tree nid_)) as [p Hp']; [lia|].
    destruct (lookup_lt_is_Some_2 resized nid_) as [ne Hne]; [lia|].
    eexists. by apply (InitNewNode_child_run _ _ _ _ _ _ _ _ p ne).
  - intros Hnot. unfold InitNewNode. fold resized. rewrite Hroot. unfold read.
    destruct (resized !! Parent tree nid_) as [p|] eqn:Hp; simpl; [|done].
    assert (resized !! nid_ = None) as Hnone.
    { apply lookup_ge_None. apply lookup_lt_Some in Hp. lia. }
    destruct (IsLeftChild tree nid_); simpl; by rewrite Hnone.
Qed.

Lemma InitNewNode_child_defined_iff_witness :
  InitNewNode demo_entry0 single_worker demo_evaluator split_root_updater 3 demo_gmat
    demo_gpair demo_tree = Undefined.
Proof.
  apply (proj2 (InitNewNode_child_defined_iff demo_entry0 single_worker demo_evaluator
                  split_root_updater 3 demo_gmat demo_gpair demo_tree eq_refl)).
  simpl. lia.
Defined.

(** ** BuildLocalHistograms *)






(** ** EvaluateSplits and EnumerateSplit together *)

Lemma Update_dominated pb x : better_eq pb x -> Update pb x = pb.
Proof.
  intros H. destruct (Update_strict pb x) as [Hu|[_ Hs]]; [done|].
  destruct (better_eq_not_strict _ _ H Hs).
Qed.

Lemma group_commit_dominated order lanes pb :
  (forall l ln, lanes !! l = Some ln -> better_eq pb (lane_best ln)) ->
  group_commit order lanes pb = pb.
Proof.
  intros Hdom. unfold group_commit. induction order as [|l order IH] using rev_ind; [done|].
  rewrite foldl_app. simpl. rewrite IH.
  destruct (lanes !! l) as [ln|] eqn:Hl; [|done].
  destruct (is_group_winner lanes ln); [|done].
  apply Update_dominated. by eapply Hdom.
Qed.

Lemma foldl_Update_const (l : list SplitEntry) b :
  (forall e, e ∈ l -> e = b) -> foldl Update b l = b.
Proof.
  induction l as [|x l IH]; intros H; simpl; [done|].
  rewrite (H x) by left. rewrite Update_same. apply IH. intros e He. apply H. by right.
Qed.

(** The best split recorded for a node dominates the default entry
    and every candidate of every query of the node. *)
Lemma EvaluateSplits_dominates order best0 ff evaluator hu nodes_set gmat tree j ne q :
  (0 < sub_group_size_ hu)%nat ->
  (forall l, (l < sub_group_size_ hu)%nat -> l ∈ order) ->
  SplitIndex best0 <= 2 ^ 31 - 1 ->
  snode_host_ hu !! j = Some ne ->
  q ∈ split_queries ff hu nodes_set tree -> q_nid q = j -> q_fid q <= 2 ^ 31 - 1 ->
  let b1 := foldl Update (best ne)
              (results_for j
                 (map (fun q => (q, query_result order best0 evaluator hu gmat
                                      (snode_host_ hu) q))
                      (split_queries ff hu nodes_set tree))) in
  better_eq b1 best0 /\
  forall i e,
    (cut_at (cut_Ptrs gmat) (Z.to_nat (q_fid q)) <= i
     < cut_at (cut_Ptrs gmat) (Z.to_nat (q_fid q) + 1))%nat ->
    candidate_at (cut_Ptrs gmat) (cut_Values gmat) (q_hist q) ne (q_fid q) j evaluator
      (min_child_weight (param_ hu)) i = Some e ->
    better_eq b1 e.
Proof.
  intros Hpos Hord Hb0 Hne Hq Hj Hfid b1.
  destruct (foldl_Update_better
              (results_for j
                 (map (fun q => (q, query_result order best0 evaluator hu gmat
                                      (snode_host_ hu) q))
                      (split_queries ff hu nodes_set tree))) (best ne)) as [_ H2].
  fold b1 in H2.
  assert (better_eq b1 (EnumerateSplit_ordered order best0 (sub_group_size_ hu)
                          (cut_Ptrs gmat) (cut_Values gmat) (q_hist q) ne (best ne)
                          (q_fid q) j evaluator (min_child_weight (param_ hu)))) as Hb.
  { apply H2, results_for_elem. exists q. split; [done|]. split; [done|].
    unfold query_result. by rewrite Hj, Hne. }
  destruct (EnumerateSplit_greatest order best0 (sub_group_size_ hu) (cut_Ptrs gmat)
              (cut_Values gmat) (q_hist q) ne (best ne) (q_fid q) j evaluator
              (min_child_weight (param_ hu)) Hpos Hord Hfid Hb0) as [(_ & Hd & Hc) _].
  split; [by eapply better_eq_trans|].
  intros i e Hi He. eapply better_eq_trans; [exact Hb|]. by apply (Hc i e).
Qed.

(** X22. Evaluating the same nodes a second time changes nothing: for a
    positive sub-group size, after a first [EvaluateSplits] a second
    one over the same nodes, features and histograms returns, and it
    leaves the statistics array as the first one left it. *)
Theorem EvaluateSplits_idempotent
    order best0 ff evaluator hu nodes_set gmat tree hu1 :
  (0 < sub_group_size_ hu)%nat ->
  (forall l, (l < sub_group_size_ hu)%nat -> l ∈ order) ->
  SplitIndex best0 <= 2 ^ 31 - 1 ->
  (forall d f, f ∈ GetFeatureSet ff d -> f <= 2 ^ 31 - 1) ->
  (forall e, e ∈ nodes_set -> (nid e < length (snode_host_ hu))%nat) ->
  EvaluateSplits_ordered order best0 ff evaluator hu nodes_set gmat tree = Ok hu1 ->
  exists hu2,
    EvaluateSplits_ordered order best0 ff evaluator hu1 nodes_set gmat tree = Ok hu2 /\
    snode_host_ hu2 = snode_host_ hu1.
Proof.
  intros Hpos Hord Hb0 Hfids Hin Hrun.
  assert (forall q, q ∈ split_queries ff hu nodes_set tree ->
                    (q_nid q < length (snode_host_ hu))%nat) as Hin1.
  { intros q Hq. apply split_queries_node in Hq as (e & He & -> & _). by apply Hin. }
  destruct (EvaluateSplits_merge order best0 ff evaluator hu nodes_set gmat tree Hin1)
    as (s1 & Hrun1 & Hlen1 & Hs1).
  rewrite Hrun1 in Hrun. injection Hrun as <-.
  destruct (EvaluateSplits_merge order best0 ff evaluator (set_snode hu s1 []) nodes_set
              gmat tree) as (s2 & Hrun2 & Hlen2 & Hs2).
  { intros q Hq. simpl. rewrite Hlen1. by apply Hin1. }
  exists (set_snode (set_snode hu s1 []) s2 []). split; [done|]. simpl.
  simpl in Hs2. apply list_eq. intros j. rewrite Hs2.
  destruct (s1 !! j) as [ne1|] eqn:Hne1; simpl; [|done]. f_equal.
  rewrite foldl_Update_const; [apply set_best_id|].
  intros r Hr.
  change (split_queries ff (set_snode hu s1 []) nodes_set tree)
    with (split_queries ff hu nodes_set tree) in Hr.
  apply results_for_elem in Hr as (q & Hq & Hj & ->).
  unfold query_result. simpl. rewrite Hj, Hne1.
  unfold EnumerateSplit_ordered. apply group_commit_dominated.
  intros l ln Hl.
  pose proof Hne1 as Hne1'. rewrite Hs1 in Hne1'.
  destruct (snode_host_ hu !! j) as [ne|] eqn:Hne; simpl in Hne1'; [|done].
  injection Hne1' as <-. simpl.
  assert (q_fid q <= 2 ^ 31 - 1) as Hfid.
  { destruct (split_queries_node _ _ _ _ _ Hq) as (e & _ & _ & _ & Hf & _). by eapply Hfids. }
  destruct (EvaluateSplits_dominates order best0 ff evaluator hu nodes_set gmat tree j ne q
              Hpos Hord Hb0 Hne Hq Hj Hfid) as [Hd Hc].
  destruct (scan_lanes_final best0 (sub_group_size_ hu) (cut_Ptrs gmat) (cut_Values gmat)
              (q_hist q)
              (set_best ne
                 (foldl Update (best ne)
                    (results_for j
                       (map (fun q => (q, query_result order best0 evaluator hu gmat
                                            (snode_host_ hu) q))
                            (split_queries ff hu nodes_set tree)))))
              (q_fid q) j evaluator (min_child_weight (param_ hu)) Hpos) as [_ Hall].
  destruct (Hall l ln Hl) as (t & Ht & Hoff & Hbest & _).
  rewrite Hbest.
  destruct (foldl_Update_choice (map snd (lane_offers ln)) best0) as [->|Hx]; [done|].
  apply list_elem_of_fmap in Hx as ([i e] & -> & Hie). rewrite Hoff in Hie.
  apply offers_of_elem in Hie as (t0 & Ht0 & -> & He). simpl.
  apply (Hc (cut_at (cut_Ptrs gmat) (Z.to_nat (q_fid q)) + l + t0 * sub_group_size_ hu)%nat e);
    [apply Ht in Ht0; lia|]. exact He.
Qed.

Lemma EvaluateSplits_idempotent_witness :
  exists hu1 hu2,
    EvaluateSplits_ordered [0; 1]%nat demo_best0 tie_filter demo_evaluator two_node_updater
      [MkExpandEntry 0 0; MkExpandEntry 1 1] tie_gmat demo_tree = Ok hu1 /\
    EvaluateSplits_ordered [0; 1]%nat demo_best0 tie_filter demo_evaluator hu1
      [MkExpandEntry 0 0; MkExpandEntry 1 1] tie_gmat demo_tree = Ok hu2 /\
    snode_host_ hu2 = snode_host_ hu1.
Proof.
  eexists _. 
  refine (let H := EvaluateSplits_idempotent [0; 1]%nat demo_best0 tie_filter demo_evaluator
                     two_node_updater [MkExpandEntry 0 0; MkExpandEntry 1 1] tie_gmat
                     demo_tree _ _ covers_two_work_items _ _ _ eq_refl in _).
  destruct H as (hu2 & Hrun & Hsame). exists hu2. split; [reflexivity|]. split; [exact Hrun|exact Hsame].
  Unshelve.
  - simpl. lia.
  - simpl. lia.
  - intros d f Hf. simpl in Hf. apply elem_of_cons in Hf as [->|Hf]; [lia|].
    apply list_elem_of_singleton in Hf as ->. lia.
  - intros e He. apply elem_of_cons in He as [->|He]; [simpl; lia|].
    apply list_elem_of_singleton in He as ->. simpl. lia.
Defined.

(** * The functions in the arithmetic of [GradientSumT] *)

(** ** The scan loop of EnumerateSplit *)

Lemma UpdateT_choice {F B} (ar : Arithmetic F B) (this e : SplitEntryT F B) :
  UpdateT ar this e = this \/ UpdateT ar this e = e.
Proof. unfold UpdateT. destruct (NeedReplaceT _ _ _ _); auto. Qed.

Lemma foldl_UpdateT_choice {F B} (ar : Arithmetic F B) (l : list (SplitEntryT F B)) b :
  foldl (UpdateT ar) b l = b \/ foldl (UpdateT ar) b l ∈ l.
Proof.
  revert b. induction l as [|e l IH]; intros b; simpl; [by left|].
  destruct (IH (UpdateT ar b e)) as [H|H].
  - rewrite H. destruct (UpdateT_choice ar b e) as [->| ->]; [by left|right; left].
  - right. by right.
Qed.

Lemma omap_id_Some {A C} (g : C -> A) (l : list C) :
  omap id ((fun x => Some (g x)) <$> l) = g <$> l.
Proof. induction l as [|x l IH]; csimpl; [done|]. by rewrite IH. Qed.

Section ScanLoopT.

Context {F B : Type} (ar : Arithmetic F B).
Context (best0 : SplitEntryT F B) (sgs ibegin iend : nat) (cut_val : list B)
  (hist_data : list (GradStatsT F)) (snode : NodeEntryT F B) (fid : Z) (nodeID : nat)
  (evaluator : SplitEvaluatorT F) (mcw : B).
Hypothesis sgs_pos : (0 < sgs)%nat.

Local Abbreviation InvT := (group_invT ar best0 sgs ibegin iend cut_val hist_data snode fid
                              nodeID evaluator mcw).
Local Abbreviation LInvT := (lane_invT ar best0 sgs ibegin iend cut_val hist_data snode fid
                               nodeID evaluator mcw).
Local Abbreviation offersT := (offers_ofT ar sgs ibegin cut_val hist_data snode fid nodeID
                                 evaluator mcw).
Local Abbreviation stepT := (group_iterationT ar sgs iend cut_val hist_data snode fid nodeID
                               evaluator mcw).

Lemma initial_lanesT_inv : InvT 0%nat (initial_lanesT ar best0 sgs ibegin).
Proof.
  unfold initial_lanesT. split; [by rewrite length_map, length_seq|].
  intros l ln Hl. rewrite list_lookup_fmap in Hl.
  destruct (seq 0 sgs !! l) as [x|] eqn:Hx; [|done]. simpl in Hl.
  apply lookup_seq in Hx as [-> Hlt]. injection Hl as <-.
  split; [done|]. exists 0%nat. simpl.
  repeat split; try done; try lia.
Qed.

Lemma offers_ofT_S l j :
  offersT l (S j)
  = offersT l j ++
    match offerT ar cut_val snode fid nodeID evaluator mcw (ibegin + l + j * sgs)
                 (lane_left_sumT ar sgs ibegin hist_data l j) with
    | Some e => [((ibegin + l + j * sgs)%nat, e)]
    | None => []
    end.
Proof.
  unfold offers_ofT. rewrite seq_S, omap_app. simpl.
  by destruct (offerT _ _ _ _ _ _ _ _ _).
Qed.

(** In iteration [k], a work-item inside the loop receives from a scan
    what the scan makes of the first [l + 1] bins of the current
    chunk. *)
Lemma scan_valueT (proj : GradStatsT F -> F) k lanes l ln :
  InvT k lanes -> lanes !! l = Some ln -> (lane_iT ln < iend)%nat ->
  lane_iT ln = (ibegin + l + k * sgs)%nat /\
  inclusive_scan_over_groupT ar (map (scan_operandT ar iend hist_data proj) lanes) l
  = scan_plus ar (map (fun j => proj (hist_atT ar hist_data j)) (seq (ibegin + k * sgs) (S l))).
Proof.
  intros [Hlen Hall] Hl Hact.
  destruct (Hall l ln Hl) as (_ & j & Hjk & Hi & Hdone & _).
  assert (j = k) as -> by (destruct (decide (j < k)%nat) as [Hlt|]; [specialize (Hdone Hlt)|]; lia).
  split; [done|].
  unfold inclusive_scan_over_groupT. f_equal.
  assert (take (S l) (map (scan_operandT ar iend hist_data proj) lanes)
          = (fun l' => Some (proj (hist_atT ar hist_data (ibegin + k * sgs + l')%nat)))
              <$> seq 0 (S l)) as ->.
  { apply list_eq. intros i. rewrite list_lookup_fmap.
    destruct (decide (i < S l)%nat) as [Hi'|Hi'].
    - rewrite lookup_take_lt by done. rewrite lookup_seq_lt by done. simpl.
      assert (i < length lanes)%nat as Hlt by (apply lookup_lt_Some in Hl; lia).
      destruct (lookup_lt_is_Some_2 lanes i Hlt) as [ln' Hln'].
      change (map ?f lanes) with (f <$> lanes).
      rewrite list_lookup_fmap, Hln'. simpl. f_equal.
      destruct (Hall i ln' Hln') as (_ & j' & Hj'k & Hi'' & Hdone' & _).
      assert (j' = k) as ->.
      { destruct (decide (j' < k)%nat) as [Hlt'|]; [|lia].
        specialize (Hdone' Hlt'). nia. }
      unfold scan_operandT. rewrite bool_decide_true by lia.
      do 3 f_equal. lia.
    - rewrite lookup_take_ge by lia. rewrite lookup_seq_ge by lia. done. }
  rewrite omap_id_Some.
  replace (seq (ibegin + k * sgs) (S l)) with (Nat.add (ibegin + k * sgs) <$> seq 0 (S l)).
  - change (map ?f (?g <$> ?xs)) with (f <$> (g <$> xs)). by rewrite <- list_fmap_compose.
  - rewrite fmap_add_seq. f_equal. lia.
Qed.

Lemma lane_iterationT_inv k lanes l ln :
  InvT k lanes -> lanes !! l = Some ln -> (lane_iT ln < iend)%nat ->
  LInvT (S k) l
    (lane_iterationT ar sgs iend cut_val hist_data snode fid nodeID evaluator mcw
       (inclusive_scan_over_groupT ar (map (scan_operandT ar iend hist_data GetGradT) lanes)
          (local_idT ln))
       (inclusive_scan_over_groupT ar (map (scan_operandT ar iend hist_data GetHessT) lanes)
          (local_idT ln)) ln).
Proof.
  intros HInv Hl Hact.
  destruct (scan_valueT GetGradT k lanes l ln HInv Hl Hact) as [Hi Hsg].
  destruct (scan_valueT GetHessT k lanes l ln HInv Hl Hact) as [_ Hsh].
  destruct HInv as [Hlen Hall].
  destruct (Hall l ln Hl) as (Hid & j & Hjk & Hij & Hdone & Hpos & Hsum & Hoff & Hbest).
  assert (j = k) as -> by nia.
  specialize (Hsum Hact).
  rewrite Hid, Hsg, Hsh.
  assert (GradStatsT_Add ar (lane_sumT ln)
            (scan_plus ar (map (fun j => GetGradT (hist_atT ar hist_data j))
                               (seq (ibegin + k * sgs) (S l))))
            (scan_plus ar (map (fun j => GetHessT (hist_atT ar hist_data j))
                               (seq (ibegin + k * sgs) (S l))))
          = lane_left_sumT ar sgs ibegin hist_data l k) as Hsumeq.
  { by rewrite Hsum. }
  unfold lane_iterationT. rewrite Hsumeq.
  split; [done|]. exists (S k). simpl.
  split; [lia|]. split; [lia|]. split; [lia|].
  split. { intros t Ht. destruct (decide (t = k)) as [->|]; [lia|]. apply Hpos. lia. }
  split.
  { intros Hnext. rewrite bool_decide_false by lia.
    rewrite bool_decide_false by lia.
    assert (l < sgs)%nat as Hlt by (apply lookup_lt_Some in Hl; lia).
    rewrite Hid, Hi. f_equal; lia. }
  rewrite offers_ofT_S, <- Hoff, <- Hi.
  destruct (offerT _ _ _ _ _ _ _ _ _) as [e|] eqn:He.
  - split; [done|]. rewrite map_app, foldl_app. simpl. rewrite <- Hbest.
    unfold Update_argsT. f_equal.
    unfold offerT in He. repeat case_match; try done. by injection He as <-.
  - split; [by rewrite app_nil_r|done].
Qed.

Lemma group_iterationT_inv k lanes : InvT k lanes -> InvT (S k) (stepT lanes).
Proof.
  intros HInv. split.
  { unfold group_iterationT. rewrite length_map. apply HInv. }
  intros l ln' Hl. unfold group_iterationT in Hl.
  change (map ?f lanes) with (f <$> lanes) in Hl. rewrite list_lookup_fmap in Hl.
  destruct (lanes !! l) as [ln|] eqn:Hln; [|done]. simpl in Hl. injection Hl as <-.
  case_bool_decide as Hact.
  - by apply lane_iterationT_inv.
  - destruct HInv as [_ Hall].
    destruct (Hall l ln Hln) as (Hid & j & Hjk & Hij & Hdone & Hpos & Hsum & Hoff & Hbest).
    split; [done|]. exists j. repeat split; try done; try lia.
Qed.

Lemma group_loopT_inv fuel k lanes :
  InvT k lanes -> (iend - ibegin <= k + fuel)%nat ->
  exists k', InvT k' (group_loopT ar fuel sgs iend cut_val hist_data snode fid nodeID evaluator
                        mcw lanes) /\
    forall ln, ln ∈ group_loopT ar fuel sgs iend cut_val hist_data snode fid nodeID evaluator
                      mcw lanes -> (iend <= lane_iT ln)%nat.
Proof.
  revert k lanes. induction fuel as [|fuel IH]; intros k lanes HInv Hfuel; simpl.
  - exists k. split; [done|]. intros ln Hin.
    apply list_elem_of_lookup in Hin as [l Hl].
    destruct HInv as [_ Hall].
    destruct (Hall l ln Hl) as (_ & j & Hjk & Hij & Hdone & _).
    destruct (decide (j < k)%nat) as [Hlt|]; [by apply Hdone|]. nia.
  - destruct (existsb _ lanes) eqn:Hex.
    + apply (IH (S k)); [by apply group_iterationT_inv|lia].
    + exists k. split; [done|]. intros ln Hin.
      destruct (decide (iend <= lane_iT ln)%nat) as [|Hn]; [done|].
      assert (existsb (fun ln => bool_decide (lane_iT ln < iend)%nat) lanes = true) as Ht.
      { apply existsb_exists. exists ln. split; [by apply list_elem_of_In|].
        apply bool_decide_eq_true. lia. }
      congruence.
Qed.

End ScanLoopT.

(** What every work-item holds when the loop is over: it has visited
    exactly its positions below [iend], it has offered the candidates
    of those at which both children qualify, built from the left sums
    it held there, and its [best] is the merge of these candidates. *)
Lemma scan_lanesT_final {F B} (ar : Arithmetic F B)
    best0 sgs cut_ptr cut_val hist_data snode fid nodeID evaluator mcw :
  (0 < sgs)%nat ->
  let ibegin := cut_at cut_ptr (Z.to_nat fid) in
  let iend := cut_at cut_ptr (Z.to_nat fid + 1) in
  let lanes := scan_lanesT ar best0 sgs cut_ptr cut_val hist_data snode fid nodeID evaluator
                 mcw in
  length lanes = sgs /\
  forall l ln, lanes !! l = Some ln ->
    exists j : nat,
      (forall t : nat, (t < j)%nat <-> (ibegin + l + t * sgs < iend)%nat) /\
      lane_offersT ln = offers_ofT ar sgs ibegin cut_val hist_data snode fid nodeID evaluator
                          mcw l j /\
      lane_bestT ln = foldl (UpdateT ar) best0 (map snd (lane_offersT ln)) /\
      local_idT ln = l.
Proof.
  intros Hpos ibegin iend lanes.
  destruct (group_loopT_inv ar best0 sgs ibegin iend cut_val hist_data snode fid nodeID
              evaluator mcw Hpos (iend - ibegin) 0 (initial_lanesT ar best0 sgs ibegin))
    as (k & [Hlen Hall] & Hexit).
  { by apply initial_lanesT_inv. }
  { lia. }
  fold (scan_lanesT ar best0 sgs cut_ptr cut_val hist_data snode fid nodeID evaluator mcw)
    in Hlen, Hall, Hexit.
  fold lanes in Hlen, Hall, Hexit.
  split; [done|]. intros l ln Hl.
  destruct (Hall l ln Hl) as (Hid & j & Hjk & Hij & Hdone & Hin & Hsum & Hoff & Hbest).
  assert (iend <= lane_iT ln)%nat as Hout by (apply Hexit; eapply list_elem_of_lookup_2, Hl).
  exists j. repeat split; try done.
  - apply Hin.
  - intros Ht. destruct (decide (t < j)%nat); [done|]. nia.
Qed.

Lemma offers_ofT_elem {F B} (ar : Arithmetic F B)
    sgs ibegin cut_val hist_data snode fid nodeID evaluator mcw l j i e :
  (i, e) ∈ offers_ofT ar sgs ibegin cut_val hist_data snode fid nodeID evaluator mcw l j <->
  exists t : nat, (t < j)%nat /\ i = (ibegin + l + t * sgs)%nat /\
    offerT ar cut_val snode fid nodeID evaluator mcw i
           (lane_left_sumT ar sgs ibegin hist_data l t) = Some e.
Proof.
  unfold offers_ofT. rewrite list_elem_of_omap. split.
  - intros (t & Ht & Heq). apply elem_of_seq in Ht. exists t.
    destruct (offerT _ _ _ _ _ _ _ _ _) as [e'|] eqn:He; [|done].
    injection Heq as <- <-. split; [lia|done].
  - intros (t & Ht & -> & He). exists t. split; [apply elem_of_seq; lia|].
    by rewrite He.
Qed.

Lemma offerT_Some {F B} (ar : Arithmetic F B) cut_val snode fid nodeID evaluator mcw i sum e :
  offerT ar cut_val snode fid nodeID evaluator mcw i sum = Some e <->
  fge ar (GetHessT sum) (of_float ar mcw) = true /\
  fge ar (GetHessT (GradStatsT_minus ar (statsT snode) sum)) (of_float ar mcw) = true /\
  e = MkSplitEntryT
        (to_bst_float ar
           (fsub ar (CalcSplitGainT evaluator nodeID fid sum
                       (GradStatsT_minus ar (statsT snode) sum))
                    (root_gainT snode)))
        fid false (val_atT ar cut_val i) sum (GradStatsT_minus ar (statsT snode) sum).
Proof.
  unfold offerT.
  destruct (fge ar (GetHessT sum) _); [|by split; [|intros [? _]]].
  destruct (fge ar (GetHessT (GradStatsT_minus ar (statsT snode) sum)) _).
  - split; [by intros [= <-]|by intros (_ & _ & ->)].
  - split; [done|by intros (_ & ? & _)].
Qed.

(** The bin [ibegin + l + t * sgs] is the position number [t] of the
    work-item with local id [l]. *)
Lemma left_accT_lane {F B} (ar : Arithmetic F B) sgs ibegin hist_data l t :
  (l < sgs)%nat ->
  left_accT ar sgs ibegin hist_data (ibegin + l + t * sgs)
  = lane_left_sumT ar sgs ibegin hist_data l t.
Proof.
  intros Hl. unfold left_accT.
  replace (ibegin + l + t * sgs - ibegin)%nat with (l + t * sgs)%nat by lia.
  rewrite Nat.Div0.mod_add, Nat.mod_small by done.
  rewrite Nat.div_add by lia. rewrite Nat.div_small by done. done.
Qed.

Lemma group_commitT_choice {F B} (ar : Arithmetic F B) order lanes pb :
  group_commitT ar order lanes pb = pb \/
  exists l ln, lanes !! l = Some ln /\ group_commitT ar order lanes pb = lane_bestT ln.
Proof.
  unfold group_commitT. induction order as [|l0 order IH] using rev_ind; [by left|].
  rewrite foldl_app. simpl.
  destruct (lanes !! l0) as [ln|] eqn:Hl; [|apply IH].
  destruct (is_group_winnerT ar lanes ln); [|apply IH].
  match goal with |- context [UpdateT ar ?a ?b] =>
    destruct (UpdateT_choice ar a b) as [-> | ->] end; [apply IH|].
  right. by exists l0, ln.
Qed.

(** ** What the accumulated left sum is *)

(** With one work-item the left sum is the running sum of the bins,
    accumulated from left to right. *)
Lemma lane_left_sumT_single {F B} (ar : Arithmetic F B) ibegin hist_data k :
  (forall x, scan_plus ar [x] = x) ->
  lane_carryT ar 1 ibegin hist_data 0 k = running_sumT ar hist_data ibegin k /\
  lane_left_sumT ar 1 ibegin hist_data 0 k = running_sumT ar hist_data ibegin (S k).
Proof.
  intros Hone.
  assert (forall k c,
            GradStatsT_plus ar c (chunk_scanT ar hist_data (ibegin + k * 1) 0)
            = GradStatsT_Add ar c (GetGradT (hist_atT ar hist_data (ibegin + k)))
                                  (GetHessT (hist_atT ar hist_data (ibegin + k)))) as Hplus.
  { intros k0 c. unfold GradStatsT_plus, chunk_scanT. simpl. rewrite !Hone.
    by rewrite Nat.mul_1_r. }
  assert (forall k,
            lane_carryT ar 1 ibegin hist_data 0 k = running_sumT ar hist_data ibegin k ->
            lane_left_sumT ar 1 ibegin hist_data 0 k
            = running_sumT ar hist_data ibegin (S k)) as Hleft.
  { intros k0 Hc. unfold lane_left_sumT. rewrite Hc, Hplus.
    unfold running_sumT. rewrite (seq_S k0), foldl_app. done. }
  induction k as [|k [IHc IHl]].
  - split; [done|]. by apply Hleft.
  - assert (lane_carryT ar 1 ibegin hist_data 0 (S k)
            = running_sumT ar hist_data ibegin (S k)) as Hc.
    { cbn [lane_carryT]. fold (lane_left_sumT ar 1 ibegin hist_data 0 k). rewrite IHl.
      unfold catch_upT.
      replace (ibegin + k * 1 + 1 - S (ibegin + k * 1 + 0))%nat with 0%nat by lia. done. }
    split; [exact Hc|]. by apply Hleft.
Qed.

Lemma range_sum_abs proj h a n :
  Z.abs (range_sum proj h a n) <= abs_range_sum proj h a n.
Proof.
  revert a. induction n as [|n IH]; intros a; [done|].
  unfold range_sum, abs_range_sum in *. simpl. specialize (IH (S a)). lia.
Qed.

Lemma abs_range_sum_nonneg proj h a n : 0 <= abs_range_sum proj h a n.
Proof.
  revert a. induction n as [|n IH]; intros a; [done|].
  unfold abs_range_sum in *. simpl. specialize (IH (S a)). lia.
Qed.

Lemma abs_range_sum_app proj h a n m :
  abs_range_sum proj h a (n + m)
  = abs_range_sum proj h a n + abs_range_sum proj h (a + n) m.
Proof.
  unfold abs_range_sum. rewrite seq_app, foldr_app.
  generalize (foldr (fun j acc => Z.abs (proj (hist_at h j)) + acc) 0 (seq (a + n) m)).
  generalize (seq a n). intros l z. induction l as [|x l IH]; simpl; lia.
Qed.

(** The absolute mass of a part of a bin range is at most that of the
    range. *)
Lemma abs_range_sum_sub proj h a n a' n' :
  (a <= a')%nat -> (a' + n' <= a + n)%nat ->
  abs_range_sum proj h a' n' <= abs_range_sum proj h a n.
Proof.
  intros H1 H2.
  replace n with ((a' - a) + (n' + (a + n - (a' + n'))))%nat by lia.
  rewrite abs_range_sum_app, abs_range_sum_app.
  replace (a + (a' - a))%nat with a' by lia.
  pose proof (abs_range_sum_nonneg proj h a (a' - a)).
  pose proof (abs_range_sum_nonneg proj h (a' + n') (a + n - (a' + n'))). lia.
Qed.

(** A left-to-right scan is exact when the additions are. *)
Lemma fold_plus_exact {F : Type} (zero : F) (add : F -> F -> F) (emb : Z -> F) (bound : Z) :
  (forall x y, Z.abs x <= bound -> Z.abs y <= bound -> Z.abs (x + y) <= bound ->
               add (emb x) (emb y) = emb (x + y)) ->
  forall xs, xs <> [] -> foldr (fun x acc => Z.abs x + acc) 0 xs <= bound ->
    fold_plus zero add (map emb xs) = emb (foldr Z.add 0 xs).
Proof.
  intros Hadd [|x xs] Hne Hb; [done|]. simpl in *. clear Hne.
  assert (forall ys a,
            Z.abs a + foldr (fun x acc => Z.abs x + acc) 0 ys <= bound ->
            foldl add (emb a) (map emb ys) = emb (a + foldr Z.add 0 ys)) as Hgen.
  { induction ys as [|y ys IH]; intros a Ha; simpl in *.
    - by rewrite Z.add_0_r.
    - assert (0 <= foldr (fun x acc => Z.abs x + acc) 0 ys) as Hpos.
      { clear. induction ys as [|z ys IH]; simpl; lia. }
      rewrite Hadd by lia. rewrite IH by lia. f_equal. lia. }
  by apply Hgen.
Qed.

Section ExactSums.

Context {F B : Type} (ar : Arithmetic F B) (emb : Z -> F) (embB : Z -> B) (bound : Z).
Hypothesis exact : exact_embedding ar emb embB bound.

Lemma embedT_zero : embedT emb GradStats_zero = GradStatsT_zero ar.
Proof. unfold embedT, GradStatsT_zero. simpl. by rewrite (emb_zero _ _ _ _ exact). Qed.

Lemma hist_atT_embed (hz : list GradStats) j :
  hist_atT ar (map (embedT emb) hz) j = embedT emb (hist_at hz j).
Proof.
  unfold hist_atT, hist_at. change (map ?f hz) with (f <$> hz).
  rewrite list_lookup_fmap. destruct (hz !! j); simpl; [done|].
  by rewrite embedT_zero.
Qed.

Lemma GradStatsT_Add_exact (s : GradStats) g h :
  Z.abs (GetGrad s) <= bound -> Z.abs g <= bound -> Z.abs (GetGrad s + g) <= bound ->
  Z.abs (GetHess s) <= bound -> Z.abs h <= bound -> Z.abs (GetHess s + h) <= bound ->
  GradStatsT_Add ar (embedT emb s) (emb g) (emb h) = embedT emb (GradStats_Add s g h).
Proof.
  intros. unfold GradStatsT_Add, embedT, GradStats_Add. simpl.
  by rewrite !(emb_add _ _ _ _ exact).
Qed.

(** Adding the bins [a .. a+n-1] one at a time to an exact sum. *)
Lemma running_add_exact (hz : list GradStats) a n (s : GradStats) :
  Z.abs (GetGrad s) + abs_range_sum GetGrad hz a n <= bound ->
  Z.abs (GetHess s) + abs_range_sum GetHess hz a n <= bound ->
  foldl (fun s j => GradStatsT_Add ar s
                      (GetGradT (hist_atT ar (map (embedT emb) hz) j))
                      (GetHessT (hist_atT ar (map (embedT emb) hz) j)))
        (embedT emb s) (seq a n)
  = embedT emb (MkGradStats (GetGrad s + range_sum GetGrad hz a n)
                            (GetHess s + range_sum GetHess hz a n)).
Proof.
  revert a s. induction n as [|n IH]; intros a s Hg Hh.
  - simpl. rewrite !range_sum_0, !Z.add_0_r. by destruct s.
  - pose proof (abs_range_sum_nonneg GetGrad hz (S a) n).
    pose proof (abs_range_sum_nonneg GetHess hz (S a) n).
    change (abs_range_sum ?p hz a (S n))
      with (Z.abs (p (hist_at hz a)) + abs_range_sum p hz (S a) n) in Hg, Hh.
    change (seq a (S n)) with (a :: seq (S a) n).
    change (range_sum ?p hz a (S n)) with (p (hist_at hz a) + range_sum p hz (S a) n).
    cbn [foldl]. rewrite hist_atT_embed. simpl.
    rewrite GradStatsT_Add_exact by lia.
    rewrite IH by (simpl; lia). simpl. f_equal; f_equal; lia.
Qed.

Lemma chunk_scanT_exact (hz : list GradStats) b l :
  abs_range_sum GetGrad hz b (S l) <= bound ->
  abs_range_sum GetHess hz b (S l) <= bound ->
  chunk_scanT ar (map (embedT emb) hz) b l
  = embedT emb (MkGradStats (range_sum GetGrad hz b (S l)) (range_sum GetHess hz b (S l))).
Proof.
  intros Hg Hh.
  assert (forall (projT : GradStatsT F -> F) (proj : GradStats -> Z),
            (forall s, projT (embedT emb s) = emb (proj s)) ->
            abs_range_sum proj hz b (S l) <= bound ->
            scan_plus ar (map (fun j => projT (hist_atT ar (map (embedT emb) hz) j))
                              (seq b (S l)))
            = emb (range_sum proj hz b (S l))) as Hscan.
  { intros projT proj Hproj Hb.
    assert (map (fun j => projT (hist_atT ar (map (embedT emb) hz) j)) (seq b (S l))
            = map emb (map (fun j => proj (hist_at hz j)) (seq b (S l)))) as ->.
    { rewrite map_map. apply map_ext. intros j. by rewrite hist_atT_embed, Hproj. }
    rewrite (emb_scan _ _ _ _ exact).
    - f_equal. unfold range_sum. generalize (seq b (S l)). intros js.
      induction js as [|j js IH]; simpl; [done|]. by rewrite IH.
    - done.
    - unfold abs_range_sum in Hb. revert Hb. generalize (seq b (S l)). intros js.
      induction js as [|j js IH]; simpl; [done|]. intros Hb.
      assert (foldr (fun x acc => Z.abs x + acc) 0 (map (fun j => proj (hist_at hz j)) js)
              = foldr (fun j acc => Z.abs (proj (hist_at hz j)) + acc) 0 js) as ->; [|done].
      clear. induction js as [|j js IH]; simpl; [done|]. by rewrite IH. }
  unfold chunk_scanT.
  rewrite (Hscan GetGradT GetGrad) by done. rewrite (Hscan GetHessT GetHess) by done. done.
Qed.

(** When the absolute mass of the bin range stays within the bound,
    every work-item holds exact sums: on entry to its iteration [k]
    the sum of the chunks before, and at its position the inclusive
    sum of the bins up to it. *)
Lemma lane_left_sumT_exact (hz : list GradStats) sgs ibegin n l k :
  (l < sgs)%nat ->
  abs_range_sum GetGrad hz ibegin n <= bound ->
  abs_range_sum GetHess hz ibegin n <= bound ->
  (k * sgs + l < n)%nat ->
  lane_carryT ar sgs ibegin (map (embedT emb) hz) l k
  = embedT emb (MkGradStats (range_sum GetGrad hz ibegin (k * sgs))
                            (range_sum GetHess hz ibegin (k * sgs))) /\
  lane_left_sumT ar sgs ibegin (map (embedT emb) hz) l k
  = embedT emb (left_prefix hz ibegin (ibegin + l + k * sgs)).
Proof.
  intros Hl Hg Hh.
  assert (forall proj a m, (ibegin <= a)%nat -> (a + m <= ibegin + n)%nat ->
            abs_range_sum proj hz ibegin n <= bound ->
            abs_range_sum proj hz a m <= bound) as Hsub.
  { intros proj a m H1 H2 Hb.
    pose proof (abs_range_sum_sub proj hz ibegin n a m H1 H2). lia. }
  assert (forall k,
            (k * sgs + l < n)%nat ->
            lane_carryT ar sgs ibegin (map (embedT emb) hz) l k
            = embedT emb (MkGradStats (range_sum GetGrad hz ibegin (k * sgs))
                                      (range_sum GetHess hz ibegin (k * sgs))) ->
            lane_left_sumT ar sgs ibegin (map (embedT emb) hz) l k
            = embedT emb (left_prefix hz ibegin (ibegin + l + k * sgs))) as Hleft.
  { intros k0 Hk Hc. unfold lane_left_sumT. rewrite Hc.
    rewrite chunk_scanT_exact by (apply Hsub; [lia|lia|done]).
    unfold GradStatsT_plus. cbn [embedT GetGradT GetHessT].
    change (GradStatsT_Add ar (MkGradStatsT (emb ?g) (emb ?h)) ?x ?y)
      with (GradStatsT_Add ar (embedT emb (MkGradStats g h)) x y).
    cbn [GetGrad GetHess].
    pose proof (range_sum_abs GetGrad hz ibegin (k0 * sgs)).
    pose proof (range_sum_abs GetHess hz ibegin (k0 * sgs)).
    pose proof (range_sum_abs GetGrad hz (ibegin + k0 * sgs) (S l)).
    pose proof (range_sum_abs GetHess hz (ibegin + k0 * sgs) (S l)).
    pose proof (range_sum_abs GetGrad hz ibegin (k0 * sgs + S l)).
    pose proof (range_sum_abs GetHess hz ibegin (k0 * sgs + S l)).
    pose proof (Hsub GetGrad ibegin (k0 * sgs)%nat ltac:(lia) ltac:(lia) Hg).
    pose proof (Hsub GetHess ibegin (k0 * sgs)%nat ltac:(lia) ltac:(lia) Hh).
    pose proof (Hsub GetGrad (ibegin + k0 * sgs)%nat (S l) ltac:(lia) ltac:(lia) Hg).
    pose proof (Hsub GetHess (ibegin + k0 * sgs)%nat (S l) ltac:(lia) ltac:(lia) Hh).
    pose proof (Hsub GetGrad ibegin (k0 * sgs + S l)%nat ltac:(lia) ltac:(lia) Hg).
    pose proof (Hsub GetHess ibegin (k0 * sgs + S l)%nat ltac:(lia) ltac:(lia) Hh).
    pose proof (range_sum_app GetGrad hz ibegin (k0 * sgs) (S l)) as Eg.
    pose proof (range_sum_app GetHess hz ibegin (k0 * sgs) (S l)) as Eh.
    rewrite GradStatsT_Add_exact by (simpl; lia).
    unfold left_prefix, GradStats_Add. simpl.
    replace (S (ibegin + l + k0 * sgs) - ibegin)%nat with (k0 * sgs + S l)%nat by lia.
    by rewrite !(range_sum_app _ _ ibegin (k0 * sgs) (S l)). }
  induction k as [|k IH]; intros Hk.
  - assert (lane_carryT ar sgs ibegin (map (embedT emb) hz) l 0
            = embedT emb (MkGradStats (range_sum GetGrad hz ibegin (0 * sgs))
                                      (range_sum GetHess hz ibegin (0 * sgs)))) as Hc.
    { simpl. rewrite !range_sum_0. symmetry. apply embedT_zero. }
    split; [exact Hc|]. by apply Hleft.
  - destruct IH as [_ IHl]; [lia|].
    assert (lane_carryT ar sgs ibegin (map (embedT emb) hz) l (S k)
            = embedT emb (MkGradStats (range_sum GetGrad hz ibegin (S k * sgs))
                                      (range_sum GetHess hz ibegin (S k * sgs)))) as Hc.
    { cbn [lane_carryT]. fold (lane_left_sumT ar sgs ibegin (map (embedT emb) hz) l k).
      rewrite IHl. unfold catch_upT.
      pose proof (range_sum_abs GetGrad hz ibegin (k * sgs + S l)).
      pose proof (range_sum_abs GetHess hz ibegin (k * sgs + S l)).
      pose proof (Hsub GetGrad ibegin (k * sgs + S l + (sgs - S l))%nat
                    ltac:(lia) ltac:(lia) Hg) as Hg'.
      pose proof (Hsub GetHess ibegin (k * sgs + S l + (sgs - S l))%nat
                    ltac:(lia) ltac:(lia) Hh) as Hh'.
      rewrite abs_range_sum_app in Hg', Hh'.
      replace (ibegin + k * sgs + sgs - S (ibegin + k * sgs + l))%nat
        with (sgs - S l)%nat by lia.
      replace (S (ibegin + k * sgs + l)) with (ibegin + (k * sgs + S l))%nat by lia.
      rewrite running_add_exact.
      - unfold left_prefix. simpl.
        replace (S (ibegin + l + k * sgs) - ibegin)%nat with (k * sgs + S l)%nat by lia.
        rewrite <- !range_sum_app.
        replace (k * sgs + S l + (sgs - S l))%nat with (sgs + k * sgs)%nat by lia. done.
      - unfold left_prefix. simpl.
        replace (S (ibegin + l + k * sgs) - ibegin)%nat with (k * sgs + S l)%nat by lia. lia.
      - unfold left_prefix. simpl.
        replace (S (ibegin + l + k * sgs) - ibegin)%nat with (k * sgs + S l)%nat by lia. lia. }
    split; [exact Hc|]. by apply Hleft.
Qed.

End ExactSums.

(** ** Single precision: exact on small integers *)

Lemma small_ints_elem (bound : nat) x :
  Z.abs x <= Z.of_nat bound -> x ∈ small_ints bound.
Proof.
  intros Hx. unfold small_ints. apply list_elem_of_fmap.
  exists (Z.to_nat (x + Z.of_nat bound)). split; [lia|].
  apply elem_of_seq. lia.
Qed.

Lemma binary32_add_exact x y :
  Z.abs x <= 64 -> Z.abs y <= 64 -> Z.abs (x + y) <= 64 ->
  SFadd 24 128 (Z2F x) (Z2F y) = Z2F (x + y).
Proof.
  intros Hx Hy Hxy.
  assert (forallb (fun a =>
            forallb (fun b =>
              implb (Z.abs (a + b) <=? 64)
                    (bool_decide (SFadd 24 128 (Z2F a) (Z2F b) = Z2F (a + b))))
              (small_ints 64)) (small_ints 64) = true) as Hall
    by (vm_compute; reflexivity).
  rewrite forallb_forall in Hall.
  specialize (Hall x (proj1 (list_elem_of_In _ _) (small_ints_elem 64 x Hx))).
  rewrite forallb_forall in Hall.
  specialize (Hall y (proj1 (list_elem_of_In _ _) (small_ints_elem 64 y Hy))).
  rewrite (proj2 (Z.leb_le _ _) Hxy) in Hall. simpl in Hall.
  by apply bool_decide_eq_true in Hall.
Qed.

(** Single precision computes exactly on the integers up to 64. *)
Lemma binary32_exact : exact_embedding binary32 Z2F Z2F 64.
Proof.
  split.
  - reflexivity.
  - exact binary32_add_exact.
  - intros xs Hne Hb. simpl.
    by apply (fold_plus_exact (S754_zero false) (SFadd 24 128) Z2F 64 binary32_add_exact).
  - done.
Qed.

(** ** The candidates of EnumerateSplit *)

(** C3, as stated, fails: the left sum is accumulated in
    [GradientSumT], is rounded, and depends on the sub-group size, so
    it is no function of the histogram entries of the bins
    [begin .. i] alone.  In single precision, on the gradients
    [2^24, 0, 1, 1], a single work-item holds the left sum [2^24] at
    bin 3, and the second of two work-items holds [2^24 + 2], which is
    the sum of the four entries and itself a [float]. *)
Lemma EnumerateSplit_left_sum_rounds :
  ~ (exists inclusive_sum : list (GradStatsT spec_float) -> nat -> nat -> GradStatsT spec_float,
       forall best0 sgs cut_ptr cut_val hist_data snode fid nodeID evaluator mcw l ln i e,
         (0 < sgs)%nat ->
         scan_lanesT binary32 best0 sgs cut_ptr cut_val hist_data snode fid nodeID
           evaluator mcw !! l = Some ln ->
         (i, e) ∈ lane_offersT ln ->
         left_sumT e = inclusive_sum hist_data (cut_at cut_ptr (Z.to_nat fid)) i).
Proof.
  intros [inclusive_sum H].
  assert (exists ln e,
            scan_lanesT binary32 demo_best32 1 scan_cut_ptr scan_cut_val32
              rounding_hist32 rounding_node32 0 0%nat demo_evaluator32
              (Z2F 0) !! 0%nat = Some ln /\
            lane_offersT ln !! 3%nat = Some (3%nat, e) /\
            left_sumT e = embedT Z2F (MkGradStats 16777216 1)) as (ln1 & e1 & Hln1 & He1 & Hsum1).
  { eexists _, _. split; [reflexivity|]. split; reflexivity. }
  assert (exists ln e,
            scan_lanesT binary32 demo_best32 2 scan_cut_ptr scan_cut_val32
              rounding_hist32 rounding_node32 0 0%nat demo_evaluator32
              (Z2F 0) !! 1%nat = Some ln /\
            lane_offersT ln !! 1%nat = Some (3%nat, e) /\
            left_sumT e = embedT Z2F (MkGradStats 16777218 1)) as (ln2 & e2 & Hln2 & He2 & Hsum2).
  { eexists _, _. split; [reflexivity|]. split; reflexivity. }
  pose proof (H demo_best32 1%nat scan_cut_ptr scan_cut_val32 rounding_hist32 rounding_node32
                0 0%nat demo_evaluator32 (Z2F 0) 0%nat ln1 3%nat e1 ltac:(lia) Hln1
                (list_elem_of_lookup_2 _ _ _ He1)) as H1.
  pose proof (H demo_best32 2%nat scan_cut_ptr scan_cut_val32 rounding_hist32 rounding_node32
                0 0%nat demo_evaluator32 (Z2F 0) 1%nat ln2 3%nat e2 ltac:(lia) Hln2
                (list_elem_of_lookup_2 _ _ _ He2)) as H2.
  rewrite <- H2, Hsum1, Hsum2 in H1. vm_compute in H1. inversion H1.
Qed.

(** The same input with two work-items: the left sum at bin 3 is the
    exact [2^24 + 2], and [EnumerateSplit] returns another loss gain
    than with one work-item. *)
Example EnumerateSplitT_sum_depends_on_group_size :
  left_accT binary32 1 0 rounding_hist32 3 = embedT Z2F (MkGradStats 16777216 1) /\
  left_accT binary32 2 0 rounding_hist32 3 = embedT Z2F (MkGradStats 16777218 1) /\
  loss_chgT (EnumerateSplitT binary32 demo_best32 1 scan_cut_ptr scan_cut_val32
               rounding_hist32 rounding_node32 demo_best32 0 0%nat demo_evaluator32 (Z2F 0))
  <> loss_chgT (EnumerateSplitT binary32 demo_best32 2 scan_cut_ptr scan_cut_val32
                  rounding_hist32 rounding_node32 demo_best32 0 0%nat demo_evaluator32
                  (Z2F 0)).
Proof.
  split; [reflexivity|]. split; [reflexivity|].
  intros H. vm_compute in H. inversion H.
Qed.

(** C3, amended.  In [EnumerateSplit], every candidate handed to
    [best.Update] at a bin position [i] lies in the feature's bin
    range; its left sum is the sum the work-item visiting [i] has
    accumulated in [GradientSumT] (its carry from the previous chunks
    plus what the scan hands to it); its right sum is the node total
    minus the left sum in that arithmetic; its loss gain is
    [CalcSplitGain(node, feature, left, right) - root_gain] converted
    to [bst_float]; its split threshold is the cut value of bin [i];
    each work-item's [best] is the merge of its candidates, and the
    entry left in [p_best] is the previous one, a default one, or one
    of the candidates.  The accumulated left sum is the running sum
    of the bins [ibegin .. i] from left to right when the sub-group
    has one work-item, and it is the exact inclusive sum of these
    bins when no addition over the range rounds. *)
Theorem EnumerateSplit_candidate_sums {F B : Type} (ar : Arithmetic F B)
    order best0 sgs cut_ptr cut_val hist_data snode p_best fid nodeID evaluator mcw :
  (0 < sgs)%nat ->
  let ibegin := cut_at cut_ptr (Z.to_nat fid) in
  let iend := cut_at cut_ptr (Z.to_nat fid + 1) in
  let lanes := scan_lanesT ar best0 sgs cut_ptr cut_val hist_data snode fid nodeID evaluator
                 mcw in
  let r := EnumerateSplit_orderedT ar order best0 sgs cut_ptr cut_val hist_data snode p_best
             fid nodeID evaluator mcw in
  (forall l ln n i e,
     lanes !! l = Some ln -> lane_offersT ln !! n = Some (i, e) ->
     (ibegin <= i < iend)%nat /\
     left_sumT e = left_accT ar sgs ibegin hist_data i /\
     right_sumT e = GradStatsT_minus ar (statsT snode) (left_sumT e) /\
     loss_chgT e = to_bst_float ar
                     (fsub ar (CalcSplitGainT evaluator nodeID fid (left_sumT e) (right_sumT e))
                              (root_gainT snode)) /\
     split_valueT e = val_atT ar cut_val i /\
     SplitIndexT e = fid) /\
  (forall l ln, lanes !! l = Some ln ->
     lane_bestT ln = foldl (UpdateT ar) best0 (map snd (lane_offersT ln))) /\
  (r = p_best \/ r = best0 \/
   exists l ln i, lanes !! l = Some ln /\ (i, r) ∈ lane_offersT ln) /\
  (sgs = 1%nat -> (forall x, scan_plus ar [x] = x) ->
   forall i, (ibegin <= i < iend)%nat ->
     left_accT ar sgs ibegin hist_data i = running_sumT ar hist_data ibegin (S i - ibegin)) /\
  (forall (emb : Z -> F) (embB : Z -> B) (bound : Z) (hz : list GradStats),
     exact_embedding ar emb embB bound ->
     hist_data = map (embedT emb) hz ->
     abs_range_sum GetGrad hz ibegin (iend - ibegin) <= bound ->
     abs_range_sum GetHess hz ibegin (iend - ibegin) <= bound ->
     forall i, (ibegin <= i < iend)%nat ->
       left_accT ar sgs ibegin hist_data i = embedT emb (left_prefix hz ibegin i)).
Proof.
  intros Hpos ibegin iend lanes r.
  destruct (scan_lanesT_final ar best0 sgs cut_ptr cut_val hist_data snode fid nodeID
              evaluator mcw Hpos) as [Hlen Hall].
  fold ibegin iend lanes in Hlen, Hall.
  split; [|split; [|split; [|split]]].
  - intros l ln n i e Hl Hn.
    destruct (Hall l ln Hl) as (j & Hj & Hoff & _).
    apply list_elem_of_lookup_2 in Hn. rewrite Hoff in Hn.
    apply offers_ofT_elem in Hn as (t & Ht & -> & He).
    apply offerT_Some in He as (_ & _ & ->). simpl.
    assert (l < sgs)%nat as Hlt by (apply lookup_lt_Some in Hl; lia).
    rewrite left_accT_lane by done.
    apply Hj in Ht. repeat split; try done; lia.
  - intros l ln Hl. by destruct (Hall l ln Hl) as (j & _ & _ & Hbest & _).
  - unfold r, EnumerateSplit_orderedT. fold lanes.
    destruct (group_commitT_choice ar order lanes p_best) as [->|(l0 & ln & Hl & ->)];
      [by left|right].
    destruct (Hall l0 ln Hl) as (j & _ & _ & Hbest & _).
    rewrite Hbest.
    destruct (foldl_UpdateT_choice ar (map snd (lane_offersT ln)) best0) as [->|Hin];
      [by left|right].
    apply list_elem_of_fmap in Hin as ([i e] & -> & Hin).
    by exists l0, ln, i.
  - intros -> Hone i Hi.
    replace i with (ibegin + 0 + (i - ibegin) * 1)%nat at 1 by lia.
    rewrite left_accT_lane by lia.
    destruct (lane_left_sumT_single ar ibegin hist_data (i - ibegin) Hone) as [_ ->].
    f_equal. lia.
  - intros emb embB bound hz Hex -> Hg Hh i Hi.
    set (l := ((i - ibegin) mod sgs)%nat). set (t := ((i - ibegin) / sgs)%nat).
    assert (l < sgs)%nat as Hlt by (apply Nat.mod_upper_bound; lia).
    assert (i = ibegin + l + t * sgs)%nat as Heq.
    { pose proof (Nat.div_mod_eq (i - ibegin) sgs). unfold l, t. lia. }
    rewrite Heq at 1. rewrite left_accT_lane by done.
    destruct (lane_left_sumT_exact ar emb embB bound Hex hz sgs ibegin (iend - ibegin) l t
                Hlt Hg Hh ltac:(lia)) as [_ ->].
    by rewrite <- Heq.
Qed.

Lemma EnumerateSplit_candidate_sums_witness :
  let e := MkSplitEntryT (Z2F 36) 0 false (Z2F 30)
             (embedT Z2F (MkGradStats 6 2)) (embedT Z2F (MkGradStats (-6) 2)) in
  (0 <= 2 < 4)%nat /\
  left_sumT e = left_accT binary32 2 0 scan_hist32 2 /\
  left_accT binary32 2 0 scan_hist32 2 = embedT Z2F (left_prefix scan_hist 0 2) /\
  right_sumT e = GradStatsT_minus binary32 (statsT scan_node32) (left_sumT e) /\
  split_valueT e = val_atT binary32 scan_cut_val32 2.
Proof.
  destruct (EnumerateSplit_candidate_sums binary32 [0; 1]%nat demo_best32 2 scan_cut_ptr
              scan_cut_val32 scan_hist32 scan_node32 demo_best32 0 0%nat demo_evaluator32
              (Z2F 0) ltac:(lia)) as (Hcand & _ & _ & _ & Hexact).
  destruct (Hcand 0%nat _ 1%nat 2%nat _ eq_refl eq_refl) as (Hi & Hl & Hr & _ & Hv & _).
  split; [exact Hi|]. split; [exact Hl|]. split; [|split; [exact Hr|exact Hv]].
  apply (Hexact Z2F Z2F 64 scan_hist binary32_exact eq_refl).
  - vm_compute. discriminate.
  - vm_compute. discriminate.
  - vm_compute. lia.
Defined.



(** In single precision the test [>=] holds between a sum and a
    threshold equal to it, and fails when the sum is not a number. *)
Lemma binary32_fge_refl (x : spec_float) :
  (x <> S754_nan -> fge binary32 x x = true) /\
  (forall y, fge binary32 S754_nan y = false).
Proof.
  split.
  - intros Hx. unfold binary32, fge, SFleb, SFcompare.
    destruct x as [s|s| |s m e]; try (destruct s; reflexivity); try congruence.
    destruct s; rewrite Z.compare_refl; try rewrite Pos.compare_refl; reflexivity.
  - intros y. unfold binary32, fge, SFleb, SFcompare. by destruct y.
Qed.

(** With Hessians [2^24, 1, 1], a node total of [2^25 + 4] and a
    threshold of [2^24 + 2], the exact sums of both children at bin 2
    equal the threshold, but the left sum held in single precision is
    [2^24] and no bin is handed over. *)
Example EnumerateSplitT_rounded_sum_below_threshold :
  GetHess (left_prefix heavy_hist 0 2) = 16777218 /\
  GetHess (GradStats_minus (MkGradStats 6 33554436) (left_prefix heavy_hist 0 2)) = 16777218 /\
  GetHessT (left_accT binary32 1 0 heavy_hist32 2) = Z2F 16777216 /\
  forall ln,
    ln ∈ scan_lanesT binary32 demo_best32 1 [0; 3]%nat scan_cut_val32 heavy_hist32 heavy_node32
           0 0%nat demo_evaluator32 (Z2F 16777218) ->
    lane_offersT ln = [].
Proof.
  split; [reflexivity|]. split; [reflexivity|]. split; [reflexivity|].
  intros ln Hln. vm_compute in Hln.
  apply list_elem_of_singleton in Hln as ->. reflexivity.
Qed.

(** ** The root aggregate in [GradientSumT] *)

Lemma hist_atT_alter {F B : Type} (ar : Arithmetic F B) f (h : list (GradStatsT F)) b j :
  (b < length h)%nat ->
  hist_atT ar (alter f b h) j
  = if decide (b = j) then f (hist_atT ar h j) else hist_atT ar h j.
Proof.
  intros Hb. unfold hist_atT. destruct (decide (b = j)) as [->|Hne].
  - rewrite list_lookup_alter_eq.
    destruct (lookup_lt_is_Some_2 h j Hb) as [x ->]. done.
  - by rewrite list_lookup_alter_ne.
Qed.

Lemma abs_range_sum_S proj h a n :
  abs_range_sum proj h a (S n)
  = Z.abs (proj (hist_at h a)) + abs_range_sum proj h (S a) n.
Proof. done. Qed.

Lemma abs_range_sum_elem proj h a n b :
  (a <= b < a + n)%nat -> Z.abs (proj (hist_at h b)) <= abs_range_sum proj h a n.
Proof.
  intros Hb.
  pose proof (abs_range_sum_sub proj h a n b 1 ltac:(lia) ltac:(lia)) as H.
  rewrite abs_range_sum_S in H. change (abs_range_sum proj h (S b) 0) with 0 in H. lia.
Qed.

(** Adding a gradient pair into bin [b] raises the absolute mass of a
    bin range by at most that of the pair, and only when [b] lies in
    the range. *)
Lemma abs_range_sum_alter proj g (h : list GradStats) b a n :
  (forall s, proj (GradStats_plus s g) = proj s + proj g) ->
  (b < length h)%nat ->
  abs_range_sum proj (alter (fun s => GradStats_plus s g) b h) a n
  <= abs_range_sum proj h a n
     + (if decide (a <= b < a + n)%nat then Z.abs (proj g) else 0).
Proof.
  intros Hproj Hb. revert a. induction n as [|n IH]; intros a.
  - change (abs_range_sum proj ?x a 0) with 0. rewrite decide_False by lia. lia.
  - rewrite !abs_range_sum_S, hist_at_alter by done. specialize (IH (S a)).
    destruct (decide (b = a)) as [->|Hne].
    + rewrite Hproj. rewrite decide_False in IH by lia. rewrite decide_True by lia. lia.
    + destruct (decide (S a <= b < S a + n)%nat).
      * rewrite decide_True by lia. lia.
      * rewrite decide_False by lia. lia.
Qed.

Lemma abs_range_sum_InitHist proj nbins a n :
  proj GradStats_zero = 0 -> abs_range_sum proj (InitHist nbins) a n = 0.
Proof.
  intros Hz. revert a. induction n as [|n IH]; intros a; [done|].
  rewrite abs_range_sum_S, IH.
  assert (hist_at (InitHist nbins) a = GradStats_zero) as ->.
  { unfold hist_at, InitHist. destruct (replicate nbins GradStats_zero !! a) eqn:H; [|done].
    by apply lookup_replicate_1 in H as [-> _]. }
  lia.
Qed.

Lemma abs_rows_sum_nonneg proj gz rows : 0 <= abs_rows_sum proj gz rows.
Proof. induction rows as [|r rows IH]; simpl; [done|]. unfold abs_rows_sum in *. simpl. lia. Qed.

(** The difference of the cut pointers of a feature, taken in
    [uint32_t], is the number of its bins when the pointers ascend. *)
Lemma nbins_of_ascending row_ptr f :
  (cut_at row_ptr f <= cut_at row_ptr (f + 1))%nat ->
  Z.of_nat (cut_at row_ptr (f + 1)) < 2 ^ 32 ->
  nbins_of row_ptr f = (cut_at row_ptr (f + 1) - cut_at row_ptr f)%nat.
Proof.
  intros Hle Hlt. unfold nbins_of. rewrite Z.mod_small by lia. lia.
Qed.

Section ExactRootSum.

Context {F B : Type} (ar : Arithmetic F B) (emb : Z -> F) (embB : Z -> B) (bound : Z).
Hypothesis exact : exact_embedding ar emb embB bound.
Variable gz : list GradientPair.

Lemma gpair_atT_embed row :
  (row < length gz)%nat ->
  gpair_atT ar (map (embed_pair embB) gz) row = embed_pair embB (gpair_at gz row).
Proof.
  intros Hrow. unfold gpair_atT, gpair_at. change (map ?f gz) with (f <$> gz).
  rewrite list_lookup_fmap. destruct (lookup_lt_is_Some_2 gz row Hrow) as [p ->]. done.
Qed.

Lemma GradStatsT_plus_pair_exact (s : GradStats) (p : GradientPair) :
  Z.abs (GetGrad s) <= bound -> Z.abs (gp_grad p) <= bound ->
  Z.abs (GetGrad s + gp_grad p) <= bound ->
  Z.abs (GetHess s) <= bound -> Z.abs (gp_hess p) <= bound ->
  Z.abs (GetHess s + gp_hess p) <= bound ->
  GradStatsT_plus ar (embedT emb s) (GradStatsT_of_pair ar (embed_pair embB p))
  = embedT emb (GradStats_plus s (GradStats_of_pair p)).
Proof.
  intros. unfold GradStatsT_plus, GradStatsT_of_pair, embed_pair. simpl.
  rewrite !(emb_of_float _ _ _ _ exact) by done.
  by rewrite (GradStatsT_Add_exact ar emb embB bound exact).
Qed.

(** One row added into the bins of its features: on a bin range the
    entries stay exact while the absolute mass of the range and of
    what the row adds to it stays within the bound. *)
Lemma add_row_bins_exact (a n : nat) (p : GradientPair) bins :
  forall hT hz,
  exact_on_range ar emb hT hz a n ->
  (forall b, b ∈ bins -> (b < length hz)%nat) ->
  abs_range_sum GetGrad hz a n
    + Z.of_nat (length (filter (fun b => (a <= b < a + n)%nat) bins)) * Z.abs (gp_grad p)
    <= bound ->
  abs_range_sum GetHess hz a n
    + Z.of_nat (length (filter (fun b => (a <= b < a + n)%nat) bins)) * Z.abs (gp_hess p)
    <= bound ->
  let hT' := foldl (fun h bin =>
                      alter (fun s => GradStatsT_plus ar s
                                        (GradStatsT_of_pair ar (embed_pair embB p))) bin h)
                   hT bins in
  let hz' := foldl (fun h bin => alter (fun s => GradStats_plus s (GradStats_of_pair p)) bin h)
                   hz bins in
  exact_on_range ar emb hT' hz' a n /\
  abs_range_sum GetGrad hz' a n
    <= abs_range_sum GetGrad hz a n
       + Z.of_nat (length (filter (fun b => (a <= b < a + n)%nat) bins)) * Z.abs (gp_grad p) /\
  abs_range_sum GetHess hz' a n
    <= abs_range_sum GetHess hz a n
       + Z.of_nat (length (filter (fun b => (a <= b < a + n)%nat) bins)) * Z.abs (gp_hess p).
Proof.
  induction bins as [|b bins IH]; intros hT hz Hrel Hin Hg Hh; simpl.
  { simpl in *. split; [done|]. lia. }
  set (k := Z.of_nat (length (filter (fun b => (a <= b < a + n)%nat) bins))) in *.
  assert (0 <= k) as Hk by (unfold k; lia).
  assert (0 <= k * Z.abs (gp_grad p)) as Hkg by (apply Z.mul_nonneg_nonneg; lia).
  assert (0 <= k * Z.abs (gp_hess p)) as Hkh by (apply Z.mul_nonneg_nonneg; lia).
  assert (Z.of_nat (length (filter (fun b => (a <= b < a + n)%nat) (b :: bins)))
          = (if decide (a <= b < a + n)%nat then 1 else 0) + k) as Hlen.
  { rewrite filter_cons. destruct (decide (a <= b < a + n)%nat); simpl; unfold k; lia. }
  rewrite Hlen in *. clear Hlen.
  assert (b < length hz)%nat as Hb by (apply Hin; by left).
  destruct Hrel as [Hlength Hrel].
  pose proof (abs_range_sum_alter GetGrad (GradStats_of_pair p) hz b a n
                ltac:(done) Hb) as Hag.
  pose proof (abs_range_sum_alter GetHess (GradStats_of_pair p) hz b a n
                ltac:(done) Hb) as Hah.
  pose proof (abs_range_sum_nonneg GetGrad hz a n) as Hng.
  pose proof (abs_range_sum_nonneg GetHess hz a n) as Hnh.
  change (GetGrad (GradStats_of_pair p)) with (gp_grad p) in Hag.
  change (GetHess (GradStats_of_pair p)) with (gp_hess p) in Hah.
  destruct (IH (alter (fun s => GradStatsT_plus ar s
                                  (GradStatsT_of_pair ar (embed_pair embB p))) b hT)
               (alter (fun s => GradStats_plus s (GradStats_of_pair p)) b hz))
    as (Hrel' & Hg' & Hh').
  - split; [by rewrite !length_alter|].
    intros j Hj. rewrite hist_atT_alter by lia. rewrite hist_at_alter by done.
    destruct (decide (b = j)) as [->|Hne]; [|by apply Hrel].
    rewrite Hrel by done.
    pose proof (abs_range_sum_elem GetGrad hz a n j Hj).
    pose proof (abs_range_sum_elem GetHess hz a n j Hj).
    rewrite decide_True in Hg, Hh by done.
    apply GradStatsT_plus_pair_exact; lia.
  - intros b' Hb'. rewrite length_alter. apply Hin. by right.
  - fold k. destruct (decide (a <= b < a + n)%nat); lia.
  - fold k. destruct (decide (a <= b < a + n)%nat); lia.
  - fold k in Hg', Hh'. split; [exact Hrel'|].
    destruct (decide (a <= b < a + n)%nat); lia.
Qed.

(** The histogram of a list of rows: while every row has one bin in
    the range and the absolute mass of the gradient pairs stays within
    the bound, the entries of the range are exact. *)
Lemma BuildHistT_fold_exact (a n : nat) gmat rows :
  forall hT hz,
  exact_on_range ar emb hT hz a n ->
  (forall row b, row ∈ rows -> b ∈ row_bins gmat row -> (b < length hz)%nat) ->
  (forall row, row ∈ rows -> (row < length gz)%nat) ->
  (forall row, row ∈ rows ->
     length (filter (fun b => (a <= b < a + n)%nat) (row_bins gmat row)) = 1%nat) ->
  abs_range_sum GetGrad hz a n + abs_rows_sum GetGrad gz rows <= bound ->
  abs_range_sum GetHess hz a n + abs_rows_sum GetHess gz rows <= bound ->
  exact_on_range ar emb
    (foldl (add_rowT ar (map (embed_pair embB) gz) (row_bins gmat)) hT rows)
    (foldl (add_row gz (row_bins gmat)) hz rows) a n /\
  abs_range_sum GetGrad (foldl (add_row gz (row_bins gmat)) hz rows) a n
    <= abs_range_sum GetGrad hz a n + abs_rows_sum GetGrad gz rows /\
  abs_range_sum GetHess (foldl (add_row gz (row_bins gmat)) hz rows) a n
    <= abs_range_sum GetHess hz a n + abs_rows_sum GetHess gz rows.
Proof.
  induction rows as [|row rows IH]; intros hT hz Hrel Hin Hrows Hone Hg Hh.
  { simpl. split; [done|]. unfold abs_rows_sum. simpl. lia. }
  change (abs_rows_sum ?pr gz (row :: rows))
    with (Z.abs (pr (GradStats_of_pair (gpair_at gz row))) + abs_rows_sum pr gz rows) in *.
  change (GetGrad (GradStats_of_pair ?p)) with (gp_grad p) in *.
  change (GetHess (GradStats_of_pair ?p)) with (gp_hess p) in *.
  pose proof (abs_rows_sum_nonneg GetGrad gz rows) as Hng.
  pose proof (abs_rows_sum_nonneg GetHess gz rows) as Hnh.
  cbn [foldl]. unfold add_rowT at 2, add_row at 2 4 6.
  rewrite gpair_atT_embed by (apply Hrows; by left).
  destruct (add_row_bins_exact a n (gpair_at gz row) (row_bins gmat row) hT hz Hrel)
    as (Hrel' & Hg' & Hh').
  - intros b Hb. eapply Hin; [by left|done].
  - rewrite Hone by by left. lia.
  - rewrite Hone by by left. lia.
  - rewrite Hone in Hg', Hh' by by left.
    destruct (IH _ _ Hrel') as (Hrel'' & Hg'' & Hh'').
    + intros row' b Hrow' Hb. fold (add_row gz (row_bins gmat) hz row).
      rewrite add_row_length. eapply Hin; [by right|done].
    + intros row' Hrow'. apply Hrows. by right.
    + intros row' Hrow'. apply Hone. by right.
    + lia.
    + lia.
    + split; [exact Hrel''|]. lia.
Qed.

(** The host loop of the dense branch over entries that are exact. *)
Lemma dense_sum_exact (hT : list (GradStatsT F)) (hz : list GradStats) n :
  forall a (s : GradStats),
  (forall b, (a <= b < a + n)%nat -> hist_atT ar hT b = embedT emb (hist_at hz b)) ->
  Z.abs (GetGrad s) + abs_range_sum GetGrad hz a n <= bound ->
  Z.abs (GetHess s) + abs_range_sum GetHess hz a n <= bound ->
  foldl (GradStatsT_plus ar) (embedT emb s) (map (hist_atT ar hT) (seq a n))
  = embedT emb (MkGradStats (GetGrad s + range_sum GetGrad hz a n)
                            (GetHess s + range_sum GetHess hz a n)).
Proof.
  induction n as [|n IH]; intros a s Hrel Hg Hh.
  - simpl. rewrite !range_sum_0, !Z.add_0_r. by destruct s.
  - pose proof (abs_range_sum_nonneg GetGrad hz (S a) n).
    pose proof (abs_range_sum_nonneg GetHess hz (S a) n).
    rewrite abs_range_sum_S in Hg, Hh.
    change (seq a (S n)) with (a :: seq (S a) n).
    change (range_sum ?p hz a (S n)) with (p (hist_at hz a) + range_sum p hz (S a) n).
    cbn [map foldl]. rewrite Hrel by lia.
    unfold GradStatsT_plus at 2. simpl.
    rewrite (GradStatsT_Add_exact ar emb embB bound exact) by lia.
    rewrite IH; [|intros b Hb; apply Hrel; lia|simpl; lia|simpl; lia].
    simpl. f_equal; f_equal; lia.
Qed.

(** The reduction of the sparse branch over pairs that are exact. *)
Lemma rows_sum_exact rows :
  forall s : GradStats,
  (forall row, row ∈ rows -> (row < length gz)%nat) ->
  Z.abs (GetGrad s) + abs_rows_sum GetGrad gz rows <= bound ->
  Z.abs (GetHess s) + abs_rows_sum GetHess gz rows <= bound ->
  foldl (fun sum row_idx =>
           GradStatsT_plus ar sum
             (GradStatsT_of_pair ar (gpair_atT ar (map (embed_pair embB) gz) row_idx)))
        (embedT emb s) rows
  = embedT emb (foldl (fun sum row_idx =>
                         GradStats_plus sum (GradStats_of_pair (gpair_at gz row_idx)))
                      s rows).
Proof.
  induction rows as [|row rows IH]; intros s Hrows Hg Hh; [done|].
  change (abs_rows_sum ?pr gz (row :: rows))
    with (Z.abs (pr (GradStats_of_pair (gpair_at gz row))) + abs_rows_sum pr gz rows) in *.
  change (GetGrad (GradStats_of_pair ?p)) with (gp_grad p) in *.
  change (GetHess (GradStats_of_pair ?p)) with (gp_hess p) in *.
  pose proof (abs_rows_sum_nonneg GetGrad gz rows) as Hng.
  pose proof (abs_rows_sum_nonneg GetHess gz rows) as Hnh.
  cbn [foldl]. rewrite gpair_atT_embed by (apply Hrows; by left).
  rewrite GradStatsT_plus_pair_exact by lia.
  apply IH.
  - intros row' Hrow'. apply Hrows. by right.
  - simpl. lia.
  - simpl. lia.
Qed.

End ExactRootSum.

(** C9, as stated, fails: both branches add in [GradientSumT], in
    different orders, and round differently.  In single precision, on
    three rows with the gradients [2^24, 1, 1] of which the first falls
    into bin 0 and the others into bin 1, the histogram holds [2^24]
    and [2], and the dense branch returns [2^24 + 2]; the reduction
    over the rows in the order of their indices returns [2^24]. *)
Lemma root_sum_dense_differs_from_row_reduction :
  ~ (forall entry0 hinit dev hu0 gmat gz info hu1 nid_ ext,
       InitData entry0 hinit dev hu0 gmat gz info = Ok hu1 ->
       is_dense (data_layout_ hu1) = true ->
       elem_of_each_node_ (row_set_collection_ hu1) !! nid_ = Some ext ->
       let rows := Elem_rows (rsc_Data (row_set_collection_ hu1)) ext in
       let nbins := default 0%nat (last (cut_Ptrs gmat)) in
       let gpair := map (embed_pair Z2F) gz in
       no_missing_values gmat rows ->
       bins_inside gmat rows nbins ->
       root_sum_denseT binary32 (BuildHistT binary32 gpair rows gmat nbins) (cut_Ptrs gmat)
         (fid_least_bins_ hu1)
       = root_sum_rowsT binary32 gpair rows).
Proof.
  intros H.
  specialize (H demo_entry0 demo_hist_init demo_device demo_updater skew_gmat skew_gpair
                skew_info _ 0%nat (0, 3)%nat eq_refl eq_refl eq_refl).
  simpl in H.
  assert (forall row : nat, row ∈ [0; 1; 2]%nat -> row = 0%nat \/ row = 1%nat \/ row = 2%nat)
    as Hcases.
  { intros row Hrow. apply list_elem_of_In in Hrow. simpl in Hrow. lia. }
  assert (no_missing_values skew_gmat [0; 1; 2]%nat) as Hnm.
  { intros row f Hrow Hf Hb. simpl in Hf. assert (f = 0%nat) as -> by lia.
    destruct (Hcases row Hrow) as [->|[->| ->]]; reflexivity. }
  assert (bins_inside skew_gmat [0; 1; 2]%nat 2) as Hin.
  { intros row b Hrow Hb.
    destruct (Hcases row Hrow) as [->|[->| ->]]; simpl in Hb;
      apply list_elem_of_singleton in Hb; subst; lia. }
  specialize (H Hnm Hin). vm_compute in H. inversion H.
Qed.

(** The reduction alone depends on the order in which the rows are
    combined, which [sycl::reduction] leaves open: the same three
    pairs give [2^24] in the order [0, 1, 2] and [2^24 + 2] in the
    order [1, 2, 0]. *)
Example root_sum_rowsT_depends_on_order :
  root_sum_rowsT binary32 skew_gpair32 [0; 1; 2]%nat = embedT Z2F (MkGradStats 16777216 3) /\
  root_sum_rowsT binary32 skew_gpair32 [1; 2; 0]%nat = embedT Z2F (MkGradStats 16777218 3).
Proof. split; reflexivity. Qed.

(** C9, amended. After [InitData] has found the data dense, take the
    histogram of a node as [BuildHist] fills it from the node's rows,
    in the arithmetic of [GradientSumT].  When no row of the extent has
    a missing value, the cut pointers of [fid_least_bins_] ascend, and
    no rounding occurs (the gradient pairs are integers whose absolute
    values add up to at most a bound below which the arithmetic is
    exact), the sum of that histogram over the bin range of
    [fid_least_bins_] (the dense branch of [InitNewNode]) equals the
    reduction of the gradient pairs over the row extent (the sparse
    branch), and both are the exact sum of the pairs. *)
Theorem root_sum_dense_matches_row_reduction {F B : Type} (ar : Arithmetic F B)
    (emb : Z -> F) (embB : Z -> B) (bound : Z)
    entry0 hinit dev hu0 gmat gz info hu1 nid_ ext :
  exact_embedding ar emb embB bound ->
  InitData entry0 hinit dev hu0 gmat gz info = Ok hu1 ->
  is_dense (data_layout_ hu1) = true ->
  elem_of_each_node_ (row_set_collection_ hu1) !! nid_ = Some ext ->
  let rows := Elem_rows (rsc_Data (row_set_collection_ hu1)) ext in
  let nbins := default 0%nat (last (cut_Ptrs gmat)) in
  let gpair := map (embed_pair embB) gz in
  let f := fid_least_bins_ hu1 in
  no_missing_values gmat rows ->
  bins_inside gmat rows nbins ->
  (forall row, row ∈ rows -> (row < length gz)%nat) ->
  (cut_at (cut_Ptrs gmat) f <= cut_at (cut_Ptrs gmat) (f + 1))%nat ->
  Z.of_nat (cut_at (cut_Ptrs gmat) (f + 1)) < 2 ^ 32 ->
  abs_rows_sum GetGrad gz rows <= bound ->
  abs_rows_sum GetHess gz rows <= bound ->
  root_sum_denseT ar (BuildHistT ar gpair rows gmat nbins) (cut_Ptrs gmat) f
  = root_sum_rowsT ar gpair rows /\
  root_sum_rowsT ar gpair rows = embedT emb (root_sum_rows gz rows).
Proof.
  intros Hex Hinit Hdense Hext rows nbins gpair f Hnm Hin Hrows Hasc Hfit Hg Hh.
  destruct (InitData_dense_feature _ _ _ _ _ _ _ _ Hinit Hdense) as [Hfid Hpos].
  destruct (least_bins_positive _ _ Hpos) as [Hf Hbins].
  rewrite <- Hfid in Hf, Hbins. fold f in Hf, Hbins.
  pose proof (nbins_of_ascending (cut_Ptrs gmat) f Hasc Hfit) as Hn.
  set (a := cut_at (cut_Ptrs gmat) f) in *.
  set (e := cut_at (cut_Ptrs gmat) (f + 1)) in *.
  assert (forall row, row ∈ rows ->
            length (filter (fun b => (a <= b < a + (e - a))%nat) (row_bins gmat row)) = 1%nat)
    as Hone.
  { intros row Hrow. replace (a + (e - a))%nat with e by lia. apply Hnm; [done|done|lia]. }
  assert (root_sum_rowsT ar gpair rows = embedT emb (root_sum_rows gz rows)) as Hsparse.
  { unfold root_sum_rowsT, root_sum_rows.
    rewrite <- (embedT_zero ar emb embB bound Hex).
    apply (rows_sum_exact ar emb embB bound Hex); [done|simpl; lia|simpl; lia]. }
  split; [|exact Hsparse]. rewrite Hsparse.
  destruct (BuildHistT_fold_exact ar emb embB bound Hex gz a (e - a) gmat rows
              (replicate nbins (GradStatsT_zero ar)) (InitHist nbins))
    as (Hrel & Hbg & Hbh).
  - split; [unfold InitHist; by rewrite !length_replicate|].
    intros b _. unfold hist_atT, hist_at, InitHist.
    destruct (decide (b < nbins)%nat) as [Hb|Hb].
    + rewrite !lookup_replicate_2 by done. simpl.
      by rewrite (embedT_zero ar emb embB bound Hex).
    + rewrite !lookup_ge_None_2 by (rewrite length_replicate; lia). simpl.
      by rewrite (embedT_zero ar emb embB bound Hex).
  - intros row b Hrow Hb. unfold InitHist. rewrite length_replicate. by eapply Hin.
  - done.
  - done.
  - rewrite abs_range_sum_InitHist by done. lia.
  - rewrite abs_range_sum_InitHist by done. lia.
  - rewrite !abs_range_sum_InitHist in Hbg, Hbh by done.
    fold (BuildHist gz rows gmat nbins) in Hrel, Hbg, Hbh.
    fold (BuildHistT ar gpair rows gmat nbins) in Hrel.
    unfold root_sum_denseT. fold a. rewrite Hn.
    rewrite <- (embedT_zero ar emb embB bound Hex).
    rewrite (dense_sum_exact ar emb embB bound Hex _ (BuildHist gz rows gmat nbins));
      [|apply Hrel|simpl; lia|simpl; lia].
    rewrite !BuildHist_range_sum by done.
    destruct (root_sum_rows_proj gz rows) as [Hg' Hh'].
    f_equal. apply GradStats_eq; simpl; lia.
Qed.

Lemma root_sum_dense_matches_row_reduction_witness :
  exists hu1,
    InitData demo_entry0 demo_hist_init demo_device demo_updater demo_gmat demo_gpair
      demo_info = Ok hu1 /\
    root_sum_denseT binary32 (BuildHistT binary32 demo_gpair32 [0; 1; 2; 3]%nat demo_gmat 2)
      [0; 2]%nat (fid_least_bins_ hu1)
    = root_sum_rowsT binary32 demo_gpair32 [0; 1; 2; 3]%nat /\
    root_sum_rowsT binary32 demo_gpair32 [0; 1; 2; 3]%nat = embedT Z2F (MkGradStats 0 4).
Proof.
  eexists. split; [reflexivity|].
  assert (forall row : nat, row ∈ [0; 1; 2; 3]%nat -> (row < 4)%nat) as Hcases.
  { intros row Hrow. apply list_elem_of_In in Hrow. simpl in Hrow. lia. }
  apply (root_sum_dense_matches_row_reduction binary32 Z2F Z2F 64 demo_entry0 demo_hist_init
           demo_device demo_updater demo_gmat demo_gpair demo_info _ 0%nat (0, 4)%nat
           binary32_exact eq_refl eq_refl eq_refl).
  - intros row f Hrow Hf Hb. simpl in Hf. assert (f = 0%nat) as -> by lia.
    apply Hcases in Hrow.
    assert (row = 0 \/ row = 1 \/ row = 2 \/ row = 3)%nat as [->|[->|[->| ->]]] by lia;
      reflexivity.
  - intros row b Hrow Hb. apply Hcases in Hrow.
    assert (row = 0 \/ row = 1 \/ row = 2 \/ row = 3)%nat as [->|[->|[->| ->]]] by lia;
      simpl in Hb; apply list_elem_of_singleton in Hb; subst; simpl; lia.
  - exact Hcases.
  - vm_compute. lia.
  - vm_compute. reflexivity.
  - vm_compute. discriminate.
  - vm_compute. discriminate.
Defined.
